(** * Transitmapper: the GTFS parser ([backend/gtfs_parser.py])

    A shallow embedding of the feed parser: the route-type normaliser, the
    five table readers, the route reconstruction and the two-tier loading
    of [load_from_file], followed by the properties of the specification
    that concern them.

    Conventions of the embedding.
    - A value read from a CSV cell is a Python [str] or [None]
      ([csv.DictReader] fills the missing fields of a short row with
      [None]); it is a [cell], i.e. an [option string].  Strings are byte
      strings (UTF-8), whose bytewise order is the code-point order Python
      compares [str] with.
    - Python dictionaries keep insertion order and the reconstruction
      iterates over them, so they are association lists with unique keys
      ([OrderedDict] below).
    - Exceptions are values of [exn]; a computation that may raise returns
      a [result].  The row loops catch [KeyError] and [ValueError] only, as
      the source does.
    - A member of the archive is the list of the rows its reader yields.
      Reading a member can fail ([for row in reader] raises, outside the
      [try] of the loop body): an archive of which a member fails is a
      [ZipFile_broken], and the rows it has for that member are the rows
      yielded before the failure.
    - [int()] and [float()] on text are parameters of the development
      ([int_of_str], [float_of_str]): no property below depends on which
      literals they accept. *)

From Stdlib Require Import List ZArith Bool String Ascii Lia.
From Stdlib Require Import Permutation Sorted QArith.
Import ListNotations.

Local Open Scope string_scope.
Local Open Scope list_scope.
Local Open Scope Z_scope.

(** ** Exceptions and results *)

Inductive exn : Type :=
| KeyError
| ValueError
| TypeError
| OSError
| UnicodeDecodeError
| csv_Error
| zipfile_BadZipFile.

Inductive result (A : Type) : Type :=
| Ok (a : A)
| Raise (e : exn).

Arguments Ok {A} a.
Arguments Raise {A} e.

Definition bind {A B : Type} (m : result A) (k : A -> result B) : result B :=
  match m with
  | Ok a => k a
  | Raise e => Raise e
  end.

Notation "x <- m ;; k" := (bind m (fun x => k))
  (at level 61, m at next level, right associativity).
Notation "' p <- m ;; k" := (bind m (fun x => let p := x in k))
  (at level 61, p pattern, m at next level, right associativity).

(** [except (KeyError, ValueError): continue] around a loop body: the loop
    goes on from the state [s] the body started in.  In every body of the
    source the assignments to [self] are the last statements and cannot
    raise once begun, so a body that raises has left [s] as it was.
    [UnicodeDecodeError] is a subclass of [ValueError]. *)
Definition except_Key_Value {S : Type} (s : S) (body : result S) : result S :=
  match body with
  | Ok s' => Ok s'
  | Raise KeyError => Ok s
  | Raise ValueError => Ok s
  | Raise UnicodeDecodeError => Ok s
  | Raise e => Raise e
  end.

(** [except KeyError: continue]. *)
Definition except_Key {S : Type} (s : S) (body : result S) : result S :=
  match body with
  | Ok s' => Ok s'
  | Raise KeyError => Ok s
  | Raise e => Raise e
  end.

(** A [for] loop whose body may raise. *)
Fixpoint for_each {S X : Type} (body : X -> S -> result S) (xs : list X) (s : S)
  : result S :=
  match xs with
  | [] => Ok s
  | x :: xs' => s' <- body x s ;; for_each body xs' s'
  end.

(** ** Cells *)

Definition cell : Type := option string.

Definition cell_eqb (a b : cell) : bool :=
  match a, b with
  | None, None => true
  | Some x, Some y => String.eqb x y
  | _, _ => false
  end.


(** Truth value of a cell: [None] and the empty string are falsy. *)
Definition truthy (c : cell) : bool :=
  match c with
  | None => false
  | Some s => negb (String.eqb s "")
  end.

(** ** Insertion-ordered dictionaries *)

Module OrderedDict.
Section Dict.
Context {K V : Type} (eqb : K -> K -> bool).

(** [d.get(k)], [None] when the key is absent. *)
Fixpoint get (k : K) (d : list (K * V)) : option V :=
  match d with
  | [] => None
  | (k', v) :: d' => if eqb k k' then Some v else get k d'
  end.

(** [d.get(k, default)] *)
Definition get_default (k : K) (default : V) (d : list (K * V)) : V :=
  match get k d with
  | Some v => v
  | None => default
  end.

(** [k in d] *)
Definition mem (k : K) (d : list (K * V)) : bool :=
  match get k d with
  | Some _ => true
  | None => false
  end.

(** [d[k] = v]: an existing key keeps its place, a new one goes last. *)
Fixpoint set (k : K) (v : V) (d : list (K * V)) : list (K * V) :=
  match d with
  | [] => [(k, v)]
  | (k', v') :: d' => if eqb k k' then (k, v) :: d' else (k', v') :: set k v d'
  end.

Definition keys (d : list (K * V)) : list K := map fst d.

(** The entries whose key satisfies [p], in order. *)
Definition restrict (p : K -> bool) (d : list (K * V)) : list (K * V) :=
  filter (fun e => p (fst e)) d.

End Dict.

(** [d[k].append(x)] on a [defaultdict(list)]. *)
Definition append_item {K X : Type} (eqb : K -> K -> bool) (k : K) (x : X)
    (d : list (K * list X)) : list (K * list X) :=
  set eqb k (get_default eqb k [] d ++ [x]) d.
End OrderedDict.

Definition odict (K V : Type) : Type := list (K * V).

(** ** Builtins: [sorted] and [max] *)

Section Sorting.
Context {A : Type} (leb : A -> A -> bool).

(** [x] goes before the first element it is not greater than, so before
    the elements it ties with. *)
Fixpoint insert_sorted (x : A) (l : list A) : list A :=
  match l with
  | [] => [x]
  | y :: l' => if leb x y then x :: l else y :: insert_sorted x l'
  end.

(** The stable sort: [x], which came before every element of [l], is
    inserted before those it ties with. *)
Fixpoint stable_sort (l : list A) : list A :=
  match l with
  | [] => []
  | x :: l' => insert_sorted x (stable_sort l')
  end.
End Sorting.

(** [sorted(points, key=lambda x: x[0])] *)
Definition sorted_by_key {A : Type} (key : A -> Z) (l : list A) : list A :=
  stable_sort (fun a b => key a <=? key b) l.

(** Order of [(seq, stop_id)] tuples whose stop ids are comparable. *)
Definition cell_leb (a b : cell) : bool :=
  match a, b with
  | Some x, Some y => String.leb x y
  | None, None => true
  | _, _ => false
  end.

Definition tuple_leb (a b : Z * cell) : bool :=
  (fst a <? fst b) || ((fst a =? fst b) && cell_leb (snd a) (snd b)).

Definition is_None (c : cell) : bool :=
  match c with
  | None => true
  | Some _ => false
  end.

(** Two entries tie on the sequence number and one stop id is [None] while
    the other is a [str]: the tuples differ and cannot be ordered. *)
Definition incomparable (a b : Z * cell) : bool :=
  (fst a =? fst b) && xorb (is_None (snd a)) (is_None (snd b)).

Definition has_incomparable (l : list (Z * cell)) : bool :=
  existsb (fun a => existsb (incomparable a) l) l.

(** [sorted(stops)] on [(int, str | None)] tuples.  Tuples are compared
    elementwise, the second components only when the first are equal, and
    [None < str] raises [TypeError].  A sort has to compare some [None]
    entry with some [str] entry of the same sequence number when both
    occur, and compares no other unordered pair. *)
Definition py_sorted (l : list (Z * cell)) : result (list (Z * cell)) :=
  if has_incomparable l then Raise TypeError else Ok (stable_sort tuple_leb l).

(** [max(l, key=key)] returns the first maximal element; [ValueError] on an
    empty list. *)
Fixpoint max_from {A : Type} (key : A -> nat) (best : A) (l : list A) : A :=
  match l with
  | [] => best
  | x :: l' => max_from key (if (key best <? key x)%nat then x else best) l'
  end.

Definition py_max {A : Type} (key : A -> nat) (l : list A) : result A :=
  match l with
  | [] => Raise ValueError
  | x :: l' => Ok (max_from key x l')
  end.

(** ** Route types *)

Definition type_mapping : odict Z Z :=
  [ (* Rail types -> 2 *)
    (100, 2); (101, 2); (102, 2); (103, 2); (106, 2); (109, 2);
    (* Metro types -> 1 *)
    (400, 1); (401, 1);
    (* Bus types -> 3 *)
    (700, 3); (702, 3); (704, 3);
    (* Tram types -> 0 *)
    (900, 0);
    (* Ferry types -> 4 *)
    (1000, 4) ].

Definition normalize_route_type (route_type : Z) : Z :=
  OrderedDict.get_default Z.eqb route_type
    (if route_type <=? 7 then route_type else 3) type_mapping.

(** ** Data model *)

Module Stop.
Record t {float : Type} : Type := mk
  { id : cell;
    name : cell;
    lat : float;
    lng : float }.
Arguments t : clear implicits.
End Stop.

Module Route.
Record t {float : Type} : Type := mk
  { id : cell;
    name : cell;
    route_type : Z;
    stop_ids : list cell;
    shape_coords : list (float * float) }.
Arguments t : clear implicits.
End Route.

(** The attributes of a [GtfsParser]. *)
Record GtfsParser {float : Type} : Type := mkGtfsParser
  { stops : odict cell (Stop.t float);
    routes : list (Route.t float);
    _route_info : odict cell (cell * Z);
    _trip_to_route : odict cell cell;
    _trip_to_shape : odict cell cell;
    _trip_stops : odict cell (list (Z * cell));
    _shapes : odict cell (list (float * float)) }.
Arguments GtfsParser : clear implicits.

(** [GtfsParser()] *)
Definition __init__ {float : Type} : GtfsParser float :=
  {| stops := []; routes := []; _route_info := []; _trip_to_route := [];
     _trip_to_shape := []; _trip_stops := []; _shapes := [] |}.

Section Setters.
Context {float : Type}.
Implicit Type self : GtfsParser float.

Definition set_stops self v : GtfsParser float :=
  {| stops := v; routes := routes self; _route_info := _route_info self;
     _trip_to_route := _trip_to_route self;
     _trip_to_shape := _trip_to_shape self;
     _trip_stops := _trip_stops self; _shapes := _shapes self |}.

Definition set_routes self v : GtfsParser float :=
  {| stops := stops self; routes := v; _route_info := _route_info self;
     _trip_to_route := _trip_to_route self;
     _trip_to_shape := _trip_to_shape self;
     _trip_stops := _trip_stops self; _shapes := _shapes self |}.

Definition set_route_info self v : GtfsParser float :=
  {| stops := stops self; routes := routes self; _route_info := v;
     _trip_to_route := _trip_to_route self;
     _trip_to_shape := _trip_to_shape self;
     _trip_stops := _trip_stops self; _shapes := _shapes self |}.

Definition set_trip_to_route self v : GtfsParser float :=
  {| stops := stops self; routes := routes self;
     _route_info := _route_info self; _trip_to_route := v;
     _trip_to_shape := _trip_to_shape self;
     _trip_stops := _trip_stops self; _shapes := _shapes self |}.

Definition set_trip_to_shape self v : GtfsParser float :=
  {| stops := stops self; routes := routes self;
     _route_info := _route_info self;
     _trip_to_route := _trip_to_route self; _trip_to_shape := v;
     _trip_stops := _trip_stops self; _shapes := _shapes self |}.

Definition set_trip_stops self v : GtfsParser float :=
  {| stops := stops self; routes := routes self;
     _route_info := _route_info self;
     _trip_to_route := _trip_to_route self;
     _trip_to_shape := _trip_to_shape self;
     _trip_stops := v; _shapes := _shapes self |}.

Definition set_shapes self v : GtfsParser float :=
  {| stops := stops self; routes := routes self;
     _route_info := _route_info self;
     _trip_to_route := _trip_to_route self;
     _trip_to_shape := _trip_to_shape self;
     _trip_stops := _trip_stops self; _shapes := v |}.
End Setters.

(** ** Input: rows and archives *)

(** A row of [csv.DictReader]: a dictionary from the header's field names
    to the row's cells. *)
Definition row : Type := odict string cell.

(** [row[k]] *)
Definition row_item (k : string) (r : row) : result cell :=
  match OrderedDict.get String.eqb k r with
  | Some c => Ok c
  | None => Raise KeyError
  end.

(** [row.get(k)] and [row.get(k, default)] *)
Definition row_get (k : string) (default : cell) (r : row) : cell :=
  OrderedDict.get_default String.eqb k default r.

(** [k in row] *)
Definition row_has (k : string) (r : row) : bool :=
  OrderedDict.mem String.eqb k r.

(** An opened archive: for each table the name list contains, the rows
    its reader yields. *)
Record archive : Type := mkArchive
  { stops_txt : option (list row);
    routes_txt : option (list row);
    trips_txt : option (list row);
    shapes_txt : option (list row);
    stop_times_txt : option (list row) }.

(** The tables, in the order [_parse_zip] reads them. *)
Inductive table : Type :=
| stops_table
| routes_table
| trips_table
| shapes_table
| stop_times_table.

Definition table_eqb (a b : table) : bool :=
  match a, b with
  | stops_table, stops_table
  | routes_table, routes_table
  | trips_table, trips_table
  | shapes_table, shapes_table
  | stop_times_table, stop_times_table => true
  | _, _ => false
  end.

Definition member_rows (t : table) (zf : archive) : option (list row) :=
  match t with
  | stops_table => stops_txt zf
  | routes_table => routes_txt zf
  | trips_table => trips_txt zf
  | shapes_table => shapes_txt zf
  | stop_times_table => stop_times_txt zf
  end.

(** What reading a member raises when it fails, in [zf.open] or in
    [for row in reader]. *)
Inductive read_error : Type :=
| bad_member    (* [zipfile.BadZipFile]: a bad CRC-32, a bad local header *)
| bad_field     (* [csv.Error]: a field over the size limit, a NUL byte *)
| bad_encoding. (* [UnicodeDecodeError]: bytes that are not UTF-8 *)

Definition raised (e : read_error) : exn :=
  match e with
  | bad_member => zipfile_BadZipFile
  | bad_field => csv_Error
  | bad_encoding => UnicodeDecodeError
  end.

(** [zipfile.ZipFile(zip_data)] raises [BadZipFile], or opens an archive
    whose members are all read to their end ([ZipFile]), or opens an
    archive of which the first member that fails to be read is [member]
    ([ZipFile_broken]): its reader yields the rows [zf] has for it and then
    raises [e].  What follows a failure is never read. *)
Inductive zip_data : Type :=
| BadZipFile
| ZipFile (zf : archive)
| ZipFile_broken (zf : archive) (member : table) (e : read_error).

(** ** The parser *)

Section Parser.
Variable float : Type.
(** [float(s)] and [int(s)] on a string; [None] stands for [ValueError]. *)
Variable float_of_str : string -> option float.
Variable int_of_str : string -> option Z.

Local Abbreviation Parser := (GtfsParser float).

(** Each table reader below is the loop of its function over the rows that
    [csv.DictReader] yields.  What happens when the reader itself raises
    is said by [reading] for one table and by [parse_broken] for the whole
    parse. *)

(** [float(c)] on a cell: [float(None)] raises [TypeError]. *)
Definition py_float (c : cell) : result float :=
  match c with
  | None => Raise TypeError
  | Some s =>
      match float_of_str s with
      | Some x => Ok x
      | None => Raise ValueError
      end
  end.

(** [int(c)] on a cell. *)
Definition py_int (c : cell) : result Z :=
  match c with
  | None => Raise TypeError
  | Some s =>
      match int_of_str s with
      | Some n => Ok n
      | None => Raise ValueError
      end
  end.

(** *** [_parse_stops] *)

Definition _parse_stops_row (r : row) (self : Parser) : result Parser :=
  except_Key_Value self
    (id <- row_item "stop_id" r ;;
     let name := row_get "stop_name" (Some "") r in
     lat_s <- row_item "stop_lat" r ;;
     lat <- py_float lat_s ;;
     lng_s <- row_item "stop_lon" r ;;
     lng <- py_float lng_s ;;
     key <- row_item "stop_id" r ;;
     Ok (set_stops self
           (OrderedDict.set cell_eqb key (Stop.mk float id name lat lng)
              (stops self)))).

Definition _parse_stops (rows : list row) (self : Parser) : result Parser :=
  for_each _parse_stops_row rows self.

(** *** [_parse_routes] *)

Definition _parse_routes_row (r : row) (self : Parser) : result Parser :=
  except_Key_Value self
    (route_id <- row_item "route_id" r ;;
     let short := row_get "route_short_name" None r in
     let name := if truthy short then short
                 else row_get "route_long_name" (Some "") r in
     route_type <- match OrderedDict.get String.eqb "route_type" r with
                   | Some c => py_int c
                   | None => Ok 3
                   end ;;
     Ok (set_route_info self
           (OrderedDict.set cell_eqb route_id (name, route_type)
              (_route_info self)))).

Definition _parse_routes (rows : list row) (self : Parser) : result Parser :=
  for_each _parse_routes_row rows self.

(** *** [_parse_trips] *)

Definition _parse_trips_row (r : row) (self : Parser) : result Parser :=
  except_Key self
    (trip_id <- row_item "trip_id" r ;;
     route_id <- row_item "route_id" r ;;
     let self := set_trip_to_route self
                   (OrderedDict.set cell_eqb trip_id route_id
                      (_trip_to_route self)) in
     if row_has "shape_id" r
     then shape_id <- row_item "shape_id" r ;;
          if truthy shape_id
          then Ok (set_trip_to_shape self
                     (OrderedDict.set cell_eqb trip_id shape_id
                        (_trip_to_shape self)))
          else Ok self
     else Ok self).

Definition _parse_trips (rows : list row) (self : Parser) : result Parser :=
  for_each _parse_trips_row rows self.

(** *** [_parse_shapes] *)

Definition shape_points_t : Type := odict cell (list (Z * float * float)).

Definition _parse_shapes_row (r : row) (shape_points : shape_points_t)
  : result shape_points_t :=
  except_Key_Value shape_points
    (shape_id <- row_item "shape_id" r ;;
     seq_s <- row_item "shape_pt_sequence" r ;;
     seq <- py_int seq_s ;;
     lat_s <- row_item "shape_pt_lat" r ;;
     lat <- py_float lat_s ;;
     lng_s <- row_item "shape_pt_lon" r ;;
     lng <- py_float lng_s ;;
     Ok (OrderedDict.append_item cell_eqb shape_id (seq, lat, lng)
           shape_points)).

(** Sort by sequence and store just coordinates. *)
Definition shape_coords_of (points : list (Z * float * float))
  : list (float * float) :=
  map (fun p => (snd (fst p), snd p))
      (sorted_by_key (fun x => fst (fst x)) points).

Definition store_shape (shapes : odict cell (list (float * float)))
    (entry : cell * list (Z * float * float))
  : odict cell (list (float * float)) :=
  OrderedDict.set cell_eqb (fst entry) (shape_coords_of (snd entry)) shapes.

Definition _parse_shapes (rows : list row) (self : Parser) : result Parser :=
  shape_points <- for_each _parse_shapes_row rows [] ;;
  Ok (set_shapes self (fold_left store_shape shape_points (_shapes self))).

(** The points a row adds to the shape [shape_id]: what the loop body
    appends when it runs on an empty accumulator. *)
Definition shape_row_points (r : row) (shape_id : cell)
  : list (Z * float * float) :=
  match _parse_shapes_row r [] with
  | Ok shape_points => OrderedDict.get_default cell_eqb shape_id [] shape_points
  | Raise _ => []
  end.

(** *** [_parse_stop_times] *)

Definition _parse_stop_times_row (r : row) (self : Parser) : result Parser :=
  except_Key_Value self
    (trip_id <- row_item "trip_id" r ;;
     (* Skip trips not linked to routes *)
     if negb (OrderedDict.mem cell_eqb trip_id (_trip_to_route self))
     then Ok self
     else
       stop_id <- row_item "stop_id" r ;;
       seq_s <- row_item "stop_sequence" r ;;
       seq <- py_int seq_s ;;
       Ok (set_trip_stops self
             (OrderedDict.append_item cell_eqb trip_id (seq, stop_id)
                (_trip_stops self)))).

Definition _parse_stop_times (rows : list row) (self : Parser)
  : result Parser :=
  for_each _parse_stop_times_row rows self.

(** *** [_build_routes] *)

Definition trip_data_t : Type := list (list cell * cell).

(** First loop: group the trips by route. *)
Definition group_trip (self : Parser) (entry : cell * list (Z * cell))
    (route_trips : odict cell trip_data_t) : result (odict cell trip_data_t) :=
  let trip_id := fst entry in
  let stops := snd entry in
  let route_id :=
    OrderedDict.get_default cell_eqb trip_id None (_trip_to_route self) in
  if truthy route_id
  then
    sorted <- py_sorted stops ;;
    let sorted_stops := map snd sorted in
    let shape_id :=
      OrderedDict.get_default cell_eqb trip_id (Some "")
        (_trip_to_shape self) in
    Ok (OrderedDict.append_item cell_eqb route_id (sorted_stops, shape_id)
          route_trips)
  else Ok route_trips.

Definition group_trips (self : Parser) : result (odict cell trip_data_t) :=
  for_each (group_trip self) (_trip_stops self) [].

(** Use the longest trip as representative. *)
Definition best_trip (trip_data : trip_data_t) : result (list cell * cell) :=
  py_max (fun x => List.length (fst x)) trip_data.

(** Second loop: one [Route] per route id, or none. *)
Definition build_route (self : Parser) (entry : cell * trip_data_t)
  : result (option (Route.t float)) :=
  let route_id := fst entry in
  let trip_data := snd entry in
  match trip_data with
  | [] => Ok None
  | _ :: _ =>
      best <- best_trip trip_data ;;
      let stop_ids := fst best in
      let shape_id := snd best in
      (* Filter to only stops we have data for *)
      let stop_ids :=
        filter (fun s => OrderedDict.mem cell_eqb s (stops self)) stop_ids in
      if (List.length stop_ids <? 2)%nat then Ok None
      else
        (* Get shape coordinates if available *)
        let shape_coords :=
          OrderedDict.get_default cell_eqb shape_id [] (_shapes self) in
        let info :=
          OrderedDict.get_default cell_eqb route_id (Some "Unknown", 3)
            (_route_info self) in
        Ok (Some (Route.mk float route_id (fst info)
                    (normalize_route_type (snd info)) stop_ids shape_coords))
  end.

Definition append_route (self : Parser) (entry : cell * trip_data_t)
    (routes : list (Route.t float)) : result (list (Route.t float)) :=
  built <- build_route self entry ;;
  match built with
  | Some route => Ok (routes ++ [route])
  | None => Ok routes
  end.

Definition _build_routes (self : Parser) : result Parser :=
  route_trips <- group_trips self ;;
  routes <- for_each (append_route self) route_trips (routes self) ;;
  Ok (set_routes self routes).

(** The route the first loop files a trip under, and the trips it files
    under [route_id], in the order it meets them. *)
Definition route_of_trip (self : Parser) (trip_id : cell) : cell :=
  OrderedDict.get_default cell_eqb trip_id None (_trip_to_route self).

Definition trips_of_route (self : Parser) (route_id : cell)
  : list (cell * list (Z * cell)) :=
  filter (fun entry =>
            truthy (route_of_trip self (fst entry))
            && cell_eqb (route_of_trip self (fst entry)) route_id)
         (_trip_stops self).

(** [s in self.stops] *)
Definition known_stop (self : Parser) (s : cell) : bool :=
  OrderedDict.mem cell_eqb s (stops self).

(** *** [_parse_zip] *)

Definition if_present (table : option (list row))
    (parse : list row -> Parser -> result Parser) (self : Parser)
  : result Parser :=
  match table with
  | Some rows => parse rows self
  | None => Ok self
  end.

Definition parse_tables (parse_stop_times : list row -> Parser -> result Parser)
    (zf : archive) (self : Parser) : result Parser :=
  self <- if_present (stops_txt zf) _parse_stops self ;;
  self <- if_present (routes_txt zf) _parse_routes self ;;
  self <- if_present (trips_txt zf) _parse_trips self ;;
  self <- if_present (shapes_txt zf) _parse_shapes self ;;
  self <- if_present (stop_times_txt zf) parse_stop_times self ;;
  _build_routes self.

(** A table reader on a member whose reader fails: the loop runs on the
    rows the reader yields, then the exception of the reader, raised by
    [for row in reader] outside the [try] of the loop body, leaves the
    function. *)
Definition reading (parse : list row -> Parser -> result Parser)
    (rows : list row) (failure : option read_error) (self : Parser)
  : result Parser :=
  self <- parse rows self ;;
  match failure with
  | Some e => Raise (raised e)
  | None => Ok self
  end.

(** [self] when the reader of [member] has yielded its last row.  The loops
    of [_parse_stops], [_parse_routes], [_parse_trips] and
    [_parse_stop_times] assign to [self] row by row; the loop of
    [_parse_shapes] fills a local dictionary, which is stored in [self]
    after the loop only. *)
Definition rows_read (parse_stop_times : list row -> Parser -> result Parser)
    (member : table) (rows : list row) (self : Parser) : result Parser :=
  match member with
  | stops_table => _parse_stops rows self
  | routes_table => _parse_routes rows self
  | trips_table => _parse_trips rows self
  | shapes_table => _ <- for_each _parse_shapes_row rows [] ;; Ok self
  | stop_times_table => parse_stop_times rows self
  end.

(** [except zipfile.BadZipFile: return False]: any other exception leaves
    [_parse_zip]. *)
Definition except_BadZipFile (self : Parser) (e : exn)
  : result (Parser * bool) :=
  match e with
  | zipfile_BadZipFile => Ok (self, false)
  | _ => Raise e
  end.

(** The tables [_parse_zip] reads before it comes to [member]. *)
Definition tables_before (member : table) (zf : archive) (self : Parser)
  : result Parser :=
  match member with
  | stops_table => Ok self
  | routes_table => if_present (stops_txt zf) _parse_stops self
  | trips_table =>
      self <- if_present (stops_txt zf) _parse_stops self ;;
      if_present (routes_txt zf) _parse_routes self
  | shapes_table =>
      self <- if_present (stops_txt zf) _parse_stops self ;;
      self <- if_present (routes_txt zf) _parse_routes self ;;
      if_present (trips_txt zf) _parse_trips self
  | stop_times_table =>
      self <- if_present (stops_txt zf) _parse_stops self ;;
      self <- if_present (routes_txt zf) _parse_routes self ;;
      self <- if_present (trips_txt zf) _parse_trips self ;;
      if_present (shapes_txt zf) _parse_shapes self
  end.

(** [_parse_zip] on an archive whose member [member] fails to be read: the
    tables before it are read as usual, the loop of [member] runs on the
    rows its reader yields, and the exception of the reader ends the
    parse.  A member that is not in the name list is never opened. *)
Definition parse_broken (parse_stop_times : list row -> Parser -> result Parser)
    (zf : archive) (member : table) (e : read_error) (self : Parser)
  : result (Parser * bool) :=
  match member_rows member zf with
  | None =>
      self <- parse_tables parse_stop_times zf self ;;
      Ok (self, true)
  | Some rows =>
      self <- tables_before member zf self ;;
      self <- rows_read parse_stop_times member rows self ;;
      except_BadZipFile self (raised e)
  end.

Definition _parse_zip (data : zip_data) (self : Parser)
  : result (Parser * bool) :=
  match data with
  | BadZipFile => Ok (self, false)
  | ZipFile zf =>
      self <- parse_tables _parse_stop_times zf self ;;
      Ok (self, true)
  | ZipFile_broken zf member e =>
      parse_broken _parse_stop_times zf member e self
  end.

(** *** The stop-times reader of the specification

    The variant the specification compares with: it has no early exit,
    accumulates every well-formed row, whatever its trip, and skips every
    other row.  A row is well-formed when it has a [trip_id], a [stop_id]
    and an integer [stop_sequence]; a field beyond the end of a short row
    ([None]) is a field the row does not have. *)

Definition well_formed_stop_time (r : row) : option (cell * cell * Z) :=
  match OrderedDict.get String.eqb "trip_id" r,
        OrderedDict.get String.eqb "stop_id" r,
        OrderedDict.get String.eqb "stop_sequence" r with
  | Some (Some trip_id), Some (Some stop_id), Some (Some seq_s) =>
      match int_of_str seq_s with
      | Some seq => Some (Some trip_id, Some stop_id, seq)
      | None => None
      end
  | _, _, _ => None
  end.

Definition spec_stop_times_row (r : row) (self : Parser) : result Parser :=
  match well_formed_stop_time r with
  | Some (trip_id, stop_id, seq) =>
      Ok (set_trip_stops self
            (OrderedDict.append_item cell_eqb trip_id (seq, stop_id)
               (_trip_stops self)))
  | None => Ok self
  end.

Definition spec_stop_times (rows : list row) (self : Parser)
  : result Parser :=
  for_each spec_stop_times_row rows self.

(** [_parse_zip] with that reader for [stop_times.txt]. *)
Definition spec_parse_zip (data : zip_data) (self : Parser)
  : result (Parser * bool) :=
  match data with
  | BadZipFile => Ok (self, false)
  | ZipFile zf =>
      self <- parse_tables spec_stop_times zf self ;;
      Ok (self, true)
  | ZipFile_broken zf member e =>
      parse_broken spec_stop_times zf member e self
  end.

(** [filtered] and [unfiltered] differ in [_trip_stops] only, and there only
    on trips that [trips.txt] does not have. *)
Definition agree_on_known_trips (filtered unfiltered : Parser) : Prop :=
  unfiltered = set_trip_stops filtered (_trip_stops unfiltered)
  /\ OrderedDict.restrict (fun trip_id =>
         OrderedDict.mem cell_eqb trip_id (_trip_to_route filtered)) (_trip_stops unfiltered)
     = OrderedDict.restrict (fun trip_id =>
         OrderedDict.mem cell_eqb trip_id (_trip_to_route filtered)) (_trip_stops filtered).

(** *** [load_from_file] *)

(** What reading the [.parsed] file gives. *)
Inductive pickle : Type :=
| Unpicklable
    (* opening, [pickle.load] or [data["stops"]] raises *)
| StopsOnly (cached_stops : odict cell (Stop.t float))
    (* [data["routes"]] raises, after [self.stops] was assigned *)
| Pickled (cached_stops : odict cell (Stop.t float))
          (cached_routes : list (Route.t float)).

(** The two files [load_from_file] looks at.  A last-write time
    ([st_mtime]) is the rational number the float denotes.  The contents
    of the archive are [None] when it cannot be read. *)
Record filesystem : Type := mkFilesystem
  { archive_file : option (Q * option zip_data);
    parsed_file : option (Q * pickle);
    parsed_writable : bool }.

(** File operations, in the order they happen. *)
Inductive io : Type :=
| Read_parsed
| Read_archive
| Write_parsed (saved_stops : odict cell (Stop.t float))
               (saved_routes : list (Route.t float))
| Write_parsed_failed.

Definition traced {A : Type} (ev : io) (m : list io * A) : list io * A :=
  (ev :: fst m, snd m).

(** The block under [# Parse the ZIP file]. *)
Definition parse_archive (fs : filesystem) (self : Parser)
  : list io * result (Parser * bool) :=
  traced Read_archive
    match archive_file fs with
    | Some (_, Some data) =>
        match _parse_zip data self with
        | Ok (self, true) =>
            (* Save processed cache *)
            ([if parsed_writable fs
              then Write_parsed (stops self) (routes self)
              else Write_parsed_failed],
             Ok (self, true))
        | Ok (self, false) => ([], Ok (self, false))
        | Raise OSError => ([], Ok (self, false))
        | Raise e => ([], Raise e)
        end
    | _ => ([], Ok (self, false))
    end.

Definition load_from_file (fs : filesystem) (self : Parser)
  : list io * result (Parser * bool) :=
  match parsed_file fs with
  | Some (cache_mtime, cached) =>
      match archive_file fs with
      | None => ([], Raise OSError)
      | Some (zip_mtime, _) =>
          if negb (Qle_bool cache_mtime zip_mtime)
          then
            traced Read_parsed
              match cached with
              | Pickled cached_stops cached_routes =>
                  ([], Ok (set_routes (set_stops self cached_stops)
                             cached_routes, true))
              | StopsOnly cached_stops =>
                  parse_archive fs (set_stops self cached_stops)
              | Unpicklable => parse_archive fs self
              end
          else parse_archive fs self
      end
  | None => parse_archive fs self
  end.
End Parser.

Arguments Unpicklable {float}.
Arguments Read_parsed {float}.
Arguments Read_archive {float}.
Arguments Write_parsed_failed {float}.
Arguments archive_file {float} f.
Arguments parsed_file {float} f.
Arguments parsed_writable {float} f.
Arguments traced {float A} ev m.
Arguments agree_on_known_trips {float} filtered unfiltered.

(** ** An instance of the readers, to run the parser on examples

    Decimal integers with an optional minus sign; coordinates are written
    as such integers. *)

Definition digit_of (c : ascii) : option Z :=
  let n := Z.of_N (N_of_ascii c) in
  if (48 <=? n) && (n <=? 57) then Some (n - 48) else None.

Fixpoint digits_from (acc : Z) (s : string) : option Z :=
  match s with
  | EmptyString => Some acc
  | String c s' =>
      match digit_of c with
      | Some d => digits_from (10 * acc + d) s'
      | None => None
      end
  end.

Definition decimal_of_str (s : string) : option Z :=
  match s with
  | EmptyString => None
  | String "-" EmptyString => None
  | String "-" s' => option_map Z.opp (digits_from 0 s')
  | _ => digits_from 0 s
  end.

(** ** Complete rows

    A row with as many fields as the header has no [None] cell. *)

Definition complete_row (r : row) : bool :=
  forallb (fun field => negb (is_None (snd field))) r.

Definition complete_table (table : option (list row)) : bool :=
  match table with
  | Some rows => forallb complete_row rows
  | None => true
  end.

Definition complete_archive (zf : archive) : bool :=
  complete_table (stops_txt zf) && complete_table (routes_txt zf)
  && complete_table (trips_txt zf) && complete_table (shapes_txt zf)
  && complete_table (stop_times_txt zf).

(** The stop-times rows read from [data] have no [None] cell. *)
Definition stop_times_complete (data : zip_data) : bool :=
  match data with
  | BadZipFile => true
  | ZipFile zf | ZipFile_broken zf _ _ => complete_table (stop_times_txt zf)
  end.

(** No entry of [_trip_stops] has [None] for its stop id. *)
Definition named_stops {float : Type} (self : GtfsParser float) : Prop :=
  forall entry, In entry (_trip_stops self) ->
  forall p, In p (snd entry) -> is_None (snd p) = false.

(** ** Example feeds *)

Definition example_stops : list row :=
  [ [("stop_id", Some "A"); ("stop_lat", Some "1"); ("stop_lon", Some "2")];
    [("stop_id", Some "B"); ("stop_lat", Some "3"); ("stop_lon", Some "4")] ].

(** A trip that returns to its first stop. *)
Definition loop_feed : archive :=
  {| stops_txt := Some example_stops;
     routes_txt :=
       Some [ [("route_id", Some "R1"); ("route_short_name", Some "1");
               ("route_type", Some "900")] ];
     trips_txt := Some [ [("route_id", Some "R1"); ("trip_id", Some "T1")] ];
     shapes_txt := None;
     stop_times_txt :=
       Some [ [("trip_id", Some "T1"); ("stop_id", Some "A");
               ("stop_sequence", Some "1")];
              [("trip_id", Some "T1"); ("stop_id", Some "B");
               ("stop_sequence", Some "2")];
              [("trip_id", Some "T1"); ("stop_id", Some "A");
               ("stop_sequence", Some "3")] ] |}.

(** [routes.txt] with the header [route_id,route_type] and the line [R1]:
    the row is short, so its [route_type] is [None]. *)
Definition short_row_feed : archive :=
  {| stops_txt := None;
     routes_txt := Some [ [("route_id", Some "R1"); ("route_type", None)] ];
     trips_txt := None;
     shapes_txt := None;
     stop_times_txt := None |}.

(** [stop_times.txt] with the header [trip_id,stop_id,stop_sequence], two
    full lines of the trip [T1] of [trips.txt] and the short line [T1]. *)
Definition known_trip_feed : archive :=
  {| stops_txt := Some example_stops;
     routes_txt := None;
     trips_txt := Some [ [("route_id", Some "R1"); ("trip_id", Some "T1")] ];
     shapes_txt := None;
     stop_times_txt :=
       Some [ [("trip_id", Some "T1"); ("stop_id", Some "A");
               ("stop_sequence", Some "1")];
              [("trip_id", Some "T1"); ("stop_id", Some "B");
               ("stop_sequence", Some "2")];
              [("trip_id", Some "T1"); ("stop_id", None);
               ("stop_sequence", None)] ] |}.

(** What the reader of the specification leaves on [known_trip_feed]. *)
Definition known_trip_loaded : GtfsParser Z :=
  {| stops := [ (Some "A", Stop.mk Z (Some "A") (Some "") 1 2);
                (Some "B", Stop.mk Z (Some "B") (Some "") 3 4) ];
     routes := [ Route.mk Z (Some "R1") (Some "Unknown") 3
                   [Some "A"; Some "B"] [] ];
     _route_info := [];
     _trip_to_route := [ (Some "T1", Some "R1") ];
     _trip_to_shape := [];
     _trip_stops := [ (Some "T1", [ (1, Some "A"); (2, Some "B") ]) ];
     _shapes := [] |}.

(** A [routes.txt] row whose [route_type] is not a number. *)
Definition textual_type_row : row :=
  [("route_id", Some "R1"); ("route_type", Some "x")].

(** Shape rows arriving as 3, 1, 2. *)
Definition unordered_shape_rows : list row :=
  [ [("shape_id", Some "S"); ("shape_pt_sequence", Some "3");
     ("shape_pt_lat", Some "10"); ("shape_pt_lon", Some "10")];
    [("shape_id", Some "S"); ("shape_pt_sequence", Some "1");
     ("shape_pt_lat", Some "0"); ("shape_pt_lon", Some "0")];
    [("shape_id", Some "S"); ("shape_pt_sequence", Some "2");
     ("shape_pt_lat", Some "5"); ("shape_pt_lon", Some "5")] ].

(** The parser after the tables of [loop_feed], before [_build_routes], and
    the route built from it. *)
Definition loop_state : GtfsParser Z :=
  {| stops := [ (Some "A", Stop.mk Z (Some "A") (Some "") 1 2);
                (Some "B", Stop.mk Z (Some "B") (Some "") 3 4) ];
     routes := [];
     _route_info := [ (Some "R1", (Some "1", 900)) ];
     _trip_to_route := [ (Some "T1", Some "R1") ];
     _trip_to_shape := [];
     _trip_stops :=
       [ (Some "T1", [ (1, Some "A"); (2, Some "B"); (3, Some "A") ]) ];
     _shapes := [] |}.

Definition loop_route : Route.t Z :=
  Route.mk Z (Some "R1") (Some "1") 0 [Some "A"; Some "B"; Some "A"] [].

(** Two trips of one route, the second one longer; and a route whose only
    trip has a single stop. *)
Definition two_trip_state : GtfsParser Z :=
  {| stops := [ (Some "A", Stop.mk Z (Some "A") (Some "") 1 2);
                (Some "B", Stop.mk Z (Some "B") (Some "") 3 4) ];
     routes := [];
     _route_info := [];
     _trip_to_route :=
       [ (Some "T1", Some "R1"); (Some "T2", Some "R1"); (Some "T3", Some "R2") ];
     _trip_to_shape := [];
     _trip_stops :=
       [ (Some "T1", [ (1, Some "A") ]);
         (Some "T2", [ (2, Some "B"); (1, Some "A") ]);
         (Some "T3", [ (1, Some "B") ]) ];
     _shapes := [] |}.

Definition two_trip_grouping : odict cell trip_data_t :=
  [ (Some "R1", [ ([Some "A"], Some ""); ([Some "A"; Some "B"], Some "") ]);
    (Some "R2", [ ([Some "B"], Some "") ]) ].

(** A routes table with a numeric, an absent and a textual [route_type]. *)
Definition numeric_type_row : row :=
  [("route_id", Some "R2"); ("route_long_name", Some "Long");
   ("route_type", Some "700")].

Definition untyped_row : row :=
  [("route_id", Some "R3"); ("route_short_name", Some "3")].

(** An archive last written at time 5, whose bytes are those of
    [loop_feed], next to a [.parsed] file. *)
Definition example_fs (cache : option (Q * pickle Z)) : filesystem Z :=
  {| archive_file := Some (5%Q, Some (ZipFile loop_feed));
     parsed_file := cache;
     parsed_writable := true |}.

Arguments Write_parsed {float} saved_stops saved_routes.

(** ** More of the parser: what a stop-times row contributes *)

(** The entries a row adds to the trip [trip_id]: what the loop body
    appends when it runs on a parser with the trips of [self] and no
    entries yet. *)
Definition stop_time_row_entries {float : Type}
    (int_of_str : string -> option Z) (self : GtfsParser float) (r : row)
    (trip_id : cell) : list (Z * cell) :=
  match _parse_stop_times_row float int_of_str r (set_trip_stops self []) with
  | Ok s => OrderedDict.get_default cell_eqb trip_id [] (_trip_stops s)
  | Raise _ => []
  end.

(** The stops table files every stop under its own id, once. *)
Definition stops_consistent {float : Type} (self : GtfsParser float) : Prop :=
  NoDup (OrderedDict.keys (stops self))
  /\ forall k stop, In (k, stop) (stops self) -> Stop.id stop = k.

(** The trip tables agree: a trip with a shape is a trip with a route, and
    a recorded shape id is a non-empty string. *)
Definition trips_consistent {float : Type} (self : GtfsParser float) : Prop :=
  forall trip_id shape_id,
    In (trip_id, shape_id) (_trip_to_shape self) ->
    OrderedDict.mem cell_eqb trip_id (_trip_to_route self) = true
    /\ truthy shape_id = true.

(** ** [load_from_url] *)

Section LoadFromUrl.
Variable float : Type.
Variable float_of_str : string -> option float.
Variable int_of_str : string -> option Z.
(** [(time.time() - st_mtime) / 86400], as floating point computes it from
    the current time and the last-write time. *)
Variable cache_age_days : Q -> Q -> Q.

(** What [load_from_url] meets: whether [CACHE_DIR.mkdir(exist_ok=True)]
    succeeds, the clock, the file at [cache_path] with its [.parsed]
    sibling, the answer of [requests.get] ([None] when it or
    [raise_for_status] raises [RequestException], else the archive the
    content opens as), and whether [cache_path.write_bytes] succeeds. *)
Record url_env : Type := mkUrlEnv
  { cache_dir_ok : bool;
    time_time : Q;
    cache_files : filesystem float;
    response : option zip_data;
    cache_writable : bool }.

Inductive url_io : Type :=
| Download
| Write_cache
| Write_cache_failed
| File_io (ev : io float).

(** From [# Download] to the end. *)
Definition download (env : url_env) (self : GtfsParser float)
  : list url_io * result (GtfsParser float * bool) :=
  match response env with
  | None => ([Download], Ok (self, false))
  | Some content =>
      ([Download; if cache_writable env then Write_cache else Write_cache_failed],
       _parse_zip float float_of_str int_of_str content self)
  end.

Definition load_from_url (env : url_env) (self : GtfsParser float)
    (force_download : bool) (cache_days : Z)
  : list url_io * result (GtfsParser float * bool) :=
  if negb (cache_dir_ok env) then ([], Raise OSError)
  else
    match (if negb force_download then archive_file (cache_files env)
           else None) with
    | Some (mtime, _) =>
        if negb (Qle_bool (inject_Z cache_days)
                  (cache_age_days (time_time env) mtime))
        then
          let loaded :=
            load_from_file float float_of_str int_of_str (cache_files env) self in
          (map File_io (fst loaded), snd loaded)
        else download env self
    | None => download env self
    end.
End LoadFromUrl.

Arguments cache_dir_ok {float} u.
Arguments time_time {float} u.
Arguments cache_files {float} u.
Arguments response {float} u.
Arguments cache_writable {float} u.
Arguments Download {float}.
Arguments Write_cache {float}.
Arguments Write_cache_failed {float}.
Arguments File_io {float} ev.

(** ** [parser_to_geojson] ([build.py]) *)

Definition ROUTE_COLORS : odict Z string :=
  [ (0, "#E31A1C"); (1, "#1F78B4"); (2, "#33A02C"); (3, "#FF7F00");
    (4, "#6A3D9A") ].

Definition ROUTE_TYPE_NAMES : odict Z string :=
  [ (0, "Tram"); (1, "Metro"); (2, "Rail"); (3, "Bus"); (4, "Ferry") ].

(** A [set] of route types: a list without repetition.  The order in
    which Python iterates over a set is not the order of insertion, so only
    the members and their number mean something. *)
Definition set_add (x : Z) (s : list Z) : list Z :=
  if existsb (Z.eqb x) s then s else s ++ [x].

(** A tracking dictionary with distinct keys and sets without repetition. *)
Definition tracked_well (d : odict cell (list Z)) : Prop :=
  NoDup (OrderedDict.keys d)
  /\ forall s, NoDup (OrderedDict.get_default cell_eqb s [] d).

Section GeoJson.
Variable float : Type.

(** A feature of the collection; a [[lng, lat]] list is a pair. *)
Inductive feature : Type :=
| LineString (coordinates : list (float * float)) (id name : cell)
             (route_type : Z) (route_type_name color : string)
| Point (coordinates : float * float) (id name : cell)
        (route_types : list Z) (is_transfer : bool).

(** The coordinates of a route: its shape if it has one, else its stops. *)
Definition route_coords (parser : GtfsParser float) (route : Route.t float)
  : list (float * float) :=
  match Route.shape_coords route with
  | _ :: _ => map (fun p => (snd p, fst p)) (Route.shape_coords route)
  | [] =>
      flat_map
        (fun stop_id =>
           match OrderedDict.get cell_eqb stop_id (stops parser) with
           | Some stop => [(Stop.lng stop, Stop.lat stop)]
           | None => []
           end)
        (Route.stop_ids route)
  end.

(** [stops_by_route_type[stop_id].add(route_type)], creating the set. *)
Definition track_stop (route_type : Z) (by_type : odict cell (list Z))
    (stop_id : cell) : odict cell (list Z) :=
  OrderedDict.set cell_eqb stop_id
    (set_add route_type (OrderedDict.get_default cell_eqb stop_id [] by_type))
    by_type.

Definition line_feature (parser : GtfsParser float) (route : Route.t float)
  : feature :=
  LineString (route_coords parser route) (Route.id route) (Route.name route)
    (Route.route_type route)
    (OrderedDict.get_default Z.eqb (Route.route_type route) "Other"
       ROUTE_TYPE_NAMES)
    (OrderedDict.get_default Z.eqb (Route.route_type route) "#999999"
       ROUTE_COLORS).

(** The body of the loop over [parser.routes]. *)
Definition add_route (parser : GtfsParser float)
    (acc : list feature * odict cell (list Z)) (route : Route.t float)
  : list feature * odict cell (list Z) :=
  if (List.length (route_coords parser route) <? 2)%nat then acc
  else
    (fst acc ++ [line_feature parser route],
     fold_left (track_stop (Route.route_type route)) (Route.stop_ids route)
       (snd acc)).

(** The body of the loop over [stops_by_route_type.items()]. *)
Definition stop_feature (parser : GtfsParser float)
    (entry : cell * list Z) : list feature :=
  match OrderedDict.get cell_eqb (fst entry) (stops parser) with
  | Some stop =>
      [Point (Stop.lng stop, Stop.lat stop) (fst entry) (Stop.name stop)
         (snd entry) (1 <? List.length (snd entry))%nat]
  | None => []
  end.

(** The ['features'] of the collection [parser_to_geojson] returns. *)
Definition parser_to_geojson (parser : GtfsParser float) : list feature :=
  let acc := fold_left (add_route parser) (routes parser) ([], []) in
  fst acc ++ flat_map (stop_feature parser) (snd acc).
End GeoJson.

Arguments LineString {float} coordinates id name route_type route_type_name color.
Arguments Point {float} coordinates id name route_types is_transfer.

(** ** More example data *)

(** The parsers [_build_routes] leaves from [loop_state] and from
    [two_trip_state]. *)
Definition loop_built : GtfsParser Z := set_routes loop_state [loop_route].

Definition two_trip_built : GtfsParser Z :=
  set_routes two_trip_state
    [Route.mk Z (Some "R1") (Some "Unknown") 3 [Some "A"; Some "B"] []].

(** The stop-times rows of [loop_feed], and a stops row whose latitude is
    not a number. *)
Definition loop_stop_times : list row :=
  [ [("trip_id", Some "T1"); ("stop_id", Some "A"); ("stop_sequence", Some "1")];
    [("trip_id", Some "T1"); ("stop_id", Some "B"); ("stop_sequence", Some "2")];
    [("trip_id", Some "T1"); ("stop_id", Some "A"); ("stop_sequence", Some "3")] ].

Definition textual_lat_row : row :=
  [("stop_id", Some "C"); ("stop_lat", Some "north"); ("stop_lon", Some "4")].

(** The age of a file in days, on exact numbers. *)
Definition example_age (time mtime : Q) : Q := (time - mtime) / 86400.

(** A cache directory at time 864000 (day 10) holding an archive last
    written at [mtime], with the network answering [answer]. *)
Definition example_env (mtime : Q) (answer : option zip_data) : url_env Z :=
  {| cache_dir_ok := true;
     time_time := 864000%Q;
     cache_files :=
       {| archive_file := Some (mtime, Some (ZipFile loop_feed));
          parsed_file := None;
          parsed_writable := true |};
     response := answer;
     cache_writable := false |}.

(** * Properties *)

(** ** Cells and dictionaries *)

Lemma cell_eqb_spec (a b : cell) : reflect (a = b) (cell_eqb a b).
Proof.
  destruct a as [x|], b as [y|]; simpl; try (constructor; congruence).
  destruct (String.eqb_spec x y); constructor; congruence.
Qed.

Lemma cell_eqb_refl (a : cell) : cell_eqb a a = true.
Proof. destruct (cell_eqb_spec a a); congruence. Qed.

Lemma cell_eqb_eq (a b : cell) : cell_eqb a b = true <-> a = b.
Proof. destruct (cell_eqb_spec a b); split; congruence. Qed.

Lemma cell_eqb_neq (a b : cell) : cell_eqb a b = false <-> a <> b.
Proof. destruct (cell_eqb_spec a b); split; congruence. Qed.

Lemma cell_eqb_sym (a b : cell) : cell_eqb a b = cell_eqb b a.
Proof. destruct (cell_eqb_spec a b), (cell_eqb_spec b a); congruence. Qed.

Module DictFacts.
Import OrderedDict.
Section Facts.
Context {K V : Type} (eqb : K -> K -> bool).
Hypothesis eqb_spec : forall a b, reflect (a = b) (eqb a b).

Lemma eqb_same (k : K) : eqb k k = true.
Proof. destruct (eqb_spec k k); congruence. Qed.

Lemma eqb_diff (k k' : K) : k <> k' -> eqb k k' = false.
Proof. destruct (eqb_spec k k'); congruence. Qed.

Lemma get_set_same (k : K) (v : V) d : get eqb k (set eqb k v d) = Some v.
Proof.
  induction d as [|[k' v'] d IH]; simpl.
  - now rewrite eqb_same.
  - destruct (eqb k k') eqn:E; simpl.
    + now rewrite eqb_same.
    + now rewrite E.
Qed.

Lemma get_set_other (k k' : K) (v : V) d :
  k <> k' -> get eqb k' (set eqb k v d) = get eqb k' d.
Proof.
  intros Hne. induction d as [|[k0 v0] d IH]; simpl.
  - rewrite eqb_diff; auto.
  - destruct (eqb_spec k k0) as [->|Hk]; simpl.
    + rewrite eqb_diff; auto.
    + now rewrite IH.
Qed.

Lemma get_In (k : K) (v : V) d : get eqb k d = Some v -> In (k, v) d.
Proof.
  induction d as [|[k' v'] d IH]; simpl; [discriminate|].
  destruct (eqb_spec k k') as [->|Hk].
  - intros [= ->]. now left.
  - intros H. right. auto.
Qed.

Lemma get_None_keys (k : K) (d : list (K * V)) :
  get eqb k d = None <-> ~ In k (keys d).
Proof.
  induction d as [|[k' v'] d IH]; simpl.
  - tauto.
  - destruct (eqb_spec k k') as [->|Hk].
    + split; [discriminate | intros H; exfalso; apply H; now left].
    + rewrite IH. split; intros H; [intros [E|E]; congruence || auto | tauto].
Qed.

Lemma In_get (k : K) (v : V) d :
  NoDup (keys d) -> In (k, v) d -> get eqb k d = Some v.
Proof.
  induction d as [|[k' v'] d IH]; simpl; [tauto|].
  intros Hnd [E|Hin].
  - injection E as -> ->. now rewrite eqb_same.
  - inversion Hnd as [|? ? Hnotin Hnd']; subst.
    destruct (eqb_spec k k') as [->|Hk].
    + exfalso. apply Hnotin. change k' with (fst (k', v)).
      now apply in_map.
    + auto.
Qed.

Lemma In_set (k : K) (v : V) (d : list (K * V)) (e : K * V) :
  In e (set eqb k v d) -> e = (k, v) \/ In e d.
Proof.
  induction d as [|[k' v'] d IH]; simpl.
  - intros [<-|[]]. now left.
  - destruct (eqb k k'); simpl; intros [<-|H]; auto.
    destruct (IH H); auto.
Qed.

Lemma keys_set (k : K) (v : V) d :
  keys (set eqb k v d) = if mem eqb k d then keys d else keys d ++ [k].
Proof.
  unfold mem. induction d as [|[k' v'] d IH]; simpl; [reflexivity|].
  destruct (eqb_spec k k') as [->|Hk]; simpl; [reflexivity|].
  rewrite IH. now destruct (get eqb k d).
Qed.

Lemma NoDup_keys_set (k : K) (v : V) d :
  NoDup (keys d) -> NoDup (keys (set eqb k v d)).
Proof.
  intros Hnd. rewrite keys_set. unfold mem.
  destruct (get eqb k d) eqn:E; [assumption|].
  apply get_None_keys in E.
  apply NoDup_app_remove_l with (l := @nil K) || idtac.
  induction (keys d) as [|a l IH]; simpl.
  - constructor; [tauto | constructor].
  - inversion Hnd; subst. constructor.
    + rewrite in_app_iff. simpl. intros [H|[H|[]]]; [tauto|].
      apply E. left. congruence.
    + apply IH; auto. intros H. apply E. now right.
Qed.

Lemma get_restrict (p : K -> bool) (k : K) (d : list (K * V)) :
  p k = true -> get eqb k (restrict p d) = get eqb k d.
Proof.
  intros Hp. induction d as [|[k' v'] d IH]; simpl; [reflexivity|].
  destruct (p k') eqn:Hk'; simpl.
  - now rewrite IH.
  - destruct (eqb_spec k k') as [->|]; [congruence | exact IH].
Qed.

Lemma restrict_set_kept (p : K -> bool) (k : K) (v : V) (d : list (K * V)) :
  p k = true -> restrict p (set eqb k v d) = set eqb k v (restrict p d).
Proof.
  intros Hp. induction d as [|[k' v'] d IH]; simpl.
  - now rewrite Hp.
  - destruct (eqb_spec k k') as [->|Hne]; simpl.
    + rewrite Hp. simpl. now rewrite eqb_same.
    + destruct (p k'); simpl; [|exact IH].
      rewrite eqb_diff by assumption. now rewrite IH.
Qed.

Lemma restrict_set_dropped (p : K -> bool) (k : K) (v : V)
    (d : list (K * V)) :
  p k = false -> restrict p (set eqb k v d) = restrict p d.
Proof.
  intros Hp. induction d as [|[k' v'] d IH]; simpl.
  - now rewrite Hp.
  - destruct (eqb_spec k k') as [->|Hne]; simpl.
    + now rewrite Hp.
    + now rewrite IH.
Qed.
End Facts.

Section AppendFacts.
Context {K X : Type} (eqb : K -> K -> bool).
Hypothesis eqb_spec : forall a b, reflect (a = b) (eqb a b).

Lemma get_append_item_same (k : K) (x : X) (d : list (K * list X)) :
  get eqb k (append_item eqb k x d) = Some (get_default eqb k [] d ++ [x]).
Proof. unfold append_item. now apply get_set_same. Qed.

Lemma get_append_item_other (k k' : K) (x : X) (d : list (K * list X)) :
  k <> k' -> get eqb k' (append_item eqb k x d) = get eqb k' d.
Proof. unfold append_item. now apply get_set_other. Qed.

Lemma get_default_append_item (k k' : K) (x : X) (d : list (K * list X)) :
  get_default eqb k' [] (append_item eqb k x d)
  = get_default eqb k' [] d ++ (if eqb k' k then [x] else []).
Proof.
  unfold get_default at 1. destruct (eqb_spec k' k) as [->|Hne].
  - now rewrite get_append_item_same.
  - rewrite get_append_item_other by congruence.
    rewrite app_nil_r. reflexivity.
Qed.

Lemma NoDup_keys_append_item (k : K) (x : X) (d : list (K * list X)) :
  NoDup (keys d) -> NoDup (keys (append_item eqb k x d)).
Proof. unfold append_item. now apply NoDup_keys_set. Qed.

Lemma restrict_append_item_kept (p : K -> bool) (k : K) (x : X)
    (d : list (K * list X)) :
  p k = true ->
  restrict p (append_item eqb k x d) = append_item eqb k x (restrict p d).
Proof.
  intros Hp. unfold append_item, get_default.
  rewrite restrict_set_kept by assumption.
  now rewrite get_restrict.
Qed.

Lemma restrict_append_item_dropped (p : K -> bool) (k : K) (x : X)
    (d : list (K * list X)) :
  p k = false -> restrict p (append_item eqb k x d) = restrict p d.
Proof. intros Hp. unfold append_item. now apply restrict_set_dropped. Qed.
End AppendFacts.
End DictFacts.

(** ** The route-type normaliser *)

Lemma normalize_route_type_table :
  map normalize_route_type [100; 101; 102; 103; 106; 109] = [2; 2; 2; 2; 2; 2]
  /\ map normalize_route_type [400; 401] = [1; 1]
  /\ map normalize_route_type [700; 702; 704] = [3; 3; 3]
  /\ normalize_route_type 900 = 0
  /\ normalize_route_type 1000 = 4.
Proof. repeat split. Qed.

(** The table holds 13 keys; outside them the default of [get] applies. *)
Lemma normalize_route_type_cases (x : Z) :
  In x (OrderedDict.keys type_mapping)
  \/ normalize_route_type x = (if x <=? 7 then x else 3).
Proof.
  unfold normalize_route_type, OrderedDict.get_default, type_mapping.
  cbn [OrderedDict.get OrderedDict.keys map fst].
  repeat match goal with
         | |- context [Z.eqb x ?c] =>
             destruct (Z.eqb_spec x c);
             [subst x; left; cbn; repeat (first [left; reflexivity | right]) |]
         end.
  now right.
Qed.

Lemma normalize_route_type_basic (x : Z) :
  0 <= x <= 7 -> normalize_route_type x = x.
Proof.
  intros Hx. destruct (normalize_route_type_cases x) as [Hin| ->].
  - cbn in Hin. lia.
  - destruct (Z.leb_spec x 7); lia.
Qed.

Lemma normalize_route_type_range (x : Z) :
  0 <= x -> 0 <= normalize_route_type x <= 7.
Proof.
  intros Hx. destruct (normalize_route_type_cases x) as [Hin| ->].
  - cbn in Hin.
    repeat (destruct Hin as [<-|Hin]; [cbv; split; discriminate|]).
    contradiction.
  - destruct (Z.leb_spec x 7); lia.
Qed.

Lemma normalize_route_type_unrecognized (x : Z) :
  7 < x -> ~ In x (OrderedDict.keys type_mapping) ->
  normalize_route_type x = 3.
Proof.
  intros Hx Hnot. destruct (normalize_route_type_cases x) as [Hin| ->].
  - contradiction.
  - destruct (Z.leb_spec x 7); lia.
Qed.

Lemma normalize_route_type_idempotent (x : Z) :
  normalize_route_type (normalize_route_type x) = normalize_route_type x.
Proof.
  destruct (normalize_route_type_cases x) as [Hin|E].
  - cbn in Hin.
    repeat (destruct Hin as [<-|Hin]; [reflexivity|]).
    contradiction.
  - rewrite E. destruct (Z.leb_spec x 7) as [Hle|Hgt]; [|reflexivity].
    destruct (normalize_route_type_cases x) as [Hin|E'].
    + cbn in Hin. lia.
    + rewrite E'. destruct (Z.leb_spec x 7); [reflexivity | lia].
Qed.

(** C1.  The claim asks a result in 0..7 for every integer and the default 3
    for every unrecognised code.  A negative code is not in the table and
    passes the test [route_type <= 7], so it is returned as it is:
    [normalize_route_type(-1)] is [-1], neither in 0..7 nor 3. *)
Theorem normalize_route_type_negative :
  normalize_route_type (-1) = -1
  /\ ~ In (-1) (OrderedDict.keys type_mapping)
  /\ ~ (0 <= normalize_route_type (-1) <= 7)
  /\ normalize_route_type (-1) <> 3.
Proof.
  repeat split.
  - cbn. intros H. repeat (destruct H as [H|H]; [discriminate|]). exact H.
  - cbv. intros [H _]. now apply H.
  - discriminate.
Qed.

(** ** The stable sort *)

Section SortFacts.
Context {A : Type} (leb : A -> A -> bool).

Lemma insert_sorted_Permutation (x : A) (l : list A) :
  Permutation (x :: l) (insert_sorted leb x l).
Proof.
  induction l as [|y l IH]; simpl.
  - apply Permutation_refl.
  - destruct (leb x y).
    + apply Permutation_refl.
    + eapply perm_trans; [apply perm_swap|]. now apply perm_skip.
Qed.

Lemma stable_sort_Permutation (l : list A) :
  Permutation l (stable_sort leb l).
Proof.
  induction l as [|x l IH]; simpl.
  - constructor.
  - eapply perm_trans; [|apply insert_sorted_Permutation].
    now apply perm_skip.
Qed.

Lemma stable_sort_In (l : list A) (a : A) :
  In a (stable_sort leb l) <-> In a l.
Proof.
  split; apply Permutation_in;
    [apply Permutation_sym|]; apply stable_sort_Permutation.
Qed.

Lemma stable_sort_length (l : list A) :
  List.length (stable_sort leb l) = List.length l.
Proof. symmetry. apply Permutation_length, stable_sort_Permutation. Qed.

Hypothesis leb_trans :
  forall a b c, leb a b = true -> leb b c = true -> leb a c = true.

Lemma insert_sorted_StronglySorted (x : A) (l : list A) :
  (forall y, In y l -> leb x y = true \/ leb y x = true) ->
  StronglySorted (fun a b => leb a b = true) l ->
  StronglySorted (fun a b => leb a b = true) (insert_sorted leb x l).
Proof.
  intros Htot Hs. induction Hs as [|y l Hs IH Hall]; simpl.
  - repeat constructor.
  - destruct (leb x y) eqn:Hxy.
    + constructor; [now constructor|].
      constructor; [assumption|].
      rewrite Forall_forall in *. intros z Hz.
      apply leb_trans with y; auto.
    + assert (Hyx : leb y x = true).
      { destruct (Htot y (or_introl eq_refl)); congruence. }
      constructor.
      * apply IH. intros z Hz. apply Htot. now right.
      * rewrite Forall_forall in *. intros z Hz.
        apply (Permutation_in z
                 (Permutation_sym (insert_sorted_Permutation x l))) in Hz.
        destruct Hz as [<-|Hz]; auto.
Qed.

Lemma stable_sort_StronglySorted (l : list A) :
  (forall a b, In a l -> In b l -> leb a b = true \/ leb b a = true) ->
  StronglySorted (fun a b => leb a b = true) (stable_sort leb l).
Proof.
  induction l as [|x l IH]; intros Htot; simpl.
  - constructor.
  - apply insert_sorted_StronglySorted.
    + intros y Hy. apply (proj1 (stable_sort_In _ _)) in Hy.
      apply Htot; [now left | now right].
    + apply IH. intros a b Ha Hb. apply Htot; now right.
Qed.

(** Stability: elements that tie with each other keep their input order. *)
Lemma insert_sorted_filter (q : A -> bool) (x : A) (l : list A) :
  (forall a b, q a = true -> q b = true -> leb a b = true) ->
  filter q (insert_sorted leb x l) = filter q (x :: l).
Proof.
  intros Hq. induction l as [|y l IH]; [reflexivity|].
  cbn [insert_sorted]. destruct (leb x y) eqn:Hxy; [reflexivity|].
  cbn [filter] in *. rewrite IH.
  destruct (q x) eqn:Hx, (q y) eqn:Hy; try reflexivity.
  rewrite (Hq x y Hx Hy) in Hxy. discriminate.
Qed.

Lemma stable_sort_filter (q : A -> bool) (l : list A) :
  (forall a b, q a = true -> q b = true -> leb a b = true) ->
  filter q (stable_sort leb l) = filter q l.
Proof.
  intros Hq. induction l as [|x l IH]; [reflexivity|].
  cbn [stable_sort]. rewrite insert_sorted_filter by assumption.
  cbn [filter]. now rewrite IH.
Qed.
End SortFacts.

Section SortedByKey.
Context {A : Type} (key : A -> Z).

Lemma sorted_by_key_Permutation (l : list A) :
  Permutation l (sorted_by_key key l).
Proof. apply stable_sort_Permutation. Qed.

Lemma sorted_by_key_ascending (l : list A) :
  StronglySorted (fun a b => key a <= key b) (sorted_by_key key l).
Proof.
  assert (H : StronglySorted (fun a b => (key a <=? key b) = true)
                (sorted_by_key key l)).
  { apply stable_sort_StronglySorted.
    - intros a b c Hab Hbc. apply Z.leb_le in Hab, Hbc. apply Z.leb_le. lia.
    - intros a b _ _. rewrite !Z.leb_le. lia. }
  induction H; constructor; auto.
  eapply Forall_impl; [|eassumption].
  intros b Hb. now apply Z.leb_le.
Qed.

Lemma sorted_by_key_stable (seq : Z) (l : list A) :
  filter (fun a => key a =? seq) (sorted_by_key key l)
  = filter (fun a => key a =? seq) l.
Proof.
  apply stable_sort_filter with (q := fun a => key a =? seq).
  intros a b Ha Hb. apply Z.eqb_eq in Ha, Hb. apply Z.leb_le. lia.
Qed.
End SortedByKey.

(** ** Tactics for the loop bodies *)

Ltac break_match :=
  match goal with
  | |- context [match ?x with _ => _ end] =>
      lazymatch x with
      | context [match _ with _ => _ end] => fail
      | _ => destruct x eqn:?
      end
  | H : context [match ?x with _ => _ end] |- _ =>
      lazymatch x with
      | context [match _ with _ => _ end] => fail
      | _ => destruct x eqn:?
      end
  end.

(** Case analysis on a dictionary lookup of the goal, as the goal writes it. *)
Ltac destruct_get G :=
  match goal with
  | |- context [@OrderedDict.get ?K ?V ?e ?k ?d] =>
      destruct (@OrderedDict.get K V e k d) eqn:G
  end.

Ltac run_body :=
  unfold except_Key_Value, except_Key, bind, row_item, py_int, py_float in *;
  repeat (break_match; try discriminate; try congruence).

(** ** Loops *)

Section LoopFacts.
Context {S X : Type} (body : X -> S -> result S).

Lemma for_each_app (xs ys : list X) (s : S) :
  for_each body (xs ++ ys) s = (s' <- for_each body xs s ;; for_each body ys s').
Proof.
  revert s. induction xs as [|x xs IH]; intros s; simpl; [reflexivity|].
  destruct (body x s); simpl; auto.
Qed.

(** An invariant of the body holds after the loop. *)
Lemma for_each_invariant (P : S -> Prop) (xs : list X) :
  (forall x s s', In x xs -> P s -> body x s = Ok s' -> P s') ->
  forall s s', P s -> for_each body xs s = Ok s' -> P s'.
Proof.
  induction xs as [|x xs IH]; intros Hstep s s' Hs; simpl.
  - now intros [= <-].
  - destruct (body x s) as [s1|e] eqn:E; simpl; [|discriminate].
    apply IH.
    + intros y t t' Hy. apply Hstep. now right.
    + eapply Hstep; eauto. now left.
Qed.

(** A body that never raises gives a loop that never raises. *)
Lemma for_each_total (P : S -> Prop) (xs : list X) :
  (forall x s, In x xs -> P s -> exists s', body x s = Ok s' /\ P s') ->
  forall s, P s -> exists s', for_each body xs s = Ok s' /\ P s'.
Proof.
  induction xs as [|x xs IH]; intros Hstep s Hs; simpl.
  - eauto.
  - destruct (Hstep x s (or_introl eq_refl) Hs) as (s1 & -> & Hs1). simpl.
    apply IH; auto. intros y t Hy. apply Hstep. now right.
Qed.
End LoopFacts.

(** ** Shapes *)

Section ShapesFacts.
Variable float : Type.
Variable float_of_str : string -> option float.
Variable int_of_str : string -> option Z.

Local Abbreviation parse_row := (_parse_shapes_row float float_of_str int_of_str).
Local Abbreviation row_points := (shape_row_points float float_of_str int_of_str).

(** A row is skipped or appends one point to one shape. *)
Lemma parse_shapes_row_cases (r : row) (d d' : shape_points_t float) :
  parse_row r d = Ok d' ->
  (d' = d /\ forall sid, row_points r sid = [])
  \/ (exists sid p, d' = OrderedDict.append_item cell_eqb sid p d
        /\ forall sid', row_points r sid' = if cell_eqb sid' sid then [p] else []).
Proof.
  unfold shape_row_points, _parse_shapes_row. intros H.
  run_body; injection H as <-; auto.
  right. eexists _, _. split; [reflexivity|].
  intros sid'. cbn. unfold OrderedDict.get_default. cbn.
  now destruct (cell_eqb sid' _).
Qed.

Lemma parse_shapes_rows_accumulate (rows : list row) :
  forall d d' : shape_points_t float,
  for_each parse_row rows d = Ok d' ->
  (NoDup (OrderedDict.keys d) -> NoDup (OrderedDict.keys d'))
  /\ forall sid,
      OrderedDict.get_default cell_eqb sid [] d'
      = OrderedDict.get_default cell_eqb sid [] d
        ++ flat_map (fun r => row_points r sid) rows.
Proof.
  induction rows as [|r rows IH]; intros d d'; simpl.
  - intros [= <-]. split; [auto|]. intros sid. now rewrite app_nil_r.
  - destruct (parse_row r d) as [d1|e] eqn:E; simpl; [|discriminate].
    intros H. destruct (IH _ _ H) as [Hnd Hget]. clear IH H.
    apply parse_shapes_row_cases in E.
    destruct E as [[-> Hnone]|(sid0 & p & -> & Hone)].
    + split; [assumption|]. intros sid. now rewrite Hget, Hnone.
    + split.
      * intros Hd. apply Hnd.
        apply DictFacts.NoDup_keys_append_item; [exact cell_eqb_spec | assumption].
      * intros sid. rewrite Hget, Hone.
        rewrite (DictFacts.get_default_append_item cell_eqb cell_eqb_spec).
        now rewrite <- app_assoc.
Qed.

Lemma store_shapes_untouched (sp : shape_points_t float) :
  forall shapes sid,
  ~ In sid (OrderedDict.keys sp) ->
  OrderedDict.get cell_eqb sid (fold_left (store_shape float) sp shapes)
  = OrderedDict.get cell_eqb sid shapes.
Proof.
  induction sp as [|[k v] sp IH]; intros shapes sid Hnot; simpl; [reflexivity|].
  rewrite IH by (intros H; apply Hnot; now right).
  unfold store_shape. simpl.
  apply DictFacts.get_set_other; [exact cell_eqb_spec|].
  intros ->. apply Hnot. now left.
Qed.

Lemma store_shapes_get (sp : shape_points_t float) :
  forall shapes sid points,
  NoDup (OrderedDict.keys sp) ->
  OrderedDict.get cell_eqb sid sp = Some points ->
  OrderedDict.get cell_eqb sid (fold_left (store_shape float) sp shapes)
  = Some (shape_coords_of float points).
Proof.
  induction sp as [|[k v] sp IH]; intros shapes sid points Hnd; simpl;
    [discriminate|].
  inversion Hnd as [|? ? Hnotin Hnd']; subst.
  destruct (cell_eqb_spec sid k) as [->|Hne].
  - intros [= ->]. rewrite store_shapes_untouched by assumption.
    unfold store_shape. simpl.
    apply DictFacts.get_set_same. exact cell_eqb_spec.
  - intros H. now apply IH.
Qed.

(** C7.  For every shape id, the list [_parse_shapes] stores is the list of
    the points its rows contributed, taken in input order and sorted by
    sequence number: the same points (a permutation), in ascending sequence,
    and points of equal sequence in their input order.  Rows 3, 1, 2 with
    coordinates (10,10), (0,0), (5,5) give (0,0), (5,5), (10,10). *)
Theorem shapes_sorted_by_sequence :
  (forall (rows : list row) (self self' : GtfsParser float) (shape_id : cell),
      _parse_shapes float float_of_str int_of_str rows self = Ok self' ->
      let points := flat_map (fun r => row_points r shape_id) rows in
      let sorted := sorted_by_key (fun x => fst (fst x)) points in
      points <> [] ->
      OrderedDict.get cell_eqb shape_id (_shapes self')
      = Some (map (fun p => (snd (fst p), snd p)) sorted)
      /\ Permutation points sorted
      /\ StronglySorted (fun a b => fst (fst a) <= fst (fst b)) sorted
      /\ forall seq,
          filter (fun p => fst (fst p) =? seq) sorted
          = filter (fun p => fst (fst p) =? seq) points)
  /\ (forall c10 c0 c5 : float,
         shape_coords_of float [(3, c10, c10); (1, c0, c0); (2, c5, c5)]
         = [(c0, c0); (c5, c5); (c10, c10)]).
Proof.
  split; [|reflexivity].
  intros rows self self' shape_id H points sorted Hne.
  unfold _parse_shapes in H.
  destruct (for_each parse_row rows []) as [sp|e] eqn:E; simpl in H;
    [|discriminate].
  injection H as <-. simpl.
  destruct (parse_shapes_rows_accumulate _ _ _ E) as [Hnd Hget].
  specialize (Hnd (NoDup_nil _)). specialize (Hget shape_id).
  cbn in Hget. fold points in Hget.
  repeat split.
  - apply store_shapes_get; [assumption|].
    unfold OrderedDict.get_default in Hget.
    destruct (OrderedDict.get cell_eqb shape_id sp); congruence.
  - apply sorted_by_key_Permutation.
  - apply sorted_by_key_ascending.
  - intros seq. apply sorted_by_key_stable.
Qed.
End ShapesFacts.

(** ** The order of [(sequence, stop id)] tuples *)

Lemma ascii_compare_Eq (a b : ascii) : Ascii.compare a b = Eq -> a = b.
Proof. apply Ascii.compare_eq_iff. Qed.







Lemma py_sorted_Ok (l sorted : list (Z * cell)) :
  py_sorted l = Ok sorted ->
  has_incomparable l = false /\ sorted = stable_sort tuple_leb l.
Proof.
  unfold py_sorted. destruct (has_incomparable l); [discriminate|].
  intros [= <-]. auto.
Qed.

(** Entries that all carry a stop id can be sorted. *)
Lemma named_stops_sortable (l : list (Z * cell)) :
  (forall p, In p l -> is_None (snd p) = false) -> has_incomparable l = false.
Proof.
  intros Hl. unfold has_incomparable.
  destruct (existsb _ l) eqn:E; [|reflexivity].
  apply existsb_exists in E. destruct E as (a & Ha & E).
  apply existsb_exists in E. destruct E as (b & Hb & E).
  unfold incomparable in E. rewrite (Hl a Ha), (Hl b Hb) in E.
  now rewrite andb_false_r in E.
Qed.

Lemma py_sorted_length (l sorted : list (Z * cell)) :
  py_sorted l = Ok sorted -> List.length sorted = List.length l.
Proof.
  intros H. apply py_sorted_Ok in H as [_ ->]. apply stable_sort_length.
Qed.




(** ** [max] *)

Section MaxFacts.
Context {A : Type} (key : A -> nat).



End MaxFacts.

(** ** The first loop of [_build_routes] *)

Section GroupFacts.
Variable float : Type.
Variable self : GtfsParser float.

Local Abbreviation filed_under route_id :=
  (fun entry : cell * list (Z * cell) =>
     truthy (route_of_trip float self (fst entry))
     && cell_eqb (route_of_trip float self (fst entry)) route_id).

(** What a trip contributes to its route's list. *)
Local Abbreviation trip_record :=
  (fun entry : cell * list (Z * cell) =>
     (map snd (stable_sort tuple_leb (snd entry)),
      OrderedDict.get_default cell_eqb (fst entry) (Some "")
        (_trip_to_shape self))).

Lemma group_trip_cases (entry : cell * list (Z * cell))
    (rt rt' : odict cell trip_data_t) :
  group_trip float self entry rt = Ok rt' ->
  (truthy (route_of_trip float self (fst entry)) = false /\ rt' = rt)
  \/ (truthy (route_of_trip float self (fst entry)) = true
      /\ has_incomparable (snd entry) = false
      /\ rt' = OrderedDict.append_item cell_eqb
                 (route_of_trip float self (fst entry)) (trip_record entry) rt).
Proof.
  unfold group_trip, route_of_trip.
  destruct (truthy _) eqn:T.
  - destruct (py_sorted (snd entry)) as [sorted|e] eqn:E; simpl; [|discriminate].
    apply py_sorted_Ok in E as [Hinc ->]. intros [= <-]. right. auto.
  - intros [= <-]. now left.
Qed.

Lemma group_trips_from (ts : list (cell * list (Z * cell))) :
  forall rt rt' : odict cell trip_data_t,
  for_each (group_trip float self) ts rt = Ok rt' ->
  (NoDup (OrderedDict.keys rt) -> NoDup (OrderedDict.keys rt'))
  /\ (forall entry, In entry ts ->
        truthy (route_of_trip float self (fst entry)) = true ->
        has_incomparable (snd entry) = false)
  /\ forall route_id,
      OrderedDict.get_default cell_eqb route_id [] rt'
      = OrderedDict.get_default cell_eqb route_id [] rt
        ++ map trip_record (filter (filed_under route_id) ts).
Proof.
  induction ts as [|entry ts IH]; intros rt rt'; simpl.
  - intros [= <-]. repeat split; auto; try tauto.
    intros route_id. now rewrite app_nil_r.
  - destruct (group_trip float self entry rt) as [rt1|e] eqn:E; simpl;
      [|discriminate].
    intros H. destruct (IH _ _ H) as (Hnd & Hinc & Hget). clear IH H.
    apply group_trip_cases in E.
    destruct E as [[T ->]|(T & Hent & ->)].
    + repeat split; auto.
      * intros e0 [<-|He0]; [congruence | auto].
      * intros route_id. rewrite Hget, T. reflexivity.
    + repeat split.
      * intros Hrt. apply Hnd.
        apply DictFacts.NoDup_keys_append_item; [exact cell_eqb_spec | assumption].
      * intros e0 [<-|He0]; auto.
      * intros route_id. rewrite Hget, T.
        rewrite (DictFacts.get_default_append_item cell_eqb cell_eqb_spec).
        rewrite <- app_assoc. f_equal. cbn [andb].
        rewrite (cell_eqb_sym route_id).
        now destruct (cell_eqb _ route_id).
Qed.

(** Every list of the grouping is non-empty. *)
Lemma group_trips_nonempty (ts : list (cell * list (Z * cell))) :
  forall rt rt' : odict cell trip_data_t,
  for_each (group_trip float self) ts rt = Ok rt' ->
  (forall e, In e rt -> snd e <> []) -> forall e, In e rt' -> snd e <> [].
Proof.
  intros rt rt' H Hrt.
  revert rt rt' Hrt H.
  apply (for_each_invariant (group_trip float self)
           (fun d : odict cell trip_data_t => forall e, In e d -> snd e <> [])).
  intros x d d' _ Hd Hstep.
  apply group_trip_cases in Hstep.
  destruct Hstep as [[_ ->]|(_ & _ & ->)]; [assumption|].
  intros e He. apply DictFacts.In_set in He. destruct He as [->|He]; [|auto].
  simpl. now destruct (OrderedDict.get_default _ _ _ _).
Qed.
End GroupFacts.


(** What the grouping holds for a route id. *)
Lemma group_trips_lookup (float : Type) (self : GtfsParser float)
    (route_trips : odict cell trip_data_t) :
  group_trips float self = Ok route_trips ->
  NoDup (OrderedDict.keys route_trips)
  /\ (forall trip, In trip (_trip_stops self) ->
        truthy (route_of_trip float self (fst trip)) = true ->
        py_sorted (snd trip) = Ok (stable_sort tuple_leb (snd trip)))
  /\ (forall route_id trip_data,
        In (route_id, trip_data) route_trips ->
        trip_data <> []
        /\ trip_data
           = map (fun trip =>
                    (map snd (stable_sort tuple_leb (snd trip)),
                     OrderedDict.get_default cell_eqb (fst trip) (Some "")
                       (_trip_to_shape self)))
                 (trips_of_route float self route_id))
  /\ (forall route_id,
        trips_of_route float self route_id <> [] ->
        exists trip_data, In (route_id, trip_data) route_trips).
Proof.
  unfold group_trips. intros H.
  destruct (group_trips_from float self _ _ _ H) as (Hnd & Hinc & Hget).
  specialize (Hnd (NoDup_nil _)).
  pose proof (group_trips_nonempty float self _ _ _ H) as Hne.
  assert (Hget' : forall route_id,
             OrderedDict.get_default cell_eqb route_id [] route_trips
             = map (fun trip =>
                      (map snd (stable_sort tuple_leb (snd trip)),
                       OrderedDict.get_default cell_eqb (fst trip) (Some "")
                         (_trip_to_shape self)))
                   (trips_of_route float self route_id)).
  { intros route_id. rewrite Hget. reflexivity. }
  clear Hget. unfold OrderedDict.get_default in Hget' at 1.
  split; [exact Hnd|]. split; [|split].
  - intros trip Hin T. unfold py_sorted. now rewrite (Hinc trip Hin T).
  - intros route_id trip_data Hin. split.
    + apply (Hne ltac:(simpl; tauto) (route_id, trip_data)). assumption.
    + specialize (Hget' route_id).
      apply (DictFacts.In_get cell_eqb cell_eqb_spec) in Hin; [|assumption].
      unfold odict, trip_data_t in *. rewrite Hin in Hget'. exact Hget'.
  - intros route_id Hcands. specialize (Hget' route_id).
    unfold odict, trip_data_t in *.
    destruct (OrderedDict.get cell_eqb route_id route_trips) as [td|] eqn:G.
    + exists td. now apply (DictFacts.get_In cell_eqb cell_eqb_spec).
    + exfalso. apply Hcands.
      symmetry in Hget'. now apply map_eq_nil in Hget'.
Qed.

(** The first loop completes when every entry carries a stop id. *)
Lemma group_trips_named (float : Type) (self : GtfsParser float) :
  named_stops self -> exists route_trips, group_trips float self = Ok route_trips.
Proof.
  intros Hn. unfold group_trips.
  destruct (for_each_total (group_trip float self) (fun _ => True)
              (_trip_stops self)) with (s := @nil (cell * trip_data_t))
    as (rt & Hrt & _); [|exact I|eauto].
  intros entry acc Hin _. unfold group_trip, py_sorted.
  rewrite (named_stops_sortable (snd entry) (Hn entry Hin)).
  destruct (truthy _); simpl; eauto.
Qed.



(** ** The second loop of [_build_routes] *)

Section BuildFacts.
Variable float : Type.
Variable self : GtfsParser float.

(** The routes the second loop adds for one entry of the grouping. *)
Local Abbreviation emitted_by entry :=
  (match build_route float self entry with
   | Ok (Some route) => [route]
   | _ => []
   end).

(** [build_route] either drops the route or emits it from the
    representative trip, with at least two known stops. *)
Lemma build_route_cases (entry : cell * trip_data_t) :
  build_route float self entry = Ok None
  \/ exists best,
      best_trip (snd entry) = Ok best
      /\ (2 <= List.length (filter (known_stop float self) (fst best)))%nat
      /\ build_route float self entry
         = Ok (Some
                 (Route.mk float (fst entry)
                    (fst (OrderedDict.get_default cell_eqb (fst entry)
                            (Some "Unknown", 3) (_route_info self)))
                    (normalize_route_type
                       (snd (OrderedDict.get_default cell_eqb (fst entry)
                               (Some "Unknown", 3) (_route_info self))))
                    (filter (known_stop float self) (fst best))
                    (OrderedDict.get_default cell_eqb (snd best) []
                       (_shapes self)))).
Proof.
  unfold build_route. destruct (snd entry) as [|first others] eqn:E.
  - now left.
  - unfold best_trip, py_max, bind.
    set (best := max_from _ first others).
    change (fun s => OrderedDict.mem cell_eqb s (stops self))
      with (known_stop float self).
    destruct (Nat.ltb_spec (List.length (filter (known_stop float self) (fst best))) 2).
    + now left.
    + right. exists best. auto.
Qed.

Lemma build_route_dropped (route_id : cell) (trip_data : trip_data_t)
    (best : list cell * cell) :
  best_trip trip_data = Ok best ->
  (List.length (filter (known_stop float self) (fst best)) < 2)%nat ->
  build_route float self (route_id, trip_data) = Ok None.
Proof.
  intros Hbest Hlen.
  destruct (build_route_cases (route_id, trip_data))
    as [H|(best' & Hbest' & Hlen' & _)]; [exact H|].
  cbn [snd] in Hbest'. rewrite Hbest in Hbest'. injection Hbest' as <-. lia.
Qed.

(** The second loop never raises and appends what each entry emits. *)
Lemma append_routes_total (route_trips : odict cell trip_data_t) :
  forall acc,
  for_each (append_route float self) route_trips acc
  = Ok (acc ++ flat_map (fun entry => emitted_by entry) route_trips).
Proof.
  induction route_trips as [|entry rt IH]; intros acc; simpl.
  - now rewrite app_nil_r.
  - unfold append_route at 1.
    destruct (build_route_cases entry) as [H|(best & _ & _ & H)];
      rewrite H; simpl; rewrite IH; [reflexivity|].
    now rewrite <- app_assoc.
Qed.

Lemma build_routes_emitted (route_trips : odict cell trip_data_t) :
  group_trips float self = Ok route_trips ->
  _build_routes float self
  = Ok (set_routes self
          (routes self ++ flat_map (fun entry => emitted_by entry) route_trips)).
Proof.
  intros Hg. unfold _build_routes. rewrite Hg. simpl.
  now rewrite append_routes_total.
Qed.

Lemma emitted_origin (route_trips : odict cell trip_data_t) (r : Route.t float) :
  In r (flat_map (fun entry => emitted_by entry) route_trips) ->
  exists entry, In entry route_trips
                /\ build_route float self entry = Ok (Some r).
Proof.
  intros Hin. apply in_flat_map in Hin. destruct Hin as (entry & He & Hr).
  exists entry. split; [assumption|].
  destruct (build_route float self entry) as [[r'|]|e]; simpl in Hr; try tauto.
  destruct Hr as [->|[]]. reflexivity.
Qed.
End BuildFacts.

(** *** The tables leave [routes] alone *)

Section RoutesUntouched.
Variable float : Type.
Variable float_of_str : string -> option float.
Variable int_of_str : string -> option Z.

Ltac untouched :=
  let H := fresh "H" in
  intros H; run_body; injection H as <-; reflexivity.

Lemma parse_stops_row_routes (r : row) (s s' : GtfsParser float) :
  _parse_stops_row float float_of_str r s = Ok s' -> routes s' = routes s.
Proof. unfold _parse_stops_row. untouched. Qed.

Lemma parse_routes_row_routes (r : row) (s s' : GtfsParser float) :
  _parse_routes_row float int_of_str r s = Ok s' -> routes s' = routes s.
Proof. unfold _parse_routes_row. untouched. Qed.

Lemma parse_trips_row_routes (r : row) (s s' : GtfsParser float) :
  _parse_trips_row float r s = Ok s' -> routes s' = routes s.
Proof. unfold _parse_trips_row. untouched. Qed.

Lemma parse_stop_times_row_routes (r : row) (s s' : GtfsParser float) :
  _parse_stop_times_row float int_of_str r s = Ok s' -> routes s' = routes s.
Proof. unfold _parse_stop_times_row. untouched. Qed.

Lemma for_each_routes
    (body : row -> GtfsParser float -> result (GtfsParser float))
    (rows : list row) :
  (forall r s s', body r s = Ok s' -> routes s' = routes s) ->
  forall s s', for_each body rows s = Ok s' -> routes s' = routes s.
Proof.
  intros Hbody s s' H.
  apply (for_each_invariant body (fun t => routes t = routes s) rows)
    with (s := s); auto.
  intros r t t' _ Ht Hstep. rewrite <- Ht. eapply Hbody; eassumption.
Qed.

Lemma if_present_routes (table : option (list row))
    (parse : list row -> GtfsParser float -> result (GtfsParser float))
    (s s' : GtfsParser float) :
  (forall rows t t', parse rows t = Ok t' -> routes t' = routes t) ->
  if_present float table parse s = Ok s' -> routes s' = routes s.
Proof.
  intros Hparse. destruct table as [rows|]; simpl.
  - apply Hparse.
  - now intros [= <-].
Qed.

(** [_parse_zip] reaches [_build_routes] with the routes it started with. *)
Lemma parse_zip_builds (zf : archive) (self self' : GtfsParser float) (ok : bool) :
  _parse_zip float float_of_str int_of_str (ZipFile zf) self = Ok (self', ok) ->
  exists s, routes s = routes self /\ _build_routes float s = Ok self'.
Proof.
  unfold _parse_zip, parse_tables.
  destruct (if_present float (stops_txt zf) _ self) as [s1|e] eqn:E1; simpl;
    [|discriminate].
  destruct (if_present float (routes_txt zf) _ s1) as [s2|e] eqn:E2; simpl;
    [|discriminate].
  destruct (if_present float (trips_txt zf) _ s2) as [s3|e] eqn:E3; simpl;
    [|discriminate].
  destruct (if_present float (shapes_txt zf) _ s3) as [s4|e] eqn:E4; simpl;
    [|discriminate].
  destruct (if_present float (stop_times_txt zf) _ s4) as [s5|e] eqn:E5; simpl;
    [|discriminate].
  destruct (_build_routes float s5) as [s6|e] eqn:E6; simpl; [|discriminate].
  intros [= <- <-]. exists s5. split; [|exact E6].
  apply if_present_routes in E1;
    [|intros rows; apply for_each_routes, parse_stops_row_routes].
  apply if_present_routes in E2;
    [|intros rows; apply for_each_routes, parse_routes_row_routes].
  apply if_present_routes in E3;
    [|intros rows; apply for_each_routes, parse_trips_row_routes].
  apply if_present_routes in E5;
    [|intros rows; apply for_each_routes, parse_stop_times_row_routes].
  apply if_present_routes in E4; [congruence|].
  intros rows t t'. unfold _parse_shapes.
  match goal with
  | |- context [for_each ?body rows ?acc] => destruct (for_each body rows acc)
  end; simpl; [|discriminate].
  now intros [= <-].
Qed.

Lemma parse_shapes_routes (rows : list row) (s s' : GtfsParser float) :
  _parse_shapes float float_of_str int_of_str rows s = Ok s' ->
  routes s' = routes s.
Proof.
  unfold _parse_shapes.
  match goal with
  | |- context [for_each ?body rows ?acc] => destruct (for_each body rows acc)
  end; simpl; [|discriminate].
  now intros [= <-].
Qed.

Lemma tables_before_routes (member : table) (zf : archive)
    (s s' : GtfsParser float) :
  tables_before float float_of_str int_of_str member zf s = Ok s' ->
  routes s' = routes s.
Proof.
  assert (H1 : forall t t', if_present float (stops_txt zf)
                              (_parse_stops float float_of_str) t = Ok t' ->
                            routes t' = routes t).
  { intros t t' H. apply if_present_routes in H; [exact H|].
    intros rows. apply for_each_routes, parse_stops_row_routes. }
  assert (H2 : forall t t', if_present float (routes_txt zf)
                              (_parse_routes float int_of_str) t = Ok t' ->
                            routes t' = routes t).
  { intros t t' H. apply if_present_routes in H; [exact H|].
    intros rows. apply for_each_routes, parse_routes_row_routes. }
  assert (H3 : forall t t', if_present float (trips_txt zf)
                              (_parse_trips float) t = Ok t' ->
                            routes t' = routes t).
  { intros t t' H. apply if_present_routes in H; [exact H|].
    intros rows. apply for_each_routes, parse_trips_row_routes. }
  assert (H4 : forall t t', if_present float (shapes_txt zf)
                              (_parse_shapes float float_of_str int_of_str) t
                            = Ok t' ->
                            routes t' = routes t).
  { intros t t' H. apply if_present_routes in H; [exact H|].
    intros rows. apply parse_shapes_routes. }
  destruct member; cbn [tables_before].
  - now intros [= <-].
  - apply H1.
  - destruct (if_present float (stops_txt zf) _ s) as [s1|] eqn:E1; simpl;
      [|discriminate].
    intros E2. apply H1 in E1. apply H2 in E2. congruence.
  - destruct (if_present float (stops_txt zf) _ s) as [s1|] eqn:E1; simpl;
      [|discriminate].
    destruct (if_present float (routes_txt zf) _ s1) as [s2|] eqn:E2; simpl;
      [|discriminate].
    intros E3. apply H1 in E1. apply H2 in E2. apply H3 in E3. congruence.
  - destruct (if_present float (stops_txt zf) _ s) as [s1|] eqn:E1; simpl;
      [|discriminate].
    destruct (if_present float (routes_txt zf) _ s1) as [s2|] eqn:E2; simpl;
      [|discriminate].
    destruct (if_present float (trips_txt zf) _ s2) as [s3|] eqn:E3; simpl;
      [|discriminate].
    intros E4. apply H1 in E1. apply H2 in E2. apply H3 in E3. apply H4 in E4.
    congruence.
Qed.

Lemma rows_read_routes (member : table) (rows : list row)
    (s s' : GtfsParser float) :
  rows_read float float_of_str int_of_str (_parse_stop_times float int_of_str)
    member rows s = Ok s' ->
  routes s' = routes s.
Proof.
  destruct member; cbn [rows_read].
  - apply for_each_routes, parse_stops_row_routes.
  - apply for_each_routes, parse_routes_row_routes.
  - apply for_each_routes, parse_trips_row_routes.
  - match goal with
    | |- context [for_each ?body rows ?acc] => destruct (for_each body rows acc)
    end; simpl; [|discriminate].
    now intros [= <-].
  - apply for_each_routes, parse_stop_times_row_routes.
Qed.

(** A load that returns on an archive with a failing member either never
    came to that member, or returns [False] with the routes it started
    with. *)
Lemma parse_broken_outcome (zf : archive) (member : table) (e : read_error)
    (self out : GtfsParser float) (ok : bool) :
  _parse_zip float float_of_str int_of_str (ZipFile_broken zf member e) self
  = Ok (out, ok) ->
  (member_rows member zf = None
   /\ _parse_zip float float_of_str int_of_str (ZipFile zf) self = Ok (out, ok))
  \/ (ok = false /\ e = bad_member /\ routes out = routes self).
Proof.
  cbn [_parse_zip]. unfold parse_broken.
  destruct (member_rows member zf) as [rows|]; [|intros H; left; now split].
  destruct (tables_before _ _ _ member zf self) as [s1|] eqn:E1; simpl;
    [|discriminate].
  destruct (rows_read _ _ _ _ member rows s1) as [s2|] eqn:E2; simpl;
    [|discriminate].
  apply tables_before_routes in E1. apply rows_read_routes in E2.
  destruct e; simpl; try discriminate.
  intros [= <- <-]. right. repeat split. congruence.
Qed.
End RoutesUntouched.

(** C6.  When the grouping succeeds, [_build_routes] succeeds too and
    appends routes that all have at least two stop ids; a route id whose
    representative trip keeps fewer than two stop ids after the filter on
    the stops table gets no route.  So every route of a parser that has
    loaded an archive from scratch has at least two stop ids. *)
Theorem short_routes_never_emitted :
  (forall (float : Type) (self : GtfsParser float)
          (route_trips : odict cell trip_data_t),
      group_trips float self = Ok route_trips ->
      exists emitted,
        _build_routes float self
        = Ok (set_routes self (routes self ++ emitted))
        /\ (forall r, In r emitted -> (2 <= List.length (Route.stop_ids r))%nat)
        /\ (forall route_id trip_data best,
               In (route_id, trip_data) route_trips ->
               best_trip trip_data = Ok best ->
               (List.length (filter (known_stop float self) (fst best)) < 2)%nat ->
               forall r, In r emitted -> Route.id r <> route_id))
  /\ (forall (float : Type) (float_of_str : string -> option float)
             (int_of_str : string -> option Z) (data : zip_data)
             (self' : GtfsParser float) (ok : bool),
         _parse_zip float float_of_str int_of_str data __init__ = Ok (self', ok) ->
         forall r, In r (routes self') ->
                   (2 <= List.length (Route.stop_ids r))%nat).
Proof.
  assert (Hlen : forall (float : Type) (self : GtfsParser float)
                        (rt : odict cell trip_data_t) (r : Route.t float),
             In r (flat_map (fun entry =>
                               match build_route float self entry with
                               | Ok (Some route) => [route]
                               | _ => []
                               end) rt) ->
             (2 <= List.length (Route.stop_ids r))%nat).
  { intros float self rt r Hr.
    apply emitted_origin in Hr. destruct Hr as (entry & _ & Hb).
    destruct (build_route_cases float self entry) as [H|(best & _ & Hlen & H)];
      rewrite H in Hb; [discriminate|].
    injection Hb as <-. exact Hlen. }
  split.
  - intros float self route_trips Hg.
    eexists. split; [apply build_routes_emitted; exact Hg|]. split.
    + apply Hlen.
    + intros route_id trip_data best Hin Hbest Hshort r Hr Hid.
      apply emitted_origin in Hr. destruct Hr as ([rid td] & Hentry & Hb).
      assert (rid = route_id) as ->.
      { destruct (build_route_cases float self (rid, td)) as [H|(b & _ & _ & H)];
          rewrite H in Hb; [discriminate|].
        injection Hb as <-. exact Hid. }
      destruct (group_trips_lookup _ _ _ Hg) as (Hnd & _).
      apply (DictFacts.In_get cell_eqb cell_eqb_spec) in Hin, Hentry;
        try assumption.
      assert (td = trip_data) as -> by congruence.
      rewrite (build_route_dropped float self _ _ _ Hbest Hshort) in Hb.
      discriminate.
  - intros float float_of_str int_of_str data self' ok H r Hr.
    assert (H' : (exists zf, _parse_zip float float_of_str int_of_str
                               (ZipFile zf) __init__ = Ok (self', ok))
                 \/ routes self' = []).
    { destruct data as [|zf|zf member e].
      - simpl in H. injection H as <- <-. now right.
      - left. now exists zf.
      - apply parse_broken_outcome in H.
        destruct H as [[_ H]|(_ & _ & H)]; [left; now exists zf | now right]. }
    clear H. destruct H' as [[zf H]|H]; [|rewrite H in Hr; destruct Hr].
    + apply parse_zip_builds in H. destruct H as (s & Hroutes & Hb).
      destruct (group_trips float s) as [rt|e] eqn:Hg;
        [|unfold _build_routes in Hb; rewrite Hg in Hb; discriminate].
      rewrite (build_routes_emitted float s rt Hg) in Hb. injection Hb as <-.
      cbn [routes set_routes] in Hr. rewrite Hroutes in Hr.
      exact (Hlen float s rt r Hr).
Qed.

(** ** Stop ids of a route *)




(** ** Routes table *)

Section RoutesFacts.
Variable float : Type.
Variable int_of_str : string -> option Z.

Local Abbreviation has_route self route_id :=
  (OrderedDict.mem cell_eqb route_id
     (_route_info (self : GtfsParser float)) = true).

Lemma mem_set_same (route_id : cell) (v : cell * Z) (d : odict cell (cell * Z)) :
  OrderedDict.mem cell_eqb route_id (OrderedDict.set cell_eqb route_id v d) = true.
Proof.
  unfold OrderedDict.mem.
  now rewrite (DictFacts.get_set_same cell_eqb cell_eqb_spec).
Qed.

Lemma mem_set_kept (k route_id : cell) (v : cell * Z) (d : odict cell (cell * Z)) :
  OrderedDict.mem cell_eqb route_id d = true ->
  OrderedDict.mem cell_eqb route_id (OrderedDict.set cell_eqb k v d) = true.
Proof.
  destruct (cell_eqb_spec k route_id) as [->|Hne].
  - intros _. apply mem_set_same.
  - unfold OrderedDict.mem.
    now rewrite (DictFacts.get_set_other cell_eqb cell_eqb_spec) by assumption.
Qed.

(** A route id, once recorded, stays recorded. *)
Lemma parse_routes_row_keeps (r : row) (self self' : GtfsParser float)
    (route_id : cell) :
  _parse_routes_row float int_of_str r self = Ok self' ->
  has_route self route_id -> has_route self' route_id.
Proof.
  unfold _parse_routes_row. intros H Hmem.
  run_body; injection H as <-; auto; simpl; now apply mem_set_kept.
Qed.

Lemma parse_routes_keeps (rows : list row) (self self' : GtfsParser float)
    (route_id : cell) :
  _parse_routes float int_of_str rows self = Ok self' ->
  has_route self route_id -> has_route self' route_id.
Proof.
  intros H Hmem. revert self self' Hmem H.
  apply (for_each_invariant (_parse_routes_row float int_of_str)
           (fun s => has_route s route_id)).
  intros r s s' _ Hs Hstep. eapply parse_routes_row_keeps; eassumption.
Qed.
End RoutesFacts.

(** The claim of C3 fails on a row whose [route_type] is text: [int()]
    raises [ValueError], which the loop catches, and the row is skipped
    instead of being recorded with the type 3. *)
Lemma textual_route_type_skipped :
  OrderedDict.get String.eqb "route_id" textual_type_row = Some (Some "R1")
  /\ exists self',
      _parse_routes Z decimal_of_str [textual_type_row] __init__ = Ok self'
      /\ OrderedDict.get cell_eqb (Some "R1") (_route_info self') = None.
Proof. split; [reflexivity|]. eexists. split; reflexivity. Qed.

(** C3, as the code has it.  A row without [route_id] is skipped, and so is
    a row whose [route_type] is text that [int()] rejects.  A row with a
    [route_id] whose [route_type] is absent or an integer literal is
    recorded under that id, with the type 3 when absent and the integer
    otherwise; its name is [route_short_name] when that is non-empty, else
    [route_long_name] when the row has it, else the empty string.  Every
    such row's id is in the index when the table has been read. *)
Theorem routes_rows_recorded :
  forall (float : Type) (int_of_str : string -> option Z),
    (forall (r : row) (self : GtfsParser float),
        let long_name :=
          match OrderedDict.get String.eqb "route_long_name" r with
          | Some c => c
          | None => Some ""
          end in
        let name :=
          match OrderedDict.get String.eqb "route_short_name" r with
          | Some (Some s) => if String.eqb s "" then long_name else Some s
          | _ => long_name
          end in
        let recorded route_id route_type :=
          Ok (set_route_info self
                (OrderedDict.set cell_eqb route_id (name, route_type)
                   (_route_info self))) in
        (OrderedDict.get String.eqb "route_id" r = None ->
         _parse_routes_row float int_of_str r self = Ok self)
        /\ (forall route_id,
               OrderedDict.get String.eqb "route_id" r = Some route_id ->
               (OrderedDict.get String.eqb "route_type" r = None ->
                _parse_routes_row float int_of_str r self = recorded route_id 3)
               /\ (forall s n,
                      OrderedDict.get String.eqb "route_type" r = Some (Some s) ->
                      int_of_str s = Some n ->
                      _parse_routes_row float int_of_str r self
                      = recorded route_id n)
               /\ (forall s,
                      OrderedDict.get String.eqb "route_type" r = Some (Some s) ->
                      int_of_str s = None ->
                      _parse_routes_row float int_of_str r self = Ok self)))
    /\ (forall (rows : list row) (self self' : GtfsParser float) (r : row)
               (route_id : cell),
           _parse_routes float int_of_str rows self = Ok self' ->
           In r rows ->
           OrderedDict.get String.eqb "route_id" r = Some route_id ->
           (OrderedDict.get String.eqb "route_type" r = None
            \/ exists s n,
                OrderedDict.get String.eqb "route_type" r = Some (Some s)
                /\ int_of_str s = Some n) ->
           OrderedDict.mem cell_eqb route_id (_route_info self') = true).
Proof.
  intros float int_of_str.
  assert (Hrow : forall (r : row) (self : GtfsParser float),
             let long_name :=
               match OrderedDict.get String.eqb "route_long_name" r with
               | Some c => c
               | None => Some ""
               end in
             let name :=
               match OrderedDict.get String.eqb "route_short_name" r with
               | Some (Some s) => if String.eqb s "" then long_name else Some s
               | _ => long_name
               end in
             let recorded route_id route_type :=
               Ok (set_route_info self
                     (OrderedDict.set cell_eqb route_id (name, route_type)
                        (_route_info self))) in
             (OrderedDict.get String.eqb "route_id" r = None ->
              _parse_routes_row float int_of_str r self = Ok self)
             /\ (forall route_id,
                    OrderedDict.get String.eqb "route_id" r = Some route_id ->
                    (OrderedDict.get String.eqb "route_type" r = None ->
                     _parse_routes_row float int_of_str r self
                     = recorded route_id 3)
                    /\ (forall s n,
                           OrderedDict.get String.eqb "route_type" r
                           = Some (Some s) ->
                           int_of_str s = Some n ->
                           _parse_routes_row float int_of_str r self
                           = recorded route_id n)
                    /\ (forall s,
                           OrderedDict.get String.eqb "route_type" r
                           = Some (Some s) ->
                           int_of_str s = None ->
                           _parse_routes_row float int_of_str r self = Ok self))).
  { intros r self long_name name recorded.
    assert (Hname : (if truthy (row_get "route_short_name" None r)
                     then row_get "route_short_name" None r
                     else row_get "route_long_name" (Some "") r) = name).
    { unfold name, long_name, row_get, OrderedDict.get_default.
      destruct (OrderedDict.get String.eqb "route_short_name" r) as [[s|]|];
        simpl; try reflexivity.
      now destruct (String.eqb s ""). }
    unfold recorded, _parse_routes_row, row_item, py_int.
    rewrite Hname. split.
    - intros ->. reflexivity.
    - intros route_id ->. cbn [bind]. repeat split.
      + intros ->. reflexivity.
      + intros s n -> ->. reflexivity.
      + intros s -> ->. reflexivity. }
  split; [exact Hrow|].
  intros rows self self' r route_id H Hin Hid Htype.
  apply in_split in Hin. destruct Hin as (l1 & l2 & ->).
  unfold _parse_routes in H. rewrite for_each_app in H.
  destruct (for_each _ l1 self) as [s1|e]; simpl in H; [|discriminate].
  destruct (_parse_routes_row float int_of_str r s1) as [s2|e] eqn:E;
    simpl in H; [|discriminate].
  apply (parse_routes_keeps float int_of_str l2 s2 self' route_id H).
  destruct (Hrow r s1) as [_ Hrec].
  destruct (Hrec route_id Hid) as (Habsent & Hint & _).
  destruct Htype as [Ht|(s & n & Ht & Hn)].
  - rewrite (Habsent Ht) in E. injection E as <-. apply mem_set_same.
  - rewrite (Hint s n Ht Hn) in E. injection E as <-. apply mem_set_same.
Qed.

(** ** Loading from a file *)

Section LoadFacts.
Variable float : Type.
Variable float_of_str : string -> option float.
Variable int_of_str : string -> option Z.

Local Abbreviation reparse := (parse_archive float float_of_str int_of_str).
Local Abbreviation load := (load_from_file float float_of_str int_of_str).

Lemma newer_iff (cache_mtime zip_mtime : Q) :
  negb (Qle_bool cache_mtime zip_mtime) = true <-> (zip_mtime < cache_mtime)%Q.
Proof.
  rewrite negb_true_iff. split.
  - intros H. apply Qnot_le_lt. intros Hle.
    apply Qle_bool_iff in Hle. congruence.
  - intros H. destruct (Qle_bool cache_mtime zip_mtime) eqn:E; [|reflexivity].
    apply Qle_bool_iff in E. exfalso. eapply Qlt_not_le; eassumption.
Qed.

Lemma not_newer_iff (cache_mtime zip_mtime : Q) :
  negb (Qle_bool cache_mtime zip_mtime) = false <-> (cache_mtime <= zip_mtime)%Q.
Proof. rewrite negb_false_iff. apply Qle_bool_iff. Qed.

(** Re-parsing opens the archive and never the [.parsed] file. *)
Lemma reparse_trace (fs : filesystem float) (self : GtfsParser float) :
  In Read_archive (fst (reparse fs self))
  /\ ~ In Read_parsed (fst (reparse fs self)).
Proof.
  unfold parse_archive, traced.
  destruct (archive_file fs) as [[zm [data|]]|]; simpl;
    try (split; [now left | intros [H|[]]; discriminate]).
  destruct (_parse_zip float float_of_str int_of_str data self)
    as [[s [|]]|[]]; simpl;
    try (split; [now left | intros [H|[]]; discriminate]).
  split; [now left|].
  destruct (parsed_writable fs); intros [H|[H|[]]]; discriminate.
Qed.

(** Re-parsing returns what [_parse_zip] returns. *)
Lemma reparse_result (fs : filesystem float) (self : GtfsParser float)
    (zip_mtime : Q) (data : zip_data) (out : GtfsParser float * bool) :
  archive_file fs = Some (zip_mtime, Some data) ->
  _parse_zip float float_of_str int_of_str data self = Ok out ->
  snd (reparse fs self) = Ok out.
Proof.
  intros Hfile Hparse. unfold parse_archive, traced.
  rewrite Hfile, Hparse. destruct out as [s [|]]; reflexivity.
Qed.
End LoadFacts.

(** C5.  [load_from_file] reads the [.parsed] file exactly when that file
    exists and its last-write time is strictly greater than the archive's.
    Read and intact, it is loaded and the archive is not opened.  A
    [.parsed] file that is absent, as old as the archive or older sends the
    call to the archive; one that is selected but cannot be loaded does the
    same after the failed read, and the call then returns what parsing the
    archive returns. *)
Theorem derived_cache_rule :
  forall (float : Type) (float_of_str : string -> option float)
         (int_of_str : string -> option Z)
         (fs : filesystem float) (self : GtfsParser float),
    let run := load_from_file float float_of_str int_of_str fs self in
    let reparse := parse_archive float float_of_str int_of_str fs in
    (In Read_parsed (fst run) <->
     exists cache_mtime cached zip_mtime contents,
       parsed_file fs = Some (cache_mtime, cached)
       /\ archive_file fs = Some (zip_mtime, contents)
       /\ (zip_mtime < cache_mtime)%Q)
    /\ (forall cache_mtime cached_stops cached_routes zip_mtime contents,
           parsed_file fs = Some (cache_mtime, Pickled float cached_stops cached_routes) ->
           archive_file fs = Some (zip_mtime, contents) ->
           (zip_mtime < cache_mtime)%Q ->
           run = ([Read_parsed],
                  Ok (set_routes (set_stops self cached_stops) cached_routes,
                      true)))
    /\ (parsed_file fs = None -> run = reparse self)
    /\ (forall cache_mtime cached zip_mtime contents,
           parsed_file fs = Some (cache_mtime, cached) ->
           archive_file fs = Some (zip_mtime, contents) ->
           (cache_mtime <= zip_mtime)%Q ->
           run = reparse self)
    /\ (forall cache_mtime zip_mtime contents,
           parsed_file fs = Some (cache_mtime, Unpicklable) ->
           archive_file fs = Some (zip_mtime, contents) ->
           (zip_mtime < cache_mtime)%Q ->
           run = traced Read_parsed (reparse self))
    /\ (forall cache_mtime cached_stops zip_mtime contents,
           parsed_file fs = Some (cache_mtime, StopsOnly float cached_stops) ->
           archive_file fs = Some (zip_mtime, contents) ->
           (zip_mtime < cache_mtime)%Q ->
           run = traced Read_parsed (reparse (set_stops self cached_stops)))
    /\ (forall s, In Read_archive (fst (reparse s))
                  /\ ~ In Read_parsed (fst (reparse s)))
    /\ (forall s zip_mtime data out,
           archive_file fs = Some (zip_mtime, Some data) ->
           _parse_zip float float_of_str int_of_str data s = Ok out ->
           snd (reparse s) = Ok out).
Proof.
  intros float float_of_str int_of_str fs self run reparse.
  assert (Hre := reparse_trace float float_of_str int_of_str fs).
  split; [|split; [|split; [|split; [|split; [|split; [|split]]]]]].
  - unfold run, load_from_file.
    destruct (parsed_file fs) as [[cm cached]|] eqn:Hc.
    + destruct (archive_file fs) as [[zm contents]|] eqn:Hz.
      * destruct (negb (Qle_bool cm zm)) eqn:Hnew.
        -- split.
           ++ intros _. exists cm, cached, zm, contents.
              repeat split. now apply newer_iff.
           ++ intros _. destruct cached; left; reflexivity.
        -- split.
           ++ intros H. now apply Hre in H.
           ++ intros (cm' & c' & zm' & ct' & [= <- <-] & [= <- <-] & Hlt).
              apply newer_iff in Hlt. congruence.
      * split; [intros [] | intros (? & ? & ? & ? & _ & [=] & _)].
    + split; [intros H; now apply Hre in H
             | intros (? & ? & ? & ? & [=] & _)].
  - intros cm st rt zm ct Hc Hz Hlt. unfold run, load_from_file.
    rewrite Hc, Hz. apply newer_iff in Hlt. rewrite Hlt. reflexivity.
  - intros Hc. unfold run, load_from_file. now rewrite Hc.
  - intros cm cached zm ct Hc Hz Hle. unfold run, load_from_file.
    rewrite Hc, Hz. apply not_newer_iff in Hle. now rewrite Hle.
  - intros cm zm ct Hc Hz Hlt. unfold run, load_from_file.
    rewrite Hc, Hz. apply newer_iff in Hlt. now rewrite Hlt.
  - intros cm st zm ct Hc Hz Hlt. unfold run, load_from_file.
    rewrite Hc, Hz. apply newer_iff in Hlt. now rewrite Hlt.
  - exact Hre.
  - intros s zm data out. apply reparse_result.
Qed.

(** C8.  A short row is a malformed row, and it makes the load fail: with
    the header [route_id,route_type] and the line [R1], the cell of
    [route_type] is [None], [int(None)] raises [TypeError], and neither
    the row loop nor [_parse_zip] catches it.  An archive that does not open
    gives [False]. *)
Theorem short_row_escapes_parse_zip :
  forall (float : Type) (float_of_str : string -> option float)
         (int_of_str : string -> option Z) (self : GtfsParser float),
    _parse_zip float float_of_str int_of_str (ZipFile short_row_feed) self
    = Raise TypeError
    /\ _parse_zip float float_of_str int_of_str BadZipFile self
       = Ok (self, false).
Proof. intros. split; reflexivity. Qed.

(** ** Archives whose rows are complete *)

Section CompleteRows.
Variable float : Type.
Variable float_of_str : string -> option float.
Variable int_of_str : string -> option Z.

Lemma complete_row_get (r : row) (k : string) (c : cell) :
  complete_row r = true ->
  OrderedDict.get String.eqb k r = Some c -> exists s, c = Some s.
Proof.
  intros Hc Hget. apply (DictFacts.get_In String.eqb String.eqb_spec) in Hget.
  unfold complete_row in Hc. rewrite forallb_forall in Hc.
  specialize (Hc _ Hget). destruct c as [s|]; [eauto | discriminate].
Qed.

Lemma complete_row_item (r : row) (k : string) :
  complete_row r = true ->
  row_item k r = Raise KeyError \/ exists s, row_item k r = Ok (Some s).
Proof.
  intros Hc. unfold row_item.
  destruct (OrderedDict.get String.eqb k r) as [c|] eqn:G; [|now left].
  destruct (complete_row_get r k c Hc G) as [s ->]. right. eauto.
Qed.

Lemma py_int_text (s : string) :
  py_int int_of_str (Some s) = Raise ValueError
  \/ exists n, py_int int_of_str (Some s) = Ok n.
Proof. simpl. destruct (int_of_str s); eauto. Qed.

Lemma py_float_text (s : string) :
  py_float float float_of_str (Some s) = Raise ValueError
  \/ exists x, py_float float float_of_str (Some s) = Ok x.
Proof. simpl. destruct (float_of_str s); eauto. Qed.

Ltac item r k Hc :=
  destruct (complete_row_item r k Hc) as [-> | [? ->]]; cbn [bind except_Key_Value except_Key];
  [solve [eauto] |].

Ltac number_of lemma s :=
  destruct (lemma s) as [-> | [? ->]]; cbn [bind except_Key_Value];
  [solve [eauto] |].

Lemma parse_stops_row_complete (r : row) (self : GtfsParser float) :
  complete_row r = true -> named_stops self ->
  exists self', _parse_stops_row float float_of_str r self = Ok self'
                /\ named_stops self'.
Proof.
  intros Hc Hn. unfold _parse_stops_row.
  item r "stop_id" Hc. item r "stop_lat" Hc.
  match goal with |- context [py_float _ _ (Some ?s)] => number_of py_float_text s end.
  item r "stop_lon" Hc.
  match goal with |- context [py_float _ _ (Some ?s)] => number_of py_float_text s end.
  eauto.
Qed.

Lemma parse_routes_row_complete (r : row) (self : GtfsParser float) :
  complete_row r = true -> named_stops self ->
  exists self', _parse_routes_row float int_of_str r self = Ok self'
                /\ named_stops self'.
Proof.
  intros Hc Hn. unfold _parse_routes_row.
  item r "route_id" Hc.
  destruct (OrderedDict.get String.eqb "route_type" r) as [ty|] eqn:G.
  - destruct (complete_row_get r _ ty Hc G) as [s ->].
    number_of py_int_text s. eauto.
  - cbn [bind except_Key_Value]. eauto.
Qed.

(** The trips reader does not call [int] or [float]: no row makes it raise. *)
Lemma parse_trips_row_total (r : row) (self : GtfsParser float) :
  named_stops self ->
  exists self', _parse_trips_row float r self = Ok self' /\ named_stops self'.
Proof.
  intros Hn. unfold _parse_trips_row, row_item, row_has, OrderedDict.mem.
  destruct (OrderedDict.get String.eqb "trip_id" r) as [trip_id|]; simpl;
    [|eauto].
  destruct (OrderedDict.get String.eqb "route_id" r) as [route_id|]; simpl;
    [|eauto].
  destruct (OrderedDict.get String.eqb "shape_id" r) as [shape_id|]; simpl;
    [|eauto].
  destruct (truthy shape_id); simpl; eauto.
Qed.

Lemma parse_shapes_row_complete (r : row) (d : shape_points_t float) :
  complete_row r = true ->
  exists d', _parse_shapes_row float float_of_str int_of_str r d = Ok d'.
Proof.
  intros Hc. unfold _parse_shapes_row.
  item r "shape_id" Hc. item r "shape_pt_sequence" Hc.
  match goal with |- context [py_int _ (Some ?s)] => number_of py_int_text s end.
  item r "shape_pt_lat" Hc.
  match goal with |- context [py_float _ _ (Some ?s)] => number_of py_float_text s end.
  item r "shape_pt_lon" Hc.
  match goal with |- context [py_float _ _ (Some ?s)] => number_of py_float_text s end.
  eauto.
Qed.

Lemma named_stops_append (self : GtfsParser float) (trip_id : cell)
    (seq : Z) (stop_id : string) :
  named_stops self ->
  named_stops
    (set_trip_stops self
       (OrderedDict.append_item cell_eqb trip_id (seq, Some stop_id)
          (_trip_stops self))).
Proof.
  intros Hn entry Hin p Hp. cbn [_trip_stops set_trip_stops] in Hin.
  apply DictFacts.In_set in Hin. destruct Hin as [->|Hin]; [|eauto].
  cbn [snd] in Hp. apply in_app_or in Hp. destruct Hp as [Hp|[<-|[]]];
    [|reflexivity].
  unfold OrderedDict.get_default in Hp. revert Hp.
  destruct_get G; intros Hp; [|destruct Hp].
  apply (DictFacts.get_In cell_eqb cell_eqb_spec) in G.
  exact (Hn _ G p Hp).
Qed.

Lemma parse_stop_times_row_complete (r : row) (self : GtfsParser float) :
  complete_row r = true -> named_stops self ->
  exists self', _parse_stop_times_row float int_of_str r self = Ok self'
                /\ named_stops self'.
Proof.
  intros Hc Hn. unfold _parse_stop_times_row.
  item r "trip_id" Hc.
  destruct (negb _); cbn [bind except_Key_Value]; [eauto|].
  item r "stop_id" Hc. item r "stop_sequence" Hc.
  match goal with |- context [py_int _ (Some ?s)] => number_of py_int_text s end.
  eexists. split; [reflexivity|]. now apply named_stops_append.
Qed.

Lemma build_routes_named (self : GtfsParser float) :
  named_stops self -> exists self', _build_routes float self = Ok self'.
Proof.
  intros Hn. destruct (group_trips_named float self Hn) as [rt Hg].
  rewrite (build_routes_emitted float self rt Hg). eauto.
Qed.

Lemma complete_table_total (table : option (list row))
    (body : row -> GtfsParser float -> result (GtfsParser float))
    (parse : list row -> GtfsParser float -> result (GtfsParser float))
    (self : GtfsParser float) :
  (forall rows s, parse rows s = for_each body rows s) ->
  complete_table table = true ->
  (forall r s, complete_row r = true -> named_stops s ->
               exists s', body r s = Ok s' /\ named_stops s') ->
  named_stops self ->
  exists self', if_present float table parse self = Ok self'
                /\ named_stops self'.
Proof.
  intros Hparse Hc Hbody Hn. destruct table as [rows|]; simpl in *; [|eauto].
  rewrite forallb_forall in Hc. rewrite Hparse.
  apply (for_each_total body named_stops); [|assumption].
  intros r s Hr. apply Hbody. auto.
Qed.

(** On an archive whose rows are all complete, read by a parser whose stop
    entries all carry a stop id, [_parse_zip] returns [True]. *)
Lemma parse_zip_complete (zf : archive) (self : GtfsParser float) :
  complete_archive zf = true -> named_stops self ->
  exists self',
    _parse_zip float float_of_str int_of_str (ZipFile zf) self = Ok (self', true).
Proof.
  unfold complete_archive. rewrite !andb_true_iff.
  intros [[[[H1 H2] H3] H4] H5] Hn. unfold _parse_zip, parse_tables.
  destruct (complete_table_total _ _ (_parse_stops float float_of_str)
              self (fun _ _ => eq_refl) H1 parse_stops_row_complete Hn)
    as (s1 & -> & N1). cbn [bind].
  destruct (complete_table_total _ _ (_parse_routes float int_of_str)
              s1 (fun _ _ => eq_refl) H2 parse_routes_row_complete N1)
    as (s2 & -> & N2). cbn [bind].
  destruct (complete_table_total _ _ (_parse_trips float)
              s2 (fun _ _ => eq_refl) H3
              (fun r s _ => parse_trips_row_total r s) N2)
    as (s3 & -> & N3). cbn [bind].
  assert (Hs : exists s4,
             if_present float (shapes_txt zf)
               (_parse_shapes float float_of_str int_of_str) s3 = Ok s4
             /\ named_stops s4).
  { destruct (shapes_txt zf) as [rows|]; simpl in *; [|eauto].
    rewrite forallb_forall in H4. unfold _parse_shapes.
    destruct (for_each_total
                (_parse_shapes_row float float_of_str int_of_str)
                (fun _ => True) rows) with (s := @nil (cell * list (Z * float * float)))
      as (sp & -> & _); [|exact I|simpl; eauto].
    intros r d Hr _. destruct (parse_shapes_row_complete r d (H4 r Hr)); eauto. }
  destruct Hs as (s4 & -> & N4). cbn [bind].
  destruct (complete_table_total _ _ (_parse_stop_times float int_of_str)
              s4 (fun _ _ => eq_refl) H5 parse_stop_times_row_complete N4)
    as (s5 & -> & N5). cbn [bind].
  destruct (build_routes_named s5 N5) as [s6 ->]. simpl. eauto.
Qed.

(** On such an archive every table is read to the end of its rows. *)
Lemma tables_complete (zf : archive) :
  complete_archive zf = true ->
  (forall s, named_stops s ->
     exists s', if_present float (stops_txt zf)
                  (_parse_stops float float_of_str) s = Ok s'
                /\ named_stops s')
  /\ (forall s, named_stops s ->
        exists s', if_present float (routes_txt zf)
                     (_parse_routes float int_of_str) s = Ok s'
                   /\ named_stops s')
  /\ (forall s, named_stops s ->
        exists s', if_present float (trips_txt zf) (_parse_trips float) s
                   = Ok s'
                   /\ named_stops s')
  /\ (forall rows, shapes_txt zf = Some rows ->
        exists d, for_each (_parse_shapes_row float float_of_str int_of_str)
                    rows [] = Ok d)
  /\ (forall s, named_stops s ->
        exists s', if_present float (stop_times_txt zf)
                     (_parse_stop_times float int_of_str) s = Ok s'
                   /\ named_stops s').
Proof.
  unfold complete_archive. rewrite !andb_true_iff.
  intros [[[[H1 H2] H3] H4] H5].
  split; [|split; [|split; [|split]]].
  - intros s Hn.
    exact (complete_table_total _ _ (_parse_stops float float_of_str)
             s (fun _ _ => eq_refl) H1 parse_stops_row_complete Hn).
  - intros s Hn.
    exact (complete_table_total _ _ (_parse_routes float int_of_str)
             s (fun _ _ => eq_refl) H2 parse_routes_row_complete Hn).
  - intros s Hn.
    exact (complete_table_total _ _ (_parse_trips float)
             s (fun _ _ => eq_refl) H3
             (fun r s _ => parse_trips_row_total r s) Hn).
  - intros rows Hrows. rewrite Hrows in H4. simpl in H4.
    rewrite forallb_forall in H4.
    destruct (for_each_total
                (_parse_shapes_row float float_of_str int_of_str)
                (fun _ => True) rows)
      with (s := @nil (cell * list (Z * float * float)))
      as (sp & Hsp & _); [|exact I|eauto].
    intros r d Hr _. destruct (parse_shapes_row_complete r d (H4 r Hr)); eauto.
  - intros s Hn.
    exact (complete_table_total _ _ (_parse_stop_times float int_of_str)
             s (fun _ _ => eq_refl) H5 parse_stop_times_row_complete Hn).
Qed.

(** When a member of such an archive fails to be read, the parse ends at
    the failure, with the routes it started with. *)
Lemma parse_broken_complete (zf : archive) (member : table) (e : read_error)
    (self : GtfsParser float) :
  complete_archive zf = true -> named_stops self ->
  member_rows member zf <> None ->
  exists self',
    routes self' = routes self
    /\ _parse_zip float float_of_str int_of_str (ZipFile_broken zf member e)
         self
       = except_BadZipFile float self' (raised e).
Proof.
  intros Hc Hn Hm.
  destruct (tables_complete zf Hc) as (T1 & T2 & T3 & T4 & T5).
  assert (T4' : forall s, named_stops s ->
            exists s', if_present float (shapes_txt zf)
                         (_parse_shapes float float_of_str int_of_str) s
                       = Ok s'
                       /\ named_stops s').
  { intros s Hs. destruct (shapes_txt zf) as [rows|] eqn:E; simpl; [|eauto].
    destruct (T4 rows eq_refl) as [d Hd]. unfold _parse_shapes.
    rewrite Hd. simpl. eauto. }
  cbn [_parse_zip]. unfold parse_broken.
  destruct (member_rows member zf) as [rows|] eqn:Erows; [clear Hm|congruence].
  assert (Hb : exists s1,
             tables_before float float_of_str int_of_str member zf self = Ok s1
             /\ named_stops s1).
  { destruct member; cbn [tables_before].
    - eauto.
    - apply T1, Hn.
    - destruct (T1 self Hn) as (s1 & -> & N1). cbn [bind]. apply T2, N1.
    - destruct (T1 self Hn) as (s1 & -> & N1). cbn [bind].
      destruct (T2 s1 N1) as (s2 & -> & N2). cbn [bind]. apply T3, N2.
    - destruct (T1 self Hn) as (s1 & -> & N1). cbn [bind].
      destruct (T2 s1 N1) as (s2 & -> & N2). cbn [bind].
      destruct (T3 s2 N2) as (s3 & -> & N3). cbn [bind]. apply T4', N3. }
  destruct Hb as (s1 & Hb & N1).
  assert (Hr : exists s2,
             rows_read float float_of_str int_of_str
               (_parse_stop_times float int_of_str) member rows s1 = Ok s2).
  { destruct member; cbn [rows_read member_rows] in *.
    - destruct (T1 s1 N1) as (s2 & H2 & _). rewrite Erows in H2. eauto.
    - destruct (T2 s1 N1) as (s2 & H2 & _). rewrite Erows in H2. eauto.
    - destruct (T3 s1 N1) as (s2 & H2 & _). rewrite Erows in H2. eauto.
    - destruct (T4 rows Erows) as [d ->]. simpl. eauto.
    - destruct (T5 s1 N1) as (s2 & H2 & _). rewrite Erows in H2. eauto. }
  destruct Hr as (s2 & Hr). exists s2. split.
  - apply tables_before_routes in Hb. apply rows_read_routes in Hr. congruence.
  - rewrite Hb. cbn [bind]. rewrite Hr. reflexivity.
Qed.
End CompleteRows.

(** ** The early exit of the stop-times reader *)

Section EarlyExit.
Variable float : Type.
Variable int_of_str : string -> option Z.

Local Abbreviation known self :=
  (fun trip_id => OrderedDict.mem cell_eqb trip_id
                    (_trip_to_route (self : GtfsParser float))).

Lemma agree_refl (self : GtfsParser float) : agree_on_known_trips self self.
Proof. split; [now destruct self | reflexivity]. Qed.

(** On a row without a [None] cell the two readers go the same way: both
    skip it, or the reader of the specification accumulates it and the
    reader of the source does so when its trip is known. *)
Lemma stop_times_row_agree (r : row) (f u : GtfsParser float) :
  complete_row r = true ->
  agree_on_known_trips f u ->
  exists f' u',
    _parse_stop_times_row float int_of_str r f = Ok f'
    /\ spec_stop_times_row float int_of_str r u = Ok u'
    /\ agree_on_known_trips f' u'.
Proof.
  intros Hc [Hu Hts].
  unfold _parse_stop_times_row, spec_stop_times_row, well_formed_stop_time,
    row_item.
  destruct (OrderedDict.get String.eqb "trip_id" r) as [c1|] eqn:E1.
  2:{ exists f, u. repeat split; auto. }
  destruct (complete_row_get r _ _ Hc E1) as [t ->].
  destruct (OrderedDict.get String.eqb "stop_id" r) as [c2|] eqn:E2.
  2:{ exists f, u. cbn.
      destruct (OrderedDict.mem cell_eqb (Some t) (_trip_to_route f));
        repeat split; auto. }
  destruct (complete_row_get r _ _ Hc E2) as [sid ->].
  destruct (OrderedDict.get String.eqb "stop_sequence" r) as [c3|] eqn:E3.
  2:{ exists f, u. cbn.
      destruct (OrderedDict.mem cell_eqb (Some t) (_trip_to_route f));
        repeat split; auto. }
  destruct (complete_row_get r _ _ Hc E3) as [q ->].
  cbn. destruct (int_of_str q) as [n|] eqn:E4.
  2:{ exists f, u. cbn.
      destruct (OrderedDict.mem cell_eqb (Some t) (_trip_to_route f));
        repeat split; auto. }
  destruct (OrderedDict.mem cell_eqb (Some t) (_trip_to_route f)) eqn:K; cbn.
  - eexists. eexists. split; [reflexivity|]. split; [reflexivity|]. split.
    + rewrite Hu. reflexivity.
    + cbn [_trip_stops set_trip_stops _trip_to_route].
      rewrite !(DictFacts.restrict_append_item_kept cell_eqb cell_eqb_spec)
        by assumption.
      now rewrite Hts.
  - exists f. eexists. split; [reflexivity|]. split; [reflexivity|]. split.
    + rewrite Hu at 1. reflexivity.
    + cbn [_trip_stops set_trip_stops].
      rewrite (DictFacts.restrict_append_item_dropped cell_eqb cell_eqb_spec)
        by assumption.
      exact Hts.
Qed.

Lemma stop_times_agree (rows : list row) :
  forallb complete_row rows = true ->
  forall f u : GtfsParser float,
  agree_on_known_trips f u ->
  exists f' u',
    _parse_stop_times float int_of_str rows f = Ok f'
    /\ spec_stop_times float int_of_str rows u = Ok u'
    /\ agree_on_known_trips f' u'.
Proof.
  unfold spec_stop_times, _parse_stop_times.
  induction rows as [|r rows IH]; intros Hc f u Hfu; simpl.
  - exists f, u. auto.
  - simpl in Hc. apply andb_true_iff in Hc. destruct Hc as [Hr Hrows].
    destruct (stop_times_row_agree r f u Hr Hfu) as (f1 & u1 & -> & -> & H1).
    simpl. apply IH; assumption.
Qed.

Lemma unknown_trip_not_grouped (self : GtfsParser float)
    (entry : cell * list (Z * cell)) (acc : odict cell trip_data_t) :
  OrderedDict.mem cell_eqb (fst entry) (_trip_to_route self) = false ->
  group_trip float self entry acc = Ok acc.
Proof.
  unfold OrderedDict.mem, group_trip, OrderedDict.get_default.
  unfold odict, cell in *.
  destruct_get G; intros H; [discriminate H | reflexivity].
Qed.

(** The first loop skips the trips without a route. *)
Lemma group_trips_restrict (self : GtfsParser float)
    (ts : list (cell * list (Z * cell))) :
  forall acc,
  for_each (group_trip float self) (OrderedDict.restrict (known self) ts) acc
  = for_each (group_trip float self) ts acc.
Proof.
  induction ts as [|entry ts IH]; intros acc; [reflexivity|].
  cbn [OrderedDict.restrict filter].
  fold (OrderedDict.restrict (known self) ts).
  destruct (OrderedDict.mem cell_eqb (fst entry) (_trip_to_route self)) eqn:K.
  - cbn [for_each]. destruct (group_trip float self entry acc);
      simpl; [apply IH | reflexivity].
  - cbn [for_each]. rewrite (unknown_trip_not_grouped self entry acc K).
    simpl. apply IH.
Qed.

(** Entries of unknown trips do not reach the routes. *)
Lemma build_routes_agree (f u : GtfsParser float) :
  agree_on_known_trips f u ->
  _build_routes float u
  = (out <- _build_routes float f ;; Ok (set_trip_stops out (_trip_stops u))).
Proof.
  intros [Hu Hts]. remember (_trip_stops u) as ts eqn:Ets. clear Ets. subst u.
  unfold _build_routes, group_trips.
  cbn [_trip_stops set_trip_stops routes].
  change (group_trip float (set_trip_stops f ts)) with (group_trip float f).
  change (append_route float (set_trip_stops f ts))
    with (append_route float f).
  rewrite <- (group_trips_restrict f ts), Hts, (group_trips_restrict f).
  destruct (for_each (group_trip float f) (_trip_stops f) []) as [rt|e];
    simpl; [|reflexivity].
  destruct (for_each (append_route float f) rt (routes f)) as [rs|e];
    simpl; reflexivity.
Qed.
End EarlyExit.

(** On an archive whose stop-times rows have no [None] cell, the load with
    the early exit and the load with the reader of the specification end
    the same way: both return, with the same flag, stops and routes, or
    both raise the same exception. *)
Lemma early_exit_transparent (float : Type)
    (float_of_str : string -> option float) (int_of_str : string -> option Z)
    (data : zip_data) (self : GtfsParser float) :
  stop_times_complete data = true ->
  match _parse_zip float float_of_str int_of_str data self,
        spec_parse_zip float float_of_str int_of_str data self with
  | Ok (out, ok), Ok (out', ok') =>
      ok = ok' /\ stops out = stops out' /\ routes out = routes out'
  | Raise e, Raise e' => e = e'
  | _, _ => False
  end.
Proof.
  assert (Hfull : forall zf,
             complete_table (stop_times_txt zf) = true ->
             match (s <- parse_tables float float_of_str int_of_str
                           (_parse_stop_times float int_of_str) zf self ;;
                    Ok (s, true)),
                   (s <- parse_tables float float_of_str int_of_str
                           (spec_stop_times float int_of_str) zf self ;;
                    Ok (s, true)) with
             | Ok (out, ok), Ok (out', ok') =>
                 ok = ok' /\ stops out = stops out' /\ routes out = routes out'
             | Raise e, Raise e' => e = e'
             | _, _ => False
             end).
  { intros zf Hc. unfold parse_tables.
    destruct (if_present float (stops_txt zf) _ self) as [s1|e]; simpl;
      [|reflexivity].
    destruct (if_present float (routes_txt zf) _ s1) as [s2|e]; simpl;
      [|reflexivity].
    destruct (if_present float (trips_txt zf) _ s2) as [s3|e]; simpl;
      [|reflexivity].
    destruct (if_present float (shapes_txt zf) _ s3) as [s4|e]; simpl;
      [|reflexivity].
    assert (Hf : exists f u,
               if_present float (stop_times_txt zf)
                 (_parse_stop_times float int_of_str) s4 = Ok f
               /\ if_present float (stop_times_txt zf)
                    (spec_stop_times float int_of_str) s4 = Ok u
               /\ agree_on_known_trips f u).
    { destruct (stop_times_txt zf) as [rows|]; simpl in *.
      - apply stop_times_agree; [exact Hc | apply agree_refl].
      - exists s4, s4.
        split; [reflexivity|]. split; [reflexivity | apply agree_refl]. }
    destruct Hf as (f & u & -> & -> & Hfu). simpl.
    rewrite (build_routes_agree float f u Hfu).
    destruct (_build_routes float f) as [o|e]; simpl; [|reflexivity].
    repeat split. }
  destruct data as [|zf|zf member e]; simpl; intros Hc.
  - repeat split.
  - apply Hfull, Hc.
  - unfold parse_broken.
    destruct (member_rows member zf) as [rows|] eqn:Hm; [|apply Hfull, Hc].
    destruct (tables_before float float_of_str int_of_str member zf self)
      as [s1|e1]; simpl; [|reflexivity].
    assert (Hf : (exists f u,
                     rows_read float float_of_str int_of_str
                       (_parse_stop_times float int_of_str) member rows s1
                     = Ok f
                     /\ rows_read float float_of_str int_of_str
                          (spec_stop_times float int_of_str) member rows s1
                        = Ok u
                     /\ stops f = stops u /\ routes f = routes u)
                 \/ (exists e',
                        rows_read float float_of_str int_of_str
                          (_parse_stop_times float int_of_str) member rows s1
                        = Raise e'
                        /\ rows_read float float_of_str int_of_str
                             (spec_stop_times float int_of_str) member rows s1
                           = Raise e')).
    { destruct member; cbn [rows_read].
      - destruct (_parse_stops float float_of_str rows s1) as [f|e'];
          [left; exists f, f; auto | right; exists e'; auto].
      - destruct (_parse_routes float int_of_str rows s1) as [f|e'];
          [left; exists f, f; auto | right; exists e'; auto].
      - destruct (_parse_trips float rows s1) as [f|e'];
          [left; exists f, f; auto | right; exists e'; auto].
      - destruct (for_each (_parse_shapes_row float float_of_str int_of_str)
                    rows []) as [d|e']; simpl;
          [left; exists s1, s1; auto | right; exists e'; auto].
      - cbn [member_rows] in Hm. rewrite Hm in Hc. simpl in Hc.
        destruct (stop_times_agree float int_of_str rows Hc s1 s1
                    (agree_refl float s1)) as (f & u & Ef & Eu & [Hu _]).
        left. exists f, u.
        repeat split; try assumption; rewrite Hu; reflexivity. }
    destruct Hf as [(f & u & -> & -> & Hs & Hr)|(e' & -> & ->)]; simpl;
      [|reflexivity].
    destruct e; simpl; auto.
Qed.

(** C9.  The load and the load with the reader of the specification part
    on a short row of a trip that [trips.txt] has.  With the header
    [trip_id,stop_id,stop_sequence] and the line [T1], the row is not
    well-formed and the reader of the specification skips it, building the
    route of [T1] from the two full rows; the reader of the source passes
    the early exit, reaches [int(None)] and raises [TypeError], which leaves
    [_parse_zip]: no route is built. *)
Theorem short_row_of_known_trip_diverges :
  _parse_zip Z decimal_of_str decimal_of_str (ZipFile known_trip_feed) __init__
  = Raise TypeError
  /\ spec_parse_zip Z decimal_of_str decimal_of_str (ZipFile known_trip_feed)
       __init__
     = Ok (known_trip_loaded, true)
  /\ routes known_trip_loaded
     = [Route.mk Z (Some "R1") (Some "Unknown") 3 [Some "A"; Some "B"] []].
Proof. repeat split. Qed.

(** * The properties on the example feeds *)


Lemma routes_rows_recorded_witness :
  _parse_routes_row Z decimal_of_str textual_type_row __init__ = Ok __init__
  /\ _parse_routes_row Z decimal_of_str numeric_type_row __init__
     = Ok (set_route_info __init__ [(Some "R2", (Some "Long", 700))])
  /\ _parse_routes_row Z decimal_of_str untyped_row __init__
     = Ok (set_route_info __init__ [(Some "R3", (Some "3", 3))])
  /\ _parse_routes_row Z decimal_of_str [("route_type", Some "3")] __init__
     = Ok __init__
  /\ OrderedDict.mem cell_eqb (Some "R2")
       (_route_info
          (set_route_info (@__init__ Z)
             [(Some "R2", (Some "Long", 700)); (Some "R3", (Some "3", 3))]))
     = true.
Proof.
  destruct (routes_rows_recorded Z decimal_of_str) as [Hrow Htable].
  split; [|split; [|split; [|split]]].
  - destruct (Hrow textual_type_row __init__) as [_ H].
    destruct (H (Some "R1") eq_refl) as (_ & _ & Hskip).
    exact (Hskip "x" eq_refl eq_refl).
  - destruct (Hrow numeric_type_row __init__) as [_ H].
    destruct (H (Some "R2") eq_refl) as (_ & Hint & _).
    exact (Hint "700" 700 eq_refl eq_refl).
  - destruct (Hrow untyped_row __init__) as [_ H].
    destruct (H (Some "R3") eq_refl) as (Habsent & _ & _).
    exact (Habsent eq_refl).
  - destruct (Hrow [("route_type", Some "3")] __init__) as [H _].
    exact (H eq_refl).
  - apply (Htable [numeric_type_row; textual_type_row; untyped_row] __init__ _
             numeric_type_row (Some "R2")).
    + reflexivity.
    + left. reflexivity.
    + reflexivity.
    + right. exists "700", 700. split; reflexivity.
Defined.


Lemma short_routes_never_emitted_witness :
  group_trips Z two_trip_state = Ok two_trip_grouping
  /\ (exists emitted,
         _build_routes Z two_trip_state
         = Ok (set_routes two_trip_state (routes two_trip_state ++ emitted))
         /\ (forall r, In r emitted -> (2 <= List.length (Route.stop_ids r))%nat)
         /\ (forall route_id trip_data best,
                In (route_id, trip_data) two_trip_grouping ->
                best_trip trip_data = Ok best ->
                (List.length (filter (known_stop Z two_trip_state) (fst best)) < 2)%nat ->
                forall r, In r emitted -> Route.id r <> route_id))
  /\ _parse_zip Z decimal_of_str decimal_of_str (ZipFile loop_feed) __init__
     = Ok (set_routes loop_state [loop_route], true)
  /\ (forall r, In r (routes (set_routes loop_state [loop_route])) ->
                (2 <= List.length (Route.stop_ids r))%nat).
Proof.
  destruct short_routes_never_emitted as [Hbuild Hload].
  split; [reflexivity|]. split; [|split; [reflexivity|]].
  - apply (Hbuild Z two_trip_state two_trip_grouping). reflexivity.
  - apply (Hload Z decimal_of_str decimal_of_str (ZipFile loop_feed) _ true).
    reflexivity.
Defined.

Lemma shapes_sorted_by_sequence_witness :
  _parse_shapes Z decimal_of_str decimal_of_str unordered_shape_rows __init__
  = Ok (set_shapes __init__ [(Some "S", [(0, 0); (5, 5); (10, 10)])])
  /\ OrderedDict.get cell_eqb (Some "S")
       (_shapes (set_shapes (@__init__ Z)
                   [(Some "S", [(0, 0); (5, 5); (10, 10)])]))
     = Some [(0, 0); (5, 5); (10, 10)].
Proof.
  split; [reflexivity|].
  destruct (shapes_sorted_by_sequence Z decimal_of_str decimal_of_str)
    as [Hshape _].
  destruct (Hshape unordered_shape_rows __init__
              (set_shapes __init__ [(Some "S", [(0, 0); (5, 5); (10, 10)])])
              (Some "S") eq_refl) as [H _].
  - discriminate.
  - exact H.
Defined.


Lemma derived_cache_rule_witness :
  (* written at T+1: read, and loaded *)
  In Read_parsed
     (fst (load_from_file Z decimal_of_str decimal_of_str
             (example_fs (Some (6%Q, Pickled Z [] []))) __init__))
  /\ load_from_file Z decimal_of_str decimal_of_str
       (example_fs (Some (6%Q, Pickled Z [] []))) __init__
     = ([Read_parsed], Ok (set_routes (set_stops __init__ []) [], true))
  (* written at T or T-1, or absent: the archive is parsed *)
  /\ load_from_file Z decimal_of_str decimal_of_str
       (example_fs (Some (5%Q, Pickled Z [] []))) __init__
     = parse_archive Z decimal_of_str decimal_of_str
         (example_fs (Some (5%Q, Pickled Z [] []))) __init__
  /\ load_from_file Z decimal_of_str decimal_of_str
       (example_fs (Some (4%Q, Pickled Z [] []))) __init__
     = parse_archive Z decimal_of_str decimal_of_str
         (example_fs (Some (4%Q, Pickled Z [] []))) __init__
  /\ load_from_file Z decimal_of_str decimal_of_str (example_fs None) __init__
     = parse_archive Z decimal_of_str decimal_of_str (example_fs None) __init__
  (* selected but corrupt: the archive is parsed after the failed read *)
  /\ load_from_file Z decimal_of_str decimal_of_str
       (example_fs (Some (6%Q, Unpicklable))) __init__
     = traced Read_parsed
         (parse_archive Z decimal_of_str decimal_of_str
            (example_fs (Some (6%Q, Unpicklable))) __init__)
  /\ load_from_file Z decimal_of_str decimal_of_str
       (example_fs (Some (6%Q, StopsOnly Z []))) __init__
     = traced Read_parsed
         (parse_archive Z decimal_of_str decimal_of_str
            (example_fs (Some (6%Q, StopsOnly Z []))) (set_stops __init__ []))
  /\ snd (parse_archive Z decimal_of_str decimal_of_str
            (example_fs (Some (6%Q, Unpicklable))) __init__)
     = Ok (set_routes loop_state [loop_route], true).
Proof.
  split; [|split; [|split; [|split; [|split; [|split; [|split]]]]]].
  - apply (derived_cache_rule Z decimal_of_str decimal_of_str
             (example_fs (Some (6%Q, Pickled Z [] []))) __init__).
    exists 6%Q, (Pickled Z [] []), 5%Q, (Some (ZipFile loop_feed)).
    repeat split.
  - destruct (derived_cache_rule Z decimal_of_str decimal_of_str
                (example_fs (Some (6%Q, Pickled Z [] []))) __init__)
      as (_ & H & _).
    apply (H 6%Q [] [] 5%Q (Some (ZipFile loop_feed)));
      reflexivity.
  - destruct (derived_cache_rule Z decimal_of_str decimal_of_str
                (example_fs (Some (5%Q, Pickled Z [] []))) __init__)
      as (_ & _ & _ & H & _).
    apply (H 5%Q (Pickled Z [] []) 5%Q (Some (ZipFile loop_feed)));
      [reflexivity | reflexivity | discriminate].
  - destruct (derived_cache_rule Z decimal_of_str decimal_of_str
                (example_fs (Some (4%Q, Pickled Z [] []))) __init__)
      as (_ & _ & _ & H & _).
    apply (H 4%Q (Pickled Z [] []) 5%Q (Some (ZipFile loop_feed)));
      [reflexivity | reflexivity | discriminate].
  - destruct (derived_cache_rule Z decimal_of_str decimal_of_str
                (example_fs None) __init__) as (_ & _ & H & _).
    apply H. reflexivity.
  - destruct (derived_cache_rule Z decimal_of_str decimal_of_str
                (example_fs (Some (6%Q, Unpicklable))) __init__)
      as (_ & _ & _ & _ & H & _).
    apply (H 6%Q 5%Q (Some (ZipFile loop_feed))); reflexivity.
  - destruct (derived_cache_rule Z decimal_of_str decimal_of_str
                (example_fs (Some (6%Q, StopsOnly Z []))) __init__)
      as (_ & _ & _ & _ & _ & H & _).
    apply (H 6%Q [] 5%Q (Some (ZipFile loop_feed))); reflexivity.
  - destruct (derived_cache_rule Z decimal_of_str decimal_of_str
                (example_fs (Some (6%Q, Unpicklable))) __init__)
      as (_ & _ & _ & _ & _ & _ & _ & H).
    apply (H __init__ 5%Q (ZipFile loop_feed)); reflexivity.
Defined.

(** * Further properties *)

(** ** More on dictionaries *)

Section DictMore.
Context {K V : Type} (eqb : K -> K -> bool).
Hypothesis eqb_spec : forall a b, reflect (a = b) (eqb a b).

Lemma mem_set (k k' : K) (v : V) (d : list (K * V)) :
  OrderedDict.mem eqb k' (OrderedDict.set eqb k v d)
  = eqb k' k || OrderedDict.mem eqb k' d.
Proof.
  unfold OrderedDict.mem. destruct (eqb_spec k' k) as [->|Hne]; simpl.
  - now rewrite (DictFacts.get_set_same eqb eqb_spec).
  - now rewrite (DictFacts.get_set_other eqb eqb_spec) by congruence.
Qed.

Lemma mem_keys (k : K) (d : list (K * V)) :
  OrderedDict.mem eqb k d = true <-> In k (OrderedDict.keys d).
Proof.
  unfold OrderedDict.mem.
  destruct (OrderedDict.get eqb k d) eqn:G.
  - split; [intros _ | reflexivity].
    apply (DictFacts.get_In eqb eqb_spec) in G.
    change k with (fst (k, v)). now apply in_map.
  - apply (DictFacts.get_None_keys eqb eqb_spec) in G.
    split; [discriminate | contradiction].
Qed.

Lemma get_default_set (k k' : K) (v dflt : V) (d : list (K * V)) :
  OrderedDict.get_default eqb k' dflt (OrderedDict.set eqb k v d)
  = if eqb k' k then v else OrderedDict.get_default eqb k' dflt d.
Proof.
  unfold OrderedDict.get_default. destruct (eqb_spec k' k) as [->|Hne].
  - now rewrite (DictFacts.get_set_same eqb eqb_spec).
  - now rewrite (DictFacts.get_set_other eqb eqb_spec) by congruence.
Qed.
End DictMore.

(** ** The normaliser on the codes it is meant for *)

(** X1.  [normalize_route_type] sends every non-negative code to a basic
    code 0..7, applying it twice changes nothing, and a code of at most 7
    that the table does not list, negative ones included, is returned as it
    is. *)
Theorem normalize_route_type_on_codes :
  (forall x, 0 <= x -> 0 <= normalize_route_type x <= 7)
  /\ (forall x,
         normalize_route_type (normalize_route_type x) = normalize_route_type x)
  /\ (forall x, x <= 7 -> normalize_route_type x = x).
Proof.
  split; [exact normalize_route_type_range|].
  split; [exact normalize_route_type_idempotent|].
  intros x Hx. destruct (normalize_route_type_cases x) as [Hin| ->].
  - cbn in Hin. lia.
  - destruct (Z.leb_spec x 7); [reflexivity | lia].
Qed.

(** ** The stops table *)

Section StopsFacts.
Variable float : Type.
Variable float_of_str : string -> option float.

Local Abbreviation parse_row := (_parse_stops_row float float_of_str).

(** What a stops row does: nothing, or file one stop under its id. *)
Lemma parse_stops_row_cases (r : row) (self self' : GtfsParser float) :
  parse_row r self = Ok self' ->
  self' = self
  \/ exists id lat_s lng_s lat lng,
      OrderedDict.get String.eqb "stop_id" r = Some id
      /\ OrderedDict.get String.eqb "stop_lat" r = Some (Some lat_s)
      /\ OrderedDict.get String.eqb "stop_lon" r = Some (Some lng_s)
      /\ float_of_str lat_s = Some lat
      /\ float_of_str lng_s = Some lng
      /\ self' = set_stops self
                   (OrderedDict.set cell_eqb id
                      (Stop.mk float id (row_get "stop_name" (Some "") r) lat lng)
                      (stops self)).
Proof.
  unfold _parse_stops_row. intros H.
  run_body; injection H as <-; auto.
  right. repeat eexists; eauto.
Qed.

Lemma stops_consistent_set (self : GtfsParser float) (st : Stop.t float) :
  stops_consistent self ->
  stops_consistent
    (set_stops self (OrderedDict.set cell_eqb (Stop.id st) st (stops self))).
Proof.
  intros [Hnd Hid]. split; cbn [stops set_stops].
  - now apply (DictFacts.NoDup_keys_set cell_eqb cell_eqb_spec).
  - intros k stop Hin. apply DictFacts.In_set in Hin.
    destruct Hin as [[= -> ->]|Hin]; [reflexivity | eauto].
Qed.
End StopsFacts.

(** X2.  [_parse_stops] keeps the stops table consistent: ids are filed
    once, each stop under its own id, whatever rows are read and however
    often an id recurs. *)
Theorem stops_stay_consistent :
  forall (float : Type) (float_of_str : string -> option float)
         (rows : list row) (self self' : GtfsParser float),
    stops_consistent self ->
    _parse_stops float float_of_str rows self = Ok self' ->
    stops_consistent self'.
Proof.
  intros float float_of_str rows self self' Hc H. revert self self' Hc H.
  apply (for_each_invariant (_parse_stops_row float float_of_str)
           (@stops_consistent float)).
  intros r s s' _ Hs Hstep.
  apply parse_stops_row_cases in Hstep.
  destruct Hstep as [->|(id & ls & gs & lat & lng & _ & _ & _ & _ & _ & ->)];
    [assumption|].
  apply (stops_consistent_set float s
           (Stop.mk float id (row_get "stop_name" (Some "") r) lat lng) Hs).
Qed.

(** X3.  Among the rows of a stops table, the last accepted row of a stop
    id decides the stop stored under it, whatever rejected rows of that id
    follow it; and a stop id all of whose rows are rejected gets no entry
    from the table: what was stored under it before is left as it was.  A
    row is accepted when it has both coordinates and [float()] reads them;
    it is rejected when it lacks a coordinate column or carries a
    coordinate that [float()] rejects. *)
Theorem stops_rows_effect :
  forall (float : Type) (float_of_str : string -> option float),
    (forall (before after : list row) (r : row) (self self' : GtfsParser float)
            (id : cell) (lat_s lng_s : string) (lat lng : float),
        OrderedDict.get String.eqb "stop_id" r = Some id ->
        OrderedDict.get String.eqb "stop_lat" r = Some (Some lat_s) ->
        OrderedDict.get String.eqb "stop_lon" r = Some (Some lng_s) ->
        float_of_str lat_s = Some lat ->
        float_of_str lng_s = Some lng ->
        (forall r', In r' after ->
                    OrderedDict.get String.eqb "stop_id" r' = Some id ->
                    OrderedDict.get String.eqb "stop_lat" r' = None
                    \/ OrderedDict.get String.eqb "stop_lon" r' = None
                    \/ (exists s,
                           OrderedDict.get String.eqb "stop_lat" r' = Some (Some s)
                           /\ float_of_str s = None)
                    \/ (exists s,
                           OrderedDict.get String.eqb "stop_lon" r' = Some (Some s)
                           /\ float_of_str s = None)) ->
        _parse_stops float float_of_str (before ++ r :: after) self = Ok self' ->
        OrderedDict.get cell_eqb id (stops self')
        = Some (Stop.mk float id (row_get "stop_name" (Some "") r) lat lng))
    /\ (forall (rows : list row) (self self' : GtfsParser float) (id : cell),
           (forall r, In r rows ->
                      OrderedDict.get String.eqb "stop_id" r = Some id ->
                      OrderedDict.get String.eqb "stop_lat" r = None
                      \/ OrderedDict.get String.eqb "stop_lon" r = None
                      \/ (exists s,
                             OrderedDict.get String.eqb "stop_lat" r = Some (Some s)
                             /\ float_of_str s = None)
                      \/ (exists s,
                             OrderedDict.get String.eqb "stop_lon" r = Some (Some s)
                             /\ float_of_str s = None)) ->
           _parse_stops float float_of_str rows self = Ok self' ->
           OrderedDict.get cell_eqb id (stops self')
           = OrderedDict.get cell_eqb id (stops self)).
Proof.
  intros float float_of_str.
  assert (Hkeep : forall (rows : list row) (id : cell) (self self' : GtfsParser float),
             (forall r, In r rows ->
                        forall s s', _parse_stops_row float float_of_str r s = Ok s' ->
                                     OrderedDict.get cell_eqb id (stops s')
                                     = OrderedDict.get cell_eqb id (stops s)) ->
             _parse_stops float float_of_str rows self = Ok self' ->
             OrderedDict.get cell_eqb id (stops self')
             = OrderedDict.get cell_eqb id (stops self)).
  { intros rows id self self' Hrows H.
    apply (for_each_invariant (_parse_stops_row float float_of_str)
             (fun t => OrderedDict.get cell_eqb id (stops t)
                       = OrderedDict.get cell_eqb id (stops self)) rows)
      with (s := self); auto.
    intros r t t' Hr Ht Hstep. rewrite <- Ht. eauto. }
  split.
  - intros before after r self self' id lat_s lng_s lat lng
           Hid Hlat Hlng Hx Hy Hafter H.
    unfold _parse_stops in H. rewrite for_each_app in H.
    destruct (for_each _ before self) as [s1|e]; simpl in H; [|discriminate].
    assert (Hr : _parse_stops_row float float_of_str r s1
                 = Ok (set_stops s1
                         (OrderedDict.set cell_eqb id
                            (Stop.mk float id (row_get "stop_name" (Some "") r)
                               lat lng) (stops s1)))).
    { unfold _parse_stops_row, row_item, py_float.
      rewrite Hid, Hlat, Hlng. cbn [bind]. rewrite Hx. cbn [bind].
      rewrite Hy. reflexivity. }
    rewrite Hr in H. cbn [bind] in H.
    match type of H with
    | for_each _ _ ?s2 = _ => rewrite (Hkeep after id s2 self')
    end; [| |exact H].
    + cbn [stops set_stops].
      apply (DictFacts.get_set_same cell_eqb cell_eqb_spec).
    + intros r' Hr' s s' Hstep. apply parse_stops_row_cases in Hstep.
      destruct Hstep
        as [->|(id' & ls & gs & la & ln & Hid' & Hlat' & Hlng' & Hx' & Hy' & ->)];
        [reflexivity|].
      cbn [stops set_stops].
      apply (DictFacts.get_set_other cell_eqb cell_eqb_spec).
      intros ->.
      destruct (Hafter r' Hr' Hid') as [E|[E|[(s0 & E & F)|(s0 & E & F)]]];
        congruence.
  - intros rows self self' id Hrej H.
    apply (Hkeep rows id self self'); [|exact H].
    intros r Hr s s' Hstep. apply parse_stops_row_cases in Hstep.
    destruct Hstep as [->|(id' & ls & gs & la & ln & Hid' & Hlat & Hlng & Hx & Hy & ->)];
      [reflexivity|].
    cbn [stops set_stops].
    apply (DictFacts.get_set_other cell_eqb cell_eqb_spec).
    intros ->.
    destruct (Hrej r Hr Hid') as [E|[E|[(s0 & E & F)|(s0 & E & F)]]];
      congruence.
Qed.

(** ** The trips table *)

Section TripsFacts.
Variable float : Type.

Lemma parse_trips_row_cases (r : row) (self : GtfsParser float) :
  _parse_trips_row float r self = Ok self
  \/ exists trip_id route_id,
      let routed :=
        set_trip_to_route self
          (OrderedDict.set cell_eqb trip_id route_id (_trip_to_route self)) in
      _parse_trips_row float r self = Ok routed
      \/ exists shape_id,
          truthy shape_id = true
          /\ _parse_trips_row float r self
             = Ok (set_trip_to_shape routed
                     (OrderedDict.set cell_eqb trip_id shape_id
                        (_trip_to_shape self))).
Proof.
  unfold _parse_trips_row, row_item, row_has, OrderedDict.mem.
  destruct (OrderedDict.get String.eqb "trip_id" r) as [trip_id|]; simpl;
    [|now left].
  destruct (OrderedDict.get String.eqb "route_id" r) as [route_id|]; simpl;
    [|now left].
  right. exists trip_id, route_id.
  destruct (OrderedDict.get String.eqb "shape_id" r) as [shape_id|]; simpl;
    [|now left].
  destruct (truthy shape_id) eqn:T; simpl; [|now left].
  right. exists shape_id. auto.
Qed.

Lemma trips_consistent_row (r : row) (self self' : GtfsParser float) :
  _parse_trips_row float r self = Ok self' ->
  trips_consistent self -> trips_consistent self'.
Proof.
  intros H Hc.
  destruct (parse_trips_row_cases r self)
    as [E|(trip_id & route_id & [E|(shape_id & T & E)])];
    rewrite E in H; injection H as <-; [assumption| |].
  - intros t s Hin. cbn [_trip_to_shape _trip_to_route set_trip_to_route] in *.
    destruct (Hc t s Hin) as [Hm Ht]. split; [|assumption].
    rewrite (mem_set cell_eqb cell_eqb_spec), Hm. apply orb_true_r.
  - intros t s Hin.
    cbn [_trip_to_shape _trip_to_route set_trip_to_route set_trip_to_shape] in *.
    rewrite (mem_set cell_eqb cell_eqb_spec).
    apply DictFacts.In_set in Hin. destruct Hin as [[= -> ->]|Hin].
    + rewrite cell_eqb_refl. auto.
    + destruct (Hc t s Hin) as [Hm Ht]. rewrite Hm, orb_true_r. auto.
Qed.
End TripsFacts.

(** X4.  No row makes [_parse_trips] raise: its loop body calls neither
    [int] nor [float] and completes whatever the rows hold, so
    [_parse_trips] raises exactly when its reader does, and then what the
    reader raised.  The loop keeps the trip tables consistent (a trip with
    a shape has a route, a recorded shape id is a non-empty string) and
    touches neither the stops, the routes nor the stop entries. *)
Theorem trips_rows_never_raise :
  forall (float : Type) (rows : list row) (failure : option read_error)
         (self : GtfsParser float),
    exists self',
      _parse_trips float rows self = Ok self'
      /\ reading float (_parse_trips float) rows failure self
         = match failure with
           | Some e => Raise (raised e)
           | None => Ok self'
           end
      /\ (trips_consistent self -> trips_consistent self')
      /\ stops self' = stops self
      /\ routes self' = routes self
      /\ _trip_stops self' = _trip_stops self.
Proof.
  intros float rows failure self.
  assert (Hloop : forall (rows : list row) (self : GtfsParser float),
             exists self',
               _parse_trips float rows self = Ok self'
               /\ (trips_consistent self -> trips_consistent self')
               /\ stops self' = stops self
               /\ routes self' = routes self
               /\ _trip_stops self' = _trip_stops self).
  { clear. intros rows. unfold _parse_trips.
    induction rows as [|r rows IH]; intros self; simpl.
    - exists self. auto.
    - destruct (_parse_trips_row float r self) as [s1|e] eqn:E.
      + simpl. destruct (IH s1) as (s' & -> & Hc & Hs & Hr & Ht).
        exists s'. split; [reflexivity|].
        pose proof (trips_consistent_row float r self s1 E) as Hc1.
        destruct (parse_trips_row_cases float r self)
          as [E'|(trip_id & route_id & [E'|(shape_id & T & E')])];
          rewrite E' in E; injection E as <-;
          (split; [auto | split; [|split]]); assumption.
      + exfalso.
        destruct (parse_trips_row_cases float r self)
          as [E'|(trip_id & route_id & [E'|(shape_id & T & E')])];
          rewrite E' in E; discriminate. }
  destruct (Hloop rows self) as (s' & E & Hc & Hs & Hr & Ht).
  exists s'. split; [exact E|]. split; [|auto].
  unfold reading. rewrite E. reflexivity.
Qed.

(** ** The stop-times table *)

Section StopTimesFacts.
Variable float : Type.
Variable int_of_str : string -> option Z.

Local Abbreviation parse_row := (_parse_stop_times_row float int_of_str).
Local Abbreviation entries := (@stop_time_row_entries float int_of_str).

(** A row is skipped or appends one entry to one known trip. *)
Lemma parse_stop_times_row_cases (r : row) (s s' : GtfsParser float) :
  parse_row r s = Ok s' ->
  (s' = s /\ forall t, entries s r t = [])
  \/ exists trip_id stop_id seq_s seq,
      OrderedDict.get String.eqb "trip_id" r = Some trip_id
      /\ OrderedDict.mem cell_eqb trip_id (_trip_to_route s) = true
      /\ OrderedDict.get String.eqb "stop_id" r = Some stop_id
      /\ OrderedDict.get String.eqb "stop_sequence" r = Some (Some seq_s)
      /\ int_of_str seq_s = Some seq
      /\ s' = set_trip_stops s
                (OrderedDict.append_item cell_eqb trip_id (seq, stop_id)
                   (_trip_stops s))
      /\ forall t, entries s r t = if cell_eqb t trip_id then [(seq, stop_id)] else [].
Proof.
  unfold stop_time_row_entries, _parse_stop_times_row.
  cbn [_trip_to_route set_trip_stops _trip_stops].
  unfold row_item, py_int, bind, except_Key_Value.
  destruct (OrderedDict.get String.eqb "trip_id" r) as [trip_id|];
    [|intros [= <-]; now left].
  destruct (OrderedDict.mem cell_eqb trip_id (_trip_to_route s)) eqn:K;
    cbn [negb]; [|intros [= <-]; now left].
  destruct (OrderedDict.get String.eqb "stop_id" r) as [stop_id|];
    [|intros [= <-]; now left].
  destruct (OrderedDict.get String.eqb "stop_sequence" r) as [[seq_s|]|];
    [| discriminate | intros [= <-]; now left].
  destruct (int_of_str seq_s) as [seq|] eqn:N; [|intros [= <-]; now left].
  intros [= <-]. right. exists trip_id, stop_id, seq_s, seq.
  repeat split; auto.
  intros t. cbn. unfold OrderedDict.get_default. cbn.
  now destruct (cell_eqb t trip_id).
Qed.

Lemma parse_stop_times_accumulate (rows : list row) :
  forall s s' : GtfsParser float,
  _parse_stop_times float int_of_str rows s = Ok s' ->
  s' = set_trip_stops s (_trip_stops s')
  /\ forall t,
      OrderedDict.get_default cell_eqb t [] (_trip_stops s')
      = OrderedDict.get_default cell_eqb t [] (_trip_stops s)
        ++ flat_map (fun r => entries s r t) rows.
Proof.
  unfold _parse_stop_times.
  induction rows as [|r rows IH]; intros s s'; simpl.
  - intros [= <-]. split; [now destruct s|].
    intros t. now rewrite app_nil_r.
  - destruct (parse_row r s) as [s1|e] eqn:E; simpl; [|discriminate].
    intros H. destruct (IH _ _ H) as [Hs Hget]. clear IH H.
    apply parse_stop_times_row_cases in E.
    destruct E as [[-> Hnone]|(tid & sid & seq_s & seq & _ & _ & _ & _ & _ & -> & Hone)].
    + split; [assumption|]. intros t. now rewrite Hget, Hnone.
    + split; [rewrite Hs at 1; reflexivity|].
      intros t. rewrite Hget, Hone.
      cbn [_trip_stops set_trip_stops].
      rewrite (DictFacts.get_default_append_item cell_eqb cell_eqb_spec).
      rewrite <- app_assoc. reflexivity.
Qed.
End StopTimesFacts.

(** X5.  [_parse_stop_times] changes [_trip_stops] only, and gives entries
    to trips of the trips table only: when every trip that has entries
    before is a known trip, so is every trip that has entries after. *)
Theorem stop_times_only_for_known_trips :
  forall (float : Type) (int_of_str : string -> option Z)
         (rows : list row) (self self' : GtfsParser float),
    _parse_stop_times float int_of_str rows self = Ok self' ->
    self' = set_trip_stops self (_trip_stops self')
    /\ ((forall trip_id, In trip_id (OrderedDict.keys (_trip_stops self)) ->
           OrderedDict.mem cell_eqb trip_id (_trip_to_route self) = true) ->
        forall trip_id, In trip_id (OrderedDict.keys (_trip_stops self')) ->
          OrderedDict.mem cell_eqb trip_id (_trip_to_route self) = true).
Proof.
  intros float int_of_str rows self self' H.
  split; [apply (parse_stop_times_accumulate float int_of_str rows _ _ H)|].
  intros Hknown.
  assert (Hinv : _trip_to_route self' = _trip_to_route self
                 /\ forall trip_id,
                     In trip_id (OrderedDict.keys (_trip_stops self')) ->
                     OrderedDict.mem cell_eqb trip_id (_trip_to_route self) = true).
  { revert H.
    apply (for_each_invariant (_parse_stop_times_row float int_of_str)
             (fun s => _trip_to_route s = _trip_to_route self
                       /\ forall trip_id,
                           In trip_id (OrderedDict.keys (_trip_stops s)) ->
                           OrderedDict.mem cell_eqb trip_id (_trip_to_route self)
                           = true) rows); [|auto].
    intros r s s' _ [Htr Hs] Hstep.
    apply parse_stop_times_row_cases in Hstep.
    destruct Hstep as [[-> _]|(tid & sid & seq_s & seq & _ & K & _ & _ & _ & -> & _)];
      [auto|].
    split; [exact Htr|]. intros trip_id Hin.
    cbn [_trip_stops set_trip_stops] in Hin.
    unfold OrderedDict.append_item in Hin.
    rewrite (DictFacts.keys_set cell_eqb cell_eqb_spec) in Hin.
    destruct (OrderedDict.mem cell_eqb tid (_trip_stops s)); [auto|].
    apply in_app_or in Hin. destruct Hin as [Hin|[<-|[]]]; [auto|].
    now rewrite <- Htr. }
  exact (proj2 Hinv).
Qed.

(** X6.  After [_parse_stop_times], the entries of a trip are those it
    had, followed by what the rows contribute to it, in the order of the
    rows.  A row of a known trip with a stop id and an integer sequence
    contributes that pair to that trip; a row of an unknown trip
    contributes nothing. *)
Theorem stop_times_in_input_order :
  forall (float : Type) (int_of_str : string -> option Z),
    (forall (rows : list row) (self self' : GtfsParser float) (trip_id : cell),
        _parse_stop_times float int_of_str rows self = Ok self' ->
        OrderedDict.get_default cell_eqb trip_id [] (_trip_stops self')
        = OrderedDict.get_default cell_eqb trip_id [] (_trip_stops self)
          ++ flat_map (fun r => stop_time_row_entries int_of_str self r trip_id)
               rows)
    /\ (forall (self : GtfsParser float) (r : row) (trip_id stop_id : cell)
               (seq_s : string) (seq : Z),
           OrderedDict.get String.eqb "trip_id" r = Some trip_id ->
           OrderedDict.mem cell_eqb trip_id (_trip_to_route self) = true ->
           OrderedDict.get String.eqb "stop_id" r = Some stop_id ->
           OrderedDict.get String.eqb "stop_sequence" r = Some (Some seq_s) ->
           int_of_str seq_s = Some seq ->
           forall t, stop_time_row_entries int_of_str self r t
                     = if cell_eqb t trip_id then [(seq, stop_id)] else [])
    /\ (forall (self : GtfsParser float) (r : row) (trip_id : cell),
           OrderedDict.get String.eqb "trip_id" r = Some trip_id ->
           OrderedDict.mem cell_eqb trip_id (_trip_to_route self) = false ->
           forall t, stop_time_row_entries int_of_str self r t = []).
Proof.
  intros float int_of_str. split; [|split].
  - intros rows self self' trip_id H.
    apply (parse_stop_times_accumulate float int_of_str rows _ _ H).
  - intros self r trip_id stop_id seq_s seq Ht K Hs Hq Hn t.
    unfold stop_time_row_entries, _parse_stop_times_row, row_item, py_int.
    cbn [_trip_to_route set_trip_stops _trip_stops].
    rewrite Ht. cbn [bind]. rewrite K. cbn [negb]. rewrite Hs. cbn [bind].
    rewrite Hq. cbn [bind]. rewrite Hn. cbn.
    unfold OrderedDict.get_default. cbn. now destruct (cell_eqb t trip_id).
  - intros self r trip_id Ht K t.
    unfold stop_time_row_entries, _parse_stop_times_row, row_item.
    cbn [_trip_to_route set_trip_stops _trip_stops].
    rewrite Ht. cbn [bind]. rewrite K. reflexivity.
Qed.

(** ** The shapes table on a parser that already holds shapes *)

Section ShapesMore.
Variable float : Type.
Variable float_of_str : string -> option float.
Variable int_of_str : string -> option Z.

(** Every shape of the accumulator has a point. *)
Lemma shape_points_nonempty (rows : list row) :
  forall d d' : shape_points_t float,
  for_each (_parse_shapes_row float float_of_str int_of_str) rows d = Ok d' ->
  (forall e, In e d -> snd e <> []) -> forall e, In e d' -> snd e <> [].
Proof.
  intros d d' H Hd. revert d d' Hd H.
  apply (for_each_invariant (_parse_shapes_row float float_of_str int_of_str)
           (fun d : shape_points_t float => forall e, In e d -> snd e <> [])).
  intros r d d' _ Hd Hstep.
  apply parse_shapes_row_cases in Hstep.
  destruct Hstep as [[-> _]|(sid & p & -> & _)]; [assumption|].
  intros e He. apply DictFacts.In_set in He. destruct He as [->|He]; [|auto].
  simpl. now destruct (OrderedDict.get_default _ _ _ _).
Qed.
End ShapesMore.

(** X7.  [_parse_shapes] changes [_shapes] only, and there only the shapes
    its rows contribute to: a shape id to which no row of the table
    contributes a point keeps the coordinates it had (or stays absent). *)
Theorem shapes_without_rows_untouched :
  forall (float : Type) (float_of_str : string -> option float)
         (int_of_str : string -> option Z)
         (rows : list row) (self self' : GtfsParser float) (shape_id : cell),
    _parse_shapes float float_of_str int_of_str rows self = Ok self' ->
    self' = set_shapes self (_shapes self')
    /\ (flat_map (fun r => shape_row_points float float_of_str int_of_str r shape_id)
          rows = [] ->
        OrderedDict.get cell_eqb shape_id (_shapes self')
        = OrderedDict.get cell_eqb shape_id (_shapes self)).
Proof.
  intros float float_of_str int_of_str rows self self' shape_id H.
  unfold _parse_shapes in H.
  destruct (for_each (_parse_shapes_row float float_of_str int_of_str) rows [])
    as [sp|e] eqn:E; simpl in H; [|discriminate].
  injection H as <-. split; [reflexivity|].
  intros Hnone. cbn [_shapes set_shapes].
  apply store_shapes_untouched.
  destruct (parse_shapes_rows_accumulate _ _ _ _ _ _ E) as [_ Hget].
  specialize (Hget shape_id). rewrite Hnone in Hget. cbn in Hget.
  intros Hin.
  apply (mem_keys cell_eqb cell_eqb_spec) in Hin.
  unfold OrderedDict.mem, OrderedDict.get_default in *.
  destruct (OrderedDict.get cell_eqb shape_id sp) as [v|] eqn:G;
    [|discriminate].
  apply (DictFacts.get_In cell_eqb cell_eqb_spec) in G.
  apply (shape_points_nonempty float float_of_str int_of_str rows _ _ E
           ltac:(simpl; tauto) _ G).
  exact Hget.
Qed.

(** ** The routes [_build_routes] emits *)

Section EmittedFacts.
Variable float : Type.
Variable self : GtfsParser float.

Local Abbreviation emitted_by entry :=
  (match build_route float self entry with
   | Ok (Some route) => [route]
   | _ => []
   end).

Lemma emitted_ids_in_keys (rt : odict cell trip_data_t) (id : cell) :
  In id (map Route.id (flat_map (fun entry => emitted_by entry) rt)) ->
  In id (OrderedDict.keys rt).
Proof.
  intros Hin. apply in_map_iff in Hin. destruct Hin as (r & <- & Hr).
  apply emitted_origin in Hr. destruct Hr as (entry & He & Hb).
  destruct (build_route_cases float self entry) as [H|(best & _ & _ & H)];
    rewrite H in Hb; [discriminate|].
  injection Hb as <-. cbn [Route.id].
  now apply in_map.
Qed.

Lemma emitted_ids_NoDup (rt : odict cell trip_data_t) :
  NoDup (OrderedDict.keys rt) ->
  NoDup (map Route.id (flat_map (fun entry => emitted_by entry) rt)).
Proof.
  induction rt as [|entry rt IH]; intros Hnd; simpl; [constructor|].
  inversion Hnd as [|? ? Hnotin Hnd']; subst.
  rewrite map_app. 
  destruct (build_route_cases float self entry) as [H|(best & _ & _ & H)];
    rewrite H; simpl; [auto|].
  constructor; [|auto].
  intros Hin. apply Hnotin. now apply emitted_ids_in_keys.
Qed.

(** A route id of the grouping is a non-empty string. *)
Lemma grouped_ids_truthy (rt : odict cell trip_data_t) (id : cell) :
  group_trips float self = Ok rt -> In id (OrderedDict.keys rt) ->
  truthy id = true.
Proof.
  intros Hg Hin. apply in_map_iff in Hin. destruct Hin as ([rid td] & <- & He).
  destruct (group_trips_lookup _ _ _ Hg) as (_ & _ & Hdata & _).
  destruct (Hdata _ _ He) as [Hne Heq]. cbn [fst].
  destruct (trips_of_route float self rid) as [|trip trips] eqn:T;
    [now subst td|].
  assert (Hin : In trip (trips_of_route float self rid)) by (rewrite T; now left).
  unfold trips_of_route in Hin. apply filter_In in Hin.
  destruct Hin as [_ Hf]. apply andb_true_iff in Hf. destruct Hf as [Ht Heqb].
  apply cell_eqb_eq in Heqb. now rewrite <- Heqb.
Qed.
End EmittedFacts.

(** X8.  The routes [_build_routes] appends have pairwise distinct ids,
    each a non-empty string under which at least one trip with stop
    entries is filed. *)
Theorem emitted_routes_have_distinct_ids :
  forall (float : Type) (self self' : GtfsParser float),
    _build_routes float self = Ok self' ->
    exists emitted,
      routes self' = routes self ++ emitted
      /\ NoDup (map Route.id emitted)
      /\ forall r, In r emitted ->
           truthy (Route.id r) = true
           /\ trips_of_route float self (Route.id r) <> [].
Proof.
  intros float self self' H.
  destruct (group_trips float self) as [rt|e] eqn:Hg;
    [|unfold _build_routes in H; rewrite Hg in H; discriminate].
  rewrite (build_routes_emitted float self rt Hg) in H. injection H as <-.
  destruct (group_trips_lookup _ _ _ Hg) as (Hnd & _ & Hdata & _).
  eexists. split; [reflexivity|]. split.
  - now apply emitted_ids_NoDup.
  - intros r Hr.
    assert (Hk : In (Route.id r) (OrderedDict.keys rt)).
    { apply (emitted_ids_in_keys float self). now apply in_map. }
    split; [eapply grouped_ids_truthy; eassumption|].
    apply in_map_iff in Hk. destruct Hk as ([rid td] & Hid & He).
    cbn [fst] in Hid. subst rid.
    destruct (Hdata _ _ He) as [Hne Heq].
    intros Hnil. rewrite Hnil in Heq. now subst td.
Qed.

(** X9.  Every route [_build_routes] appends takes its name and type from
    the routes table, or is named "Unknown" with the type of a bus when the
    table does not have its id; its type is the normalised one, so when no
    recorded raw type is negative every appended route has a basic type
    0..7. *)
Theorem emitted_routes_are_typed :
  forall (float : Type) (self self' : GtfsParser float),
    _build_routes float self = Ok self' ->
    exists emitted,
      routes self' = routes self ++ emitted
      /\ (forall r, In r emitted ->
            match OrderedDict.get cell_eqb (Route.id r) (_route_info self) with
            | Some (name, raw_type) =>
                Route.name r = name
                /\ Route.route_type r = normalize_route_type raw_type
            | None =>
                Route.name r = Some "Unknown" /\ Route.route_type r = 3
            end)
      /\ ((forall id name raw_type,
              In (id, (name, raw_type)) (_route_info self) -> 0 <= raw_type) ->
          forall r, In r emitted -> 0 <= Route.route_type r <= 7).
Proof.
  intros float self self' H.
  destruct (group_trips float self) as [rt|e] eqn:Hg;
    [|unfold _build_routes in H; rewrite Hg in H; discriminate].
  rewrite (build_routes_emitted float self rt Hg) in H. injection H as <-.
  eexists. split; [reflexivity|].
  assert (Hattr : forall r,
             In r (flat_map (fun entry =>
                               match build_route float self entry with
                               | Ok (Some route) => [route]
                               | _ => []
                               end) rt) ->
             match OrderedDict.get cell_eqb (Route.id r) (_route_info self) with
             | Some (name, raw_type) =>
                 Route.name r = name
                 /\ Route.route_type r = normalize_route_type raw_type
             | None =>
                 Route.name r = Some "Unknown" /\ Route.route_type r = 3
             end).
  { intros r Hr. apply emitted_origin in Hr. destruct Hr as (entry & _ & Hb).
    destruct (build_route_cases float self entry) as [E|(best & _ & _ & E)];
      rewrite E in Hb; [discriminate|].
    injection Hb as <-. cbn [Route.id Route.name Route.route_type].
    unfold OrderedDict.get_default.
    unfold odict, cell in *.
    destruct_get G; [destruct p as [name raw]|]; cbn [fst snd]; auto. }
  split; [exact Hattr|].
  intros Hraw r Hr. specialize (Hattr r Hr).
  destruct (OrderedDict.get cell_eqb (Route.id r) (_route_info self))
    as [[name raw]|] eqn:G.
  - destruct Hattr as [_ ->]. apply normalize_route_type_range.
    apply (DictFacts.get_In cell_eqb cell_eqb_spec) in G. eauto.
  - destruct Hattr as [_ ->]. lia.
Qed.

(** ** Archives without a shapes table *)

Section ShapesUntouched.
Variable float : Type.
Variable float_of_str : string -> option float.
Variable int_of_str : string -> option Z.

Ltac same_shapes :=
  let H := fresh "H" in
  intros H; run_body; injection H as <-; reflexivity.

Lemma parse_stops_row_shapes (r : row) (s s' : GtfsParser float) :
  _parse_stops_row float float_of_str r s = Ok s' -> _shapes s' = _shapes s.
Proof. unfold _parse_stops_row. same_shapes. Qed.

Lemma parse_routes_row_shapes (r : row) (s s' : GtfsParser float) :
  _parse_routes_row float int_of_str r s = Ok s' -> _shapes s' = _shapes s.
Proof. unfold _parse_routes_row. same_shapes. Qed.

Lemma parse_trips_row_shapes (r : row) (s s' : GtfsParser float) :
  _parse_trips_row float r s = Ok s' -> _shapes s' = _shapes s.
Proof. unfold _parse_trips_row. same_shapes. Qed.

Lemma parse_stop_times_row_shapes (r : row) (s s' : GtfsParser float) :
  _parse_stop_times_row float int_of_str r s = Ok s' -> _shapes s' = _shapes s.
Proof. unfold _parse_stop_times_row. same_shapes. Qed.

Lemma for_each_shapes
    (body : row -> GtfsParser float -> result (GtfsParser float))
    (rows : list row) :
  (forall r s s', body r s = Ok s' -> _shapes s' = _shapes s) ->
  forall s s', for_each body rows s = Ok s' -> _shapes s' = _shapes s.
Proof.
  intros Hbody s s' H.
  apply (for_each_invariant body (fun t => _shapes t = _shapes s) rows)
    with (s := s); auto.
  intros r t t' _ Ht Hstep. rewrite <- Ht. eapply Hbody; eassumption.
Qed.

Lemma if_present_shapes (table : option (list row))
    (parse : list row -> GtfsParser float -> result (GtfsParser float))
    (s s' : GtfsParser float) :
  (forall rows t t', parse rows t = Ok t' -> _shapes t' = _shapes t) ->
  if_present float table parse s = Ok s' -> _shapes s' = _shapes s.
Proof.
  intros Hparse. destruct table as [rows|]; simpl.
  - apply Hparse.
  - now intros [= <-].
Qed.

(** Without [shapes.txt], [_build_routes] runs on the shapes and routes
    the parser started with. *)
Lemma parse_zip_builds_without_shapes (zf : archive)
    (self self' : GtfsParser float) (ok : bool) :
  shapes_txt zf = None ->
  _parse_zip float float_of_str int_of_str (ZipFile zf) self = Ok (self', ok) ->
  exists s, _shapes s = _shapes self /\ routes s = routes self
            /\ _build_routes float s = Ok self'.
Proof.
  intros Hnone H.
  destruct (parse_zip_builds float float_of_str int_of_str zf self self' ok H)
    as (s0 & _ & _).
  revert H. unfold _parse_zip, parse_tables. rewrite Hnone.
  destruct (if_present float (stops_txt zf) _ self) as [s1|e] eqn:E1; simpl;
    [|discriminate].
  destruct (if_present float (routes_txt zf) _ s1) as [s2|e] eqn:E2; simpl;
    [|discriminate].
  destruct (if_present float (trips_txt zf) _ s2) as [s3|e] eqn:E3; simpl;
    [|discriminate].
  destruct (if_present float (stop_times_txt zf) _ s3) as [s5|e] eqn:E5; simpl;
    [|discriminate].
  destruct (_build_routes float s5) as [s6|e] eqn:E6; simpl; [|discriminate].
  intros [= <- <-]. exists s5.
  pose proof E1 as R1. pose proof E2 as R2. pose proof E3 as R3.
  pose proof E5 as R5.
  apply if_present_shapes in E1;
    [|intros rows; apply for_each_shapes, parse_stops_row_shapes].
  apply if_present_shapes in E2;
    [|intros rows; apply for_each_shapes, parse_routes_row_shapes].
  apply if_present_shapes in E3;
    [|intros rows; apply for_each_shapes, parse_trips_row_shapes].
  apply if_present_shapes in E5;
    [|intros rows; apply for_each_shapes, parse_stop_times_row_shapes].
  apply if_present_routes in R1;
    [|intros rows; apply for_each_routes, parse_stops_row_routes].
  apply if_present_routes in R2;
    [|intros rows; apply for_each_routes, parse_routes_row_routes].
  apply if_present_routes in R3;
    [|intros rows; apply for_each_routes, parse_trips_row_routes].
  apply if_present_routes in R5;
    [|intros rows; apply for_each_routes, parse_stop_times_row_routes].
  repeat split; [congruence | congruence | exact E6].
Qed.
End ShapesUntouched.

(** X10.  Without stored shapes every route [_build_routes] appends has
    empty [shape_coords]; so a parser that loads from scratch an archive
    without [shapes.txt] has routes without shape coordinates only. *)
Theorem no_shapes_no_shape_coords :
  (forall (float : Type) (self self' : GtfsParser float),
      _shapes self = [] ->
      _build_routes float self = Ok self' ->
      exists emitted,
        routes self' = routes self ++ emitted
        /\ forall r, In r emitted -> Route.shape_coords r = [])
  /\ (forall (float : Type) (float_of_str : string -> option float)
             (int_of_str : string -> option Z) (zf : archive)
             (self' : GtfsParser float) (ok : bool),
         shapes_txt zf = None ->
         _parse_zip float float_of_str int_of_str (ZipFile zf) __init__
         = Ok (self', ok) ->
         forall r, In r (routes self') -> Route.shape_coords r = []).
Proof.
  assert (Hbuild : forall (float : Type) (self self' : GtfsParser float),
             _shapes self = [] ->
             _build_routes float self = Ok self' ->
             exists emitted,
               routes self' = routes self ++ emitted
               /\ forall r, In r emitted -> Route.shape_coords r = []).
  { intros float self self' Hs H.
    destruct (group_trips float self) as [rt|e] eqn:Hg;
      [|unfold _build_routes in H; rewrite Hg in H; discriminate].
    rewrite (build_routes_emitted float self rt Hg) in H. injection H as <-.
    eexists. split; [reflexivity|].
    intros r Hr. apply emitted_origin in Hr. destruct Hr as (entry & _ & Hb).
    destruct (build_route_cases float self entry) as [E|(best & _ & _ & E)];
      rewrite E in Hb; [discriminate|].
    injection Hb as <-. cbn [Route.shape_coords]. now rewrite Hs. }
  split; [exact Hbuild|].
  intros float float_of_str int_of_str zf self' ok Hnone H r Hr.
  destruct (parse_zip_builds_without_shapes float float_of_str int_of_str
              zf __init__ self' ok Hnone H) as (s & Hs & Hroutes & Hb).
  destruct (Hbuild float s self' Hs Hb) as (emitted & Heq & Hall).
  rewrite Heq, Hroutes in Hr. exact (Hall r Hr).
Qed.

(** X11.  A parser that starts empty loads every archive whose members
    are all read to their end and whose rows are complete (no row shorter
    than its header): [_parse_zip] returns [True], whatever text the cells
    hold and whichever tables are missing.  When reading a member of such
    an archive fails, the load ends there: it returns [False] without
    routes when the reader raises [BadZipFile], and lets [csv.Error] and
    [UnicodeDecodeError] through to the caller. *)
Theorem complete_archives_load :
  forall (float : Type) (float_of_str : string -> option float)
         (int_of_str : string -> option Z) (zf : archive),
    complete_archive zf = true ->
    (exists self',
        _parse_zip float float_of_str int_of_str (ZipFile zf) __init__
        = Ok (self', true))
    /\ (forall member,
           member_rows member zf <> None ->
           (exists self',
               _parse_zip float float_of_str int_of_str
                 (ZipFile_broken zf member bad_member) __init__
               = Ok (self', false)
               /\ routes self' = [])
           /\ _parse_zip float float_of_str int_of_str
                (ZipFile_broken zf member bad_field) __init__
              = Raise csv_Error
           /\ _parse_zip float float_of_str int_of_str
                (ZipFile_broken zf member bad_encoding) __init__
              = Raise UnicodeDecodeError)
    /\ (forall member e,
           member_rows member zf = None ->
           _parse_zip float float_of_str int_of_str
             (ZipFile_broken zf member e) __init__
           = _parse_zip float float_of_str int_of_str (ZipFile zf) __init__).
Proof.
  intros float float_of_str int_of_str zf Hc.
  assert (Hn : named_stops (@__init__ float)) by (intros entry []).
  split; [|split].
  - exact (parse_zip_complete float float_of_str int_of_str zf __init__ Hc Hn).
  - intros member Hm. split; [|split].
    + destruct (parse_broken_complete float float_of_str int_of_str zf member
                  bad_member __init__ Hc Hn Hm) as (s & Hr & ->).
      exists s. split; [reflexivity | exact Hr].
    + destruct (parse_broken_complete float float_of_str int_of_str zf member
                  bad_field __init__ Hc Hn Hm) as (s & _ & ->).
      reflexivity.
    + destruct (parse_broken_complete float float_of_str int_of_str zf member
                  bad_encoding __init__ Hc Hn Hm) as (s & _ & ->).
      reflexivity.
  - intros member e Hm. cbn [_parse_zip]. unfold parse_broken.
    now rewrite Hm.
Qed.

(** ** More on [load_from_file] *)

Section LoadMore.
Variable float : Type.
Variable float_of_str : string -> option float.
Variable int_of_str : string -> option Z.

Local Abbreviation reparse := (parse_archive float float_of_str int_of_str).
Local Abbreviation load := (load_from_file float float_of_str int_of_str).

(** What re-parsing writes is what it returns. *)
Lemma reparse_writes_result (fs : filesystem float) (self : GtfsParser float)
    (st : odict cell (Stop.t float)) (rt : list (Route.t float)) :
  In (Write_parsed st rt) (fst (reparse fs self)) ->
  parsed_writable fs = true
  /\ exists self', snd (reparse fs self) = Ok (self', true)
                   /\ st = stops self' /\ rt = routes self'.
Proof.
  unfold parse_archive, traced.
  destruct (archive_file fs) as [[zm [data|]]|]; simpl;
    try (intros [H|[]]; discriminate).
  destruct (_parse_zip float float_of_str int_of_str data self)
    as [[s [|]]|[]]; simpl; try (intros [H|[]]; discriminate).
  destruct (parsed_writable fs); intros [H|[H|[]]]; try discriminate.
  injection H as <- <-. eauto.
Qed.

(** The result of re-parsing does not depend on the [.parsed] file. *)
Lemma reparse_result_any_cache (fs fs' : filesystem float)
    (self : GtfsParser float) :
  archive_file fs' = archive_file fs ->
  snd (reparse fs' self) = snd (reparse fs self).
Proof.
  intros H. unfold parse_archive, traced. rewrite H.
  destruct (archive_file fs) as [[zm [data|]]|]; simpl; try reflexivity.
  destruct (_parse_zip float float_of_str int_of_str data self)
    as [[s [|]]|[]]; reflexivity.
Qed.
End LoadMore.

(** X12.  [load_from_file] writes the [.parsed] file only after a parse of
    the archive that returned [True], and what it writes are the stops and
    routes of the parser it returns. *)
Theorem parsed_file_holds_the_result :
  forall (float : Type) (float_of_str : string -> option float)
         (int_of_str : string -> option Z)
         (fs : filesystem float) (self : GtfsParser float)
         (saved_stops : odict cell (Stop.t float))
         (saved_routes : list (Route.t float)),
    In (Write_parsed saved_stops saved_routes)
       (fst (load_from_file float float_of_str int_of_str fs self)) ->
    parsed_writable fs = true
    /\ In Read_archive (fst (load_from_file float float_of_str int_of_str fs self))
    /\ exists self',
        snd (load_from_file float float_of_str int_of_str fs self)
        = Ok (self', true)
        /\ saved_stops = stops self' /\ saved_routes = routes self'.
Proof.
  intros float float_of_str int_of_str fs self st rt.
  assert (Hre : forall s,
             In (Write_parsed st rt)
                (fst (parse_archive float float_of_str int_of_str fs s)) ->
             parsed_writable fs = true
             /\ In Read_archive
                  (fst (parse_archive float float_of_str int_of_str fs s))
             /\ exists self',
                 snd (parse_archive float float_of_str int_of_str fs s)
                 = Ok (self', true)
                 /\ st = stops self' /\ rt = routes self').
  { intros s H.
    destruct (reparse_writes_result float float_of_str int_of_str fs s st rt H)
      as [Hw Hex].
    repeat split; [exact Hw | apply reparse_trace | exact Hex]. }
  unfold load_from_file.
  destruct (parsed_file fs) as [[cm cached]|]; [|apply Hre].
  destruct (archive_file fs) as [[zm contents]|] eqn:Hz; [|intros []].
  destruct (negb (Qle_bool cm zm)).
  - destruct cached as [|cs|cs cr]; unfold traced; cbn [fst snd].
    + intros [H|H]; [discriminate|].
      destruct (Hre self H) as (Hw & Ha & Hex). repeat split; auto.
      now right.
    + intros [H|H]; [discriminate|].
      destruct (Hre _ H) as (Hw & Ha & Hex). repeat split; auto.
      now right.
    + intros [H|[]]. discriminate.
  - apply Hre.
Qed.

(** X13.  Writing the [.parsed] file is best effort: whether it can be
    written changes neither the boolean [load_from_file] returns, nor the
    parser it leaves, nor an exception it lets through. *)
Theorem parsed_file_write_is_best_effort :
  forall (float : Type) (float_of_str : string -> option float)
         (int_of_str : string -> option Z)
         (fs : filesystem float) (self : GtfsParser float) (writable : bool),
    snd (load_from_file float float_of_str int_of_str
           (mkFilesystem float (archive_file fs) (parsed_file fs) writable) self)
    = snd (load_from_file float float_of_str int_of_str fs self).
Proof.
  intros float float_of_str int_of_str fs self writable.
  set (fs' := mkFilesystem float (archive_file fs) (parsed_file fs) writable).
  assert (Ha : archive_file fs' = archive_file fs) by reflexivity.
  assert (Hp : parsed_file fs' = parsed_file fs) by reflexivity.
  clearbody fs'. unfold load_from_file. rewrite Ha, Hp.
  assert (Hre : forall s,
             snd (parse_archive float float_of_str int_of_str fs' s)
             = snd (parse_archive float float_of_str int_of_str fs s)).
  { intros s. now apply reparse_result_any_cache. }
  destruct (parsed_file fs) as [[cm cached]|]; [|apply Hre].
  destruct (archive_file fs) as [[zm contents]|]; [|reflexivity].
  destruct (negb (Qle_bool cm zm)); [|apply Hre].
  destruct cached; unfold traced; cbn [snd]; auto.
Qed.

(** X14.  How [load_from_file] fails.  Without a [.parsed] file, a missing
    or unreadable archive and an archive that is not a ZIP give [False] and
    leave the parser as it was; a [.parsed] file without its archive makes
    the call raise (the [stat] of the archive is not guarded); and an intact
    newer [.parsed] file is loaded even when the archive can no longer be
    read. *)
Theorem load_from_file_failures :
  forall (float : Type) (float_of_str : string -> option float)
         (int_of_str : string -> option Z)
         (fs : filesystem float) (self : GtfsParser float),
    (parsed_file fs = None ->
     (archive_file fs = None
      \/ (exists zip_mtime, archive_file fs = Some (zip_mtime, None))
      \/ (exists zip_mtime, archive_file fs = Some (zip_mtime, Some BadZipFile))) ->
     load_from_file float float_of_str int_of_str fs self
     = ([Read_archive], Ok (self, false)))
    /\ (archive_file fs = None -> parsed_file fs <> None ->
        load_from_file float float_of_str int_of_str fs self
        = ([], Raise OSError))
    /\ (forall zip_mtime cache_mtime cached_stops cached_routes,
           archive_file fs = Some (zip_mtime, None) ->
           parsed_file fs
           = Some (cache_mtime, Pickled float cached_stops cached_routes) ->
           (zip_mtime < cache_mtime)%Q ->
           load_from_file float float_of_str int_of_str fs self
           = ([Read_parsed],
              Ok (set_routes (set_stops self cached_stops) cached_routes, true))).
Proof.
  intros float float_of_str int_of_str fs self. split; [|split].
  - intros Hc Ha. unfold load_from_file, parse_archive, traced. rewrite Hc.
    destruct Ha as [->|[[zm ->]|[zm ->]]]; reflexivity.
  - intros Ha Hc. unfold load_from_file. rewrite Ha.
    destruct (parsed_file fs) as [[cm cached]|]; [reflexivity | congruence].
  - intros zm cm cs cr Ha Hc Hlt. unfold load_from_file.
    rewrite Hc, Ha. apply newer_iff in Hlt. now rewrite Hlt.
Qed.

(** X15.  Saving and loading round-trip: when a call of [load_from_file]
    has written the [.parsed] file, a later call by a new parser that finds
    that content, newer than the archive, returns [True] with the stops and
    routes the first call returned, without opening the archive. *)
Theorem parsed_file_round_trip :
  forall (float : Type) (float_of_str : string -> option float)
         (int_of_str : string -> option Z)
         (fs fs' : filesystem float) (self : GtfsParser float)
         (saved_stops : odict cell (Stop.t float))
         (saved_routes : list (Route.t float))
         (zip_mtime cache_mtime : Q) (contents : option zip_data),
    In (Write_parsed saved_stops saved_routes)
       (fst (load_from_file float float_of_str int_of_str fs self)) ->
    archive_file fs' = Some (zip_mtime, contents) ->
    parsed_file fs' = Some (cache_mtime, Pickled float saved_stops saved_routes) ->
    (zip_mtime < cache_mtime)%Q ->
    exists first second,
      snd (load_from_file float float_of_str int_of_str fs self)
      = Ok (first, true)
      /\ load_from_file float float_of_str int_of_str fs' __init__
         = ([Read_parsed], Ok (second, true))
      /\ stops second = stops first
      /\ routes second = routes first.
Proof.
  intros float float_of_str int_of_str fs fs' self st rt zm cm contents
         Hw Ha Hc Hlt.
  assert (Hfirst : exists self',
             snd (load_from_file float float_of_str int_of_str fs self)
             = Ok (self', true)
             /\ st = stops self' /\ rt = routes self').
  { revert Hw. unfold load_from_file.
    assert (Hre : forall s,
               In (Write_parsed st rt)
                  (fst (parse_archive float float_of_str int_of_str fs s)) ->
               exists self',
                 snd (parse_archive float float_of_str int_of_str fs s)
                 = Ok (self', true)
                 /\ st = stops self' /\ rt = routes self').
    { intros s H.
      apply (reparse_writes_result float float_of_str int_of_str fs s st rt H). }
    destruct (parsed_file fs) as [[cm0 cached]|]; [|apply Hre].
    destruct (archive_file fs) as [[zm0 contents0]|] eqn:Hz; [|intros []].
    destruct (negb (Qle_bool cm0 zm0)).
    - destruct cached as [|cs|cs cr]; unfold traced; cbn [fst snd].
      + intros [H|H]; [discriminate | now apply Hre].
      + intros [H|H]; [discriminate | now apply Hre].
      + intros [H|[]]. discriminate.
    - apply Hre. }
  destruct Hfirst as (first & Hres & -> & ->).
  exists first. eexists. split; [exact Hres|]. split.
  - unfold load_from_file. rewrite Hc, Ha.
    apply newer_iff in Hlt. rewrite Hlt. reflexivity.
  - split; reflexivity.
Qed.

(** ** [load_from_url] *)

Section UrlFacts.
Variable float : Type.
Variable float_of_str : string -> option float.
Variable int_of_str : string -> option Z.
Variable cache_age_days : Q -> Q -> Q.

Local Abbreviation from_url :=
  (load_from_url float float_of_str int_of_str cache_age_days).

Lemma download_trace (env : url_env float) (self : GtfsParser float) :
  In Download (fst (download float float_of_str int_of_str env self))
  /\ forall ev,
      ~ In (File_io ev) (fst (download float float_of_str int_of_str env self)).
Proof.
  unfold download. destruct (response env); simpl.
  - split; [now left|]. intros ev [H|[H|[]]]; [discriminate|].
    destruct (cache_writable env); discriminate.
  - split; [now left|]. intros ev [H|[]]. discriminate.
Qed.
End UrlFacts.

(** X16.  [load_from_url] goes to the network exactly when the cache
    directory is there and the download is forced, or no cached archive
    exists, or the cached archive is not younger than [cache_days] days. *)
Theorem download_decision :
  forall (float : Type) (float_of_str : string -> option float)
         (int_of_str : string -> option Z) (cache_age_days : Q -> Q -> Q)
         (env : url_env float) (self : GtfsParser float)
         (force_download : bool) (cache_days : Z),
    In Download
       (fst (load_from_url float float_of_str int_of_str cache_age_days
               env self force_download cache_days))
    <-> cache_dir_ok env = true
        /\ (force_download = true
            \/ archive_file (cache_files env) = None
            \/ exists mtime contents,
                archive_file (cache_files env) = Some (mtime, contents)
                /\ (inject_Z cache_days <= cache_age_days (time_time env) mtime)%Q).
Proof.
  intros float float_of_str int_of_str cache_age_days env self force days.
  pose proof (download_trace float float_of_str int_of_str env self) as [Hd _].
  unfold load_from_url.
  destruct (cache_dir_ok env); cbn [negb].
  2:{ split; [intros [] | intros [[=] _]]. }
  destruct force; cbn [negb].
  { split; [intros _; auto | intros _; exact Hd]. }
  destruct (archive_file (cache_files env)) as [[mtime contents]|].
  2:{ split; [intros _; auto | intros _; exact Hd]. }
  destruct (negb (Qle_bool (inject_Z days) (cache_age_days (time_time env) mtime)))
    eqn:F.
  - cbn [fst]. split.
    + intros H. apply in_map_iff in H. destruct H as (ev & [=] & _).
    + intros [_ [[=]|[[=]|(m & c & [= <- <-] & Hle)]]].
      apply not_newer_iff in Hle. congruence.
  - split; [|intros _; exact Hd].
    intros _. split; [reflexivity|]. right. right.
    exists mtime, contents. split; [reflexivity|].
    now apply not_newer_iff.
Qed.

(** X17.  Once [load_from_url] goes to the network, the cached archive and
    its [.parsed] file play no part: no file is read, a failed download
    gives [False] with the parser as it was (a stale archive is not used
    instead), and a successful one gives what parsing the downloaded content
    gives, whether or not the content could be written to the cache. *)
Theorem download_ignores_the_cache :
  forall (float : Type) (float_of_str : string -> option float)
         (int_of_str : string -> option Z) (cache_age_days : Q -> Q -> Q)
         (env : url_env float) (self : GtfsParser float)
         (force_download : bool) (cache_days : Z),
    In Download
       (fst (load_from_url float float_of_str int_of_str cache_age_days
               env self force_download cache_days)) ->
    (forall ev,
        ~ In (File_io ev)
            (fst (load_from_url float float_of_str int_of_str cache_age_days
                    env self force_download cache_days)))
    /\ snd (load_from_url float float_of_str int_of_str cache_age_days
              env self force_download cache_days)
       = match response env with
         | None => Ok (self, false)
         | Some content => _parse_zip float float_of_str int_of_str content self
         end.
Proof.
  intros float float_of_str int_of_str cache_age_days env self force days.
  pose proof (download_trace float float_of_str int_of_str env self) as [_ Hn].
  assert (Hd : snd (download float float_of_str int_of_str env self)
               = match response env with
                 | None => Ok (self, false)
                 | Some content =>
                     _parse_zip float float_of_str int_of_str content self
                 end).
  { unfold download. now destruct (response env). }
  unfold load_from_url.
  destruct (cache_dir_ok env); cbn [negb]; [|intros []].
  destruct (if negb force then archive_file (cache_files env) else None)
    as [[mtime contents]|]; [|auto].
  destruct (negb (Qle_bool (inject_Z days) (cache_age_days (time_time env) mtime)));
    [|auto].
  cbn [fst]. intros H. apply in_map_iff in H. destruct H as (ev & [=] & _).
Qed.

(** X18.  When [load_from_url] does not go to the network and the cache
    directory is there, it does what [load_from_file] does on the cached
    archive: the same file operations and the same result. *)
Theorem fresh_cache_is_loaded_from_file :
  forall (float : Type) (float_of_str : string -> option float)
         (int_of_str : string -> option Z) (cache_age_days : Q -> Q -> Q)
         (env : url_env float) (self : GtfsParser float)
         (force_download : bool) (cache_days : Z),
    cache_dir_ok env = true ->
    ~ In Download
        (fst (load_from_url float float_of_str int_of_str cache_age_days
                env self force_download cache_days)) ->
    load_from_url float float_of_str int_of_str cache_age_days
      env self force_download cache_days
    = (map File_io
         (fst (load_from_file float float_of_str int_of_str
                 (cache_files env) self)),
       snd (load_from_file float float_of_str int_of_str (cache_files env) self)).
Proof.
  intros float float_of_str int_of_str cache_age_days env self force days Hok.
  pose proof (download_trace float float_of_str int_of_str env self) as [Hd _].
  unfold load_from_url. rewrite Hok. cbn [negb].
  destruct (if negb force then archive_file (cache_files env) else None)
    as [[mtime contents]|]; [|intros H; contradiction].
  destruct (negb (Qle_bool (inject_Z days) (cache_age_days (time_time env) mtime)));
    [reflexivity | intros H; contradiction].
Qed.

(** ** [parser_to_geojson] *)

Lemma set_add_In (x y : Z) (s : list Z) :
  In y (set_add x s) <-> y = x \/ In y s.
Proof.
  unfold set_add. destruct (existsb (Z.eqb x) s) eqn:E.
  - split; [auto|]. intros [->|H]; [|exact H].
    apply existsb_exists in E. destruct E as (z & Hz & Hxz).
    apply Z.eqb_eq in Hxz. now subst z.
  - rewrite in_app_iff. simpl. intuition.
Qed.

Lemma set_add_NoDup (x : Z) (s : list Z) : NoDup s -> NoDup (set_add x s).
Proof.
  intros Hs. unfold set_add. destruct (existsb (Z.eqb x) s) eqn:E; [assumption|].
  assert (Hx : ~ In x s).
  { intros Hin. assert (existsb (Z.eqb x) s = true); [|congruence].
    apply existsb_exists. exists x. split; [assumption | apply Z.eqb_refl]. }
  clear E. induction Hs as [|y s Hy Hs IH]; simpl.
  - constructor; [tauto | constructor].
  - constructor.
    + rewrite in_app_iff. simpl. intros [H|[H|[]]]; [tauto|].
      apply Hx. left. congruence.
    + apply IH. intros H. apply Hx. now right.
Qed.

(** A list without repetition has two members or more exactly when it has
    two different members. *)
Lemma two_members (s : list Z) :
  NoDup s ->
  ((1 <? List.length s)%nat = true
   <-> exists x y, In x s /\ In y s /\ x <> y).
Proof.
  intros Hs. rewrite Nat.ltb_lt. split.
  - destruct s as [|x [|y s]]; simpl; try lia. intros _.
    exists x, y. repeat split; auto.
    inversion Hs as [|? ? Hx _]; subst. intros ->. apply Hx. now left.
  - intros (x & y & Hx & Hy & Hne).
    destruct s as [|a [|b s]]; simpl in *; [tauto | | lia].
    destruct Hx as [<-|[]], Hy as [<-|[]]. congruence.
Qed.

Section GeoFacts.
Variable float : Type.
Variable parser : GtfsParser float.

Local Abbreviation drawn :=
  (fun route : Route.t float =>
     (2 <=? List.length (route_coords float parser route))%nat).

Local Abbreviation track_route :=
  (fun (by_type : odict cell (list Z)) (route : Route.t float) =>
     fold_left (track_stop (Route.route_type route)) (Route.stop_ids route)
       by_type).

(** The loop over the routes: lines for the routes with two coordinates
    or more, whose stops are tracked. *)
Lemma fold_add_route (rs : list (Route.t float)) :
  forall acc,
  fold_left (add_route float parser) rs acc
  = (fst acc ++ map (line_feature float parser) (filter drawn rs),
     fold_left track_route (filter drawn rs) (snd acc)).
Proof.
  induction rs as [|r rs IH]; intros [fs d]; cbn [fold_left filter map fst snd].
  - now rewrite app_nil_r.
  - rewrite IH. unfold add_route. rewrite Nat.ltb_antisym.
    destruct (2 <=? List.length (route_coords float parser r))%nat;
      cbn [negb fst snd map fold_left]; [|reflexivity].
    now rewrite <- app_assoc.
Qed.

(** The tracking dictionary: its keys stay distinct, its sets stay without
    repetition, and a type is in the set of a stop when it was or when a
    tracked route of that type passes there. *)
Lemma track_stop_spec (ty : Z) (d : odict cell (list Z)) (s s' : cell) :
  OrderedDict.get_default cell_eqb s' [] (track_stop ty d s)
  = if cell_eqb s' s
    then set_add ty (OrderedDict.get_default cell_eqb s [] d)
    else OrderedDict.get_default cell_eqb s' [] d.
Proof. unfold track_stop. apply (get_default_set cell_eqb cell_eqb_spec). Qed.

Lemma track_stops_spec (ty : Z) (ids : list cell) :
  forall d, tracked_well d ->
  tracked_well (fold_left (track_stop ty) ids d)
  /\ (forall s x,
         In x (OrderedDict.get_default cell_eqb s []
                 (fold_left (track_stop ty) ids d))
         <-> In x (OrderedDict.get_default cell_eqb s [] d)
             \/ (x = ty /\ In s ids))
  /\ (forall s,
         In s (OrderedDict.keys (fold_left (track_stop ty) ids d))
         <-> In s (OrderedDict.keys d) \/ In s ids).
Proof.
  induction ids as [|i ids IH]; intros d [Hk Hv]; simpl.
  - repeat split; auto; tauto.
  - assert (Hw : tracked_well (track_stop ty d i)).
    { split.
      - now apply (DictFacts.NoDup_keys_set cell_eqb cell_eqb_spec).
      - intros s. rewrite track_stop_spec.
        destruct (cell_eqb s i); [apply set_add_NoDup|]; apply Hv. }
    destruct (IH _ Hw) as (Hw' & Hin & Hkeys). split; [exact Hw'|]. split.
    + intros s x. rewrite Hin, track_stop_spec.
      destruct (cell_eqb_spec s i) as [->|Hne].
      * rewrite set_add_In. intuition.
      * intuition. congruence.
    + intros s. rewrite Hkeys. unfold track_stop.
      rewrite <- !(mem_keys cell_eqb cell_eqb_spec).
      rewrite (mem_set cell_eqb cell_eqb_spec), orb_true_iff, cell_eqb_eq.
      intuition.
Qed.

Lemma track_routes_spec (rs : list (Route.t float)) :
  forall d, tracked_well d ->
  tracked_well (fold_left track_route rs d)
  /\ (forall s x,
         In x (OrderedDict.get_default cell_eqb s [] (fold_left track_route rs d))
         <-> In x (OrderedDict.get_default cell_eqb s [] d)
             \/ exists r, In r rs /\ In s (Route.stop_ids r)
                          /\ Route.route_type r = x)
  /\ (forall s,
         In s (OrderedDict.keys (fold_left track_route rs d))
         <-> In s (OrderedDict.keys d)
             \/ exists r, In r rs /\ In s (Route.stop_ids r)).
Proof.
  induction rs as [|r rs IH]; intros d Hd; simpl.
  - split; [exact Hd|].
    split; intros s; [intros x|];
      (split; [auto | intros [H|(r & [] & _)]; exact H]).
  - destruct (track_stops_spec (Route.route_type r) (Route.stop_ids r) d Hd)
      as (Hw & Hin & Hkeys).
    destruct (IH _ Hw) as (Hw' & Hin' & Hkeys'). split; [exact Hw'|]. split.
    + intros s x. rewrite Hin', Hin. split.
      * intros [[H|[-> Hs]]|(r' & Hr' & Hs & Ht)]; eauto 6.
      * intros [H|(r' & [<-|Hr'] & Hs & Ht)]; eauto 6.
    + intros s. rewrite Hkeys', Hkeys. split.
      * intros [[H|Hs]|(r' & Hr' & Hs)]; eauto 6.
      * intros [H|(r' & [<-|Hr'] & Hs)]; eauto 6.
Qed.
End GeoFacts.

Section GeoJsonFacts.
Variable float : Type.
Variable parser : GtfsParser float.

Local Abbreviation drawn :=
  (fun route : Route.t float =>
     (2 <=? List.length (route_coords float parser route))%nat).

Local Abbreviation by_type :=
  (fold_left
     (fun (d : odict cell (list Z)) (route : Route.t float) =>
        fold_left (track_stop (Route.route_type route)) (Route.stop_ids route) d)
     (filter drawn (routes parser)) []).

Lemma geojson_unfold :
  parser_to_geojson float parser
  = map (line_feature float parser) (filter drawn (routes parser))
    ++ flat_map (stop_feature float parser) by_type.
Proof.
  unfold parser_to_geojson. rewrite fold_add_route. reflexivity.
Qed.

Lemma tracked_well_nil : tracked_well [].
Proof. split; [constructor | intros s; constructor]. Qed.

(** A point of the collection comes from an entry of the tracking
    dictionary whose stop is known. *)
Lemma point_origin (c : float * float) (id name : cell) (tys : list Z)
    (tr : bool) :
  In (Point c id name tys tr) (parser_to_geojson float parser) ->
  In (id, tys) by_type
  /\ exists stop,
      OrderedDict.get cell_eqb id (stops parser) = Some stop
      /\ c = (Stop.lng stop, Stop.lat stop)
      /\ name = Stop.name stop
      /\ tr = (1 <? List.length tys)%nat.
Proof.
  rewrite geojson_unfold, in_app_iff. intros [H|H].
  - apply in_map_iff in H. destruct H as (r & [=] & _).
  - apply in_flat_map in H. destruct H as ([s tys'] & He & Hf).
    unfold stop_feature in Hf. cbn [fst snd] in Hf.
    destruct (OrderedDict.get cell_eqb s (stops parser)) as [stop|] eqn:G;
      [|destruct Hf].
    destruct Hf as [[= <- <- <- <- <-]|[]].
    split; [exact He|]. exists stop. auto.
Qed.

Lemma by_type_spec :
  tracked_well by_type
  /\ (forall s x,
         In x (OrderedDict.get_default cell_eqb s [] by_type)
         <-> exists r, In r (routes parser) /\ drawn r = true
                       /\ In s (Route.stop_ids r) /\ Route.route_type r = x)
  /\ (forall s,
         In s (OrderedDict.keys by_type)
         <-> exists r, In r (routes parser) /\ drawn r = true
                       /\ In s (Route.stop_ids r)).
Proof.
  destruct (track_routes_spec float (filter drawn (routes parser)) []
              tracked_well_nil) as (Hw & Hin & Hkeys).
  split; [exact Hw|]. split.
  - intros s x. rewrite Hin. cbn. split.
    + intros [[]|(r & Hr & Hs & Ht)]. apply filter_In in Hr.
      exists r. tauto.
    + intros (r & Hr & Hd & Hs & Ht). right. exists r.
      rewrite filter_In. tauto.
  - intros s. rewrite Hkeys. cbn. split.
    + intros [[]|(r & Hr & Hs)]. apply filter_In in Hr. exists r. tauto.
    + intros (r & Hr & Hd & Hs). right. exists r. rewrite filter_In. tauto.
Qed.
End GeoJsonFacts.

(** X19.  The collection [parser_to_geojson] builds holds first one line
    per route that has two coordinates or more, in the order of the routes,
    then points only; no line has fewer than two coordinates. *)
Theorem geojson_lines_then_points :
  forall (float : Type) (parser : GtfsParser float),
    exists points,
      parser_to_geojson float parser
      = map (line_feature float parser)
          (filter (fun route =>
                     (2 <=? List.length (route_coords float parser route))%nat)
                  (routes parser))
        ++ points
      /\ (forall f, In f points ->
            exists c id name tys tr, f = Point c id name tys tr)
      /\ (forall c id name ty ty_name color,
             In (LineString c id name ty ty_name color)
                (parser_to_geojson float parser) ->
             (2 <= List.length c)%nat).
Proof.
  intros float parser. eexists. split; [apply geojson_unfold|].
  assert (Hpoints : forall f,
             In f (flat_map (stop_feature float parser)
                     (fold_left
                        (fun d route =>
                           fold_left (track_stop (Route.route_type route))
                             (Route.stop_ids route) d)
                        (filter (fun route =>
                                   (2 <=? List.length
                                            (route_coords float parser route))%nat)
                                (routes parser)) [])) ->
             exists c id name tys tr, f = Point c id name tys tr).
  { intros f Hf. apply in_flat_map in Hf. destruct Hf as (e & _ & Hf).
    unfold stop_feature in Hf.
    destruct (OrderedDict.get cell_eqb (fst e) (stops parser)); [|destruct Hf].
    destruct Hf as [<-|[]]. repeat eexists. }
  split; [exact Hpoints|].
  intros c id name ty tn col. rewrite geojson_unfold, in_app_iff.
  intros [H|H].
  - apply in_map_iff in H. destruct H as (r & Hline & Hr).
    apply filter_In in Hr. destruct Hr as [_ Hd].
    unfold line_feature in Hline. injection Hline as <- _ _ _ _ _.
    now apply Nat.leb_le.
  - destruct (Hpoints _ H) as (? & ? & ? & ? & ? & [=]).
Qed.

(** X20.  A point of the collection is a stop of the stops table, with its
    coordinates as [lng, lat] and its name; its route types are, without
    repetition, the types of the drawn routes that pass there, and it is a
    transfer exactly when two drawn routes of different types pass
    there. *)
Theorem geojson_point_describes_stop :
  forall (float : Type) (parser : GtfsParser float)
         (c : float * float) (id name : cell) (tys : list Z) (tr : bool),
    In (Point c id name tys tr) (parser_to_geojson float parser) ->
    let drawn route :=
      (2 <=? List.length (route_coords float parser route))%nat = true in
    (exists stop,
        OrderedDict.get cell_eqb id (stops parser) = Some stop
        /\ c = (Stop.lng stop, Stop.lat stop) /\ name = Stop.name stop)
    /\ NoDup tys
    /\ (forall ty,
           In ty tys
           <-> exists r, In r (routes parser) /\ drawn r
                         /\ In id (Route.stop_ids r) /\ Route.route_type r = ty)
    /\ (tr = true
        <-> exists r1 r2,
            In r1 (routes parser) /\ drawn r1 /\ In id (Route.stop_ids r1)
            /\ In r2 (routes parser) /\ drawn r2 /\ In id (Route.stop_ids r2)
            /\ Route.route_type r1 <> Route.route_type r2).
Proof.
  intros float parser c id name tys tr H drawn.
  apply point_origin in H. destruct H as (He & stop & Hg & Hc & Hn & Htr).
  destruct (by_type_spec float parser) as ([Hk Hv] & Hin & _).
  apply (DictFacts.In_get cell_eqb cell_eqb_spec) in He; [|exact Hk].
  assert (Htys : OrderedDict.get_default cell_eqb id []
                   (fold_left
                      (fun d route =>
                         fold_left (track_stop (Route.route_type route))
                           (Route.stop_ids route) d)
                      (filter (fun route =>
                                 (2 <=? List.length
                                          (route_coords float parser route))%nat)
                              (routes parser)) []) = tys).
  { unfold OrderedDict.get_default. now rewrite He. }
  assert (Hnd : NoDup tys) by (rewrite <- Htys; apply Hv).
  assert (Hmem : forall ty,
             In ty tys
             <-> exists r, In r (routes parser) /\ drawn r
                           /\ In id (Route.stop_ids r)
                           /\ Route.route_type r = ty).
  { intros ty. rewrite <- Htys. apply Hin. }
  split; [eauto|]. split; [exact Hnd|]. split; [exact Hmem|].
  rewrite Htr, (two_members tys Hnd). split.
  - intros (x & y & Hx & Hy & Hne).
    apply Hmem in Hx, Hy.
    destruct Hx as (r1 & H1 & D1 & S1 & T1), Hy as (r2 & H2 & D2 & S2 & T2).
    exists r1, r2. repeat split; auto. congruence.
  - intros (r1 & r2 & H1 & D1 & S1 & H2 & D2 & S2 & Hne).
    exists (Route.route_type r1), (Route.route_type r2).
    repeat split; [apply Hmem; eauto | apply Hmem; eauto | exact Hne].
Qed.

(** X21.  Every known stop of a drawn route gets a point, and no stop gets
    two: the ids of the points of the collection are pairwise distinct. *)
Theorem geojson_one_point_per_stop :
  forall (float : Type) (parser : GtfsParser float),
    (forall route stop_id,
        In route (routes parser) ->
        (2 <=? List.length (route_coords float parser route))%nat = true ->
        In stop_id (Route.stop_ids route) ->
        OrderedDict.mem cell_eqb stop_id (stops parser) = true ->
        exists c name tys tr,
          In (Point c stop_id name tys tr) (parser_to_geojson float parser))
    /\ NoDup (flat_map (fun f => match f with
                                 | Point _ id _ _ _ => [id]
                                 | LineString _ _ _ _ _ _ => []
                                 end)
                (parser_to_geojson float parser)).
Proof.
  intros float parser.
  destruct (by_type_spec float parser) as ([Hk _] & _ & Hkeys).
  split.
  - intros route stop_id Hr Hd Hs Hm.
    assert (Hin : In stop_id
                    (OrderedDict.keys
                       (fold_left
                          (fun d route =>
                             fold_left (track_stop (Route.route_type route))
                               (Route.stop_ids route) d)
                          (filter (fun route =>
                                     (2 <=? List.length
                                              (route_coords float parser route))%nat)
                                  (routes parser)) []))).
    { apply Hkeys. exists route. auto. }
    apply in_map_iff in Hin. destruct Hin as ([s tys] & Hfst & He).
    cbn [fst] in Hfst. subst s.
    unfold OrderedDict.mem in Hm.
    destruct (OrderedDict.get cell_eqb stop_id (stops parser)) as [stop|] eqn:G;
      [|discriminate].
    exists (Stop.lng stop, Stop.lat stop), (Stop.name stop), tys,
      (1 <? List.length tys)%nat.
    rewrite geojson_unfold. apply in_or_app. right.
    apply in_flat_map. exists (stop_id, tys). split; [exact He|].
    unfold stop_feature. cbn [fst snd]. rewrite G. now left.
  - rewrite geojson_unfold, flat_map_app.
    assert (Hlines : forall rs,
               flat_map (fun f => match f with
                                  | Point _ id _ _ _ => [id]
                                  | LineString _ _ _ _ _ _ => []
                                  end)
                 (map (line_feature float parser) rs) = []).
    { induction rs as [|r rs IH]; [reflexivity | exact IH]. }
    rewrite Hlines. cbn [app].
    revert Hk.
    generalize (fold_left
                  (fun d route =>
                     fold_left (track_stop (Route.route_type route))
                       (Route.stop_ids route) d)
                  (filter (fun route =>
                             (2 <=? List.length
                                      (route_coords float parser route))%nat)
                          (routes parser)) (@nil (cell * list Z))).
    intros d. induction d as [|[s tys] d IH]; intros Hnd; [constructor|].
    cbn [OrderedDict.keys map fst] in Hnd.
    apply NoDup_cons_iff in Hnd. destruct Hnd as [Hnotin Hnd'].
    cbn [flat_map]. rewrite flat_map_app.
    unfold stop_feature at 1. cbn [fst snd].
    destruct (OrderedDict.get cell_eqb s (stops parser)); cbn; [|auto].
    constructor; [|auto].
    intros Hin. apply Hnotin.
    apply in_flat_map in Hin. destruct Hin as (f & Hf & Hid).
    apply in_flat_map in Hf. destruct Hf as ([s' tys'] & He & Hf).
    unfold stop_feature in Hf. cbn [fst snd] in Hf.
    destruct (OrderedDict.get cell_eqb s' (stops parser)); [|destruct Hf].
    destruct Hf as [<-|[]]. destruct Hid as [->|[]].
    change s with (fst (s, tys')). now apply in_map.
Qed.

(** ** From the parser to the map *)

Lemma known_stops_coords (float : Type) (parser : GtfsParser float)
    (ids : list cell) :
  (forall s, In s ids -> OrderedDict.mem cell_eqb s (stops parser) = true) ->
  List.length
    (flat_map (fun stop_id =>
                 match OrderedDict.get cell_eqb stop_id (stops parser) with
                 | Some stop => [(Stop.lng stop, Stop.lat stop)]
                 | None => []
                 end) ids)
  = List.length ids.
Proof.
  induction ids as [|i ids IH]; intros Hall; [reflexivity|].
  cbn [flat_map]. rewrite length_app, IH by (intros s Hs; apply Hall; now right).
  specialize (Hall i (or_introl eq_refl)). unfold OrderedDict.mem in Hall.
  destruct (OrderedDict.get cell_eqb i (stops parser)); [reflexivity|discriminate].
Qed.

(** X22.  The routes of a parser that started without routes and ran
    [_build_routes] are all drawn by [parser_to_geojson] from their stops
    when they have no shape, one coordinate per stop id; a built route is
    left out exactly when its shape has a single point, however many stops
    it has. *)
Theorem built_routes_are_drawn :
  forall (float : Type) (self self' : GtfsParser float),
    routes self = [] ->
    _build_routes float self = Ok self' ->
    forall r, In r (routes self') ->
      (Route.shape_coords r = [] ->
       List.length (route_coords float self' r) = List.length (Route.stop_ids r))
      /\ ((2 <=? List.length (route_coords float self' r))%nat = true
          <-> List.length (Route.shape_coords r) <> 1%nat).
Proof.
  intros float self self' Hempty H r Hr.
  destruct (group_trips float self) as [rt|e] eqn:Hg;
    [|unfold _build_routes in H; rewrite Hg in H; discriminate].
  rewrite (build_routes_emitted float self rt Hg) in H. injection H as <-.
  cbn [routes set_routes] in Hr. rewrite Hempty in Hr. cbn [app] in Hr.
  apply emitted_origin in Hr. destruct Hr as (entry & _ & Hb).
  destruct (build_route_cases float self entry) as [E|(best & _ & Hlen & E)];
    rewrite E in Hb; [discriminate|].
  injection Hb as <-.
  unfold route_coords. cbn [Route.shape_coords Route.stop_ids stops set_routes].
  assert (Hknown : List.length
                     (flat_map
                        (fun stop_id =>
                           match OrderedDict.get cell_eqb stop_id (stops self) with
                           | Some stop => [(Stop.lng stop, Stop.lat stop)]
                           | None => []
                           end)
                        (filter (known_stop float self) (fst best)))
                   = List.length (filter (known_stop float self) (fst best))).
  { apply known_stops_coords. intros s Hs. now apply filter_In in Hs. }
  destruct (OrderedDict.get_default cell_eqb (snd best) [] (_shapes self))
    as [|p [|q shape]].
  - split; [intros _; exact Hknown|].
    rewrite Hknown. split; [intros _; discriminate|].
    intros _. now apply Nat.leb_le.
  - split; [discriminate|]. cbn. split; [discriminate | congruence].
  - split; [discriminate|]. cbn. split; [discriminate | reflexivity].
Qed.

(** * The further properties on the example data *)

Lemma normalize_route_type_on_codes_witness :
  0 <= normalize_route_type 109 <= 7
  /\ normalize_route_type (normalize_route_type 1000) = normalize_route_type 1000
  /\ normalize_route_type (-5) = -5.
Proof.
  destruct normalize_route_type_on_codes as (Hrange & Hidem & Hsame).
  split; [apply Hrange; lia|]. split; [apply Hidem|]. apply Hsame. lia.
Defined.

Lemma stops_stay_consistent_witness :
  stops_consistent (@__init__ Z)
  /\ _parse_stops Z decimal_of_str (example_stops ++ example_stops) __init__
     = Ok (set_stops __init__ (stops loop_state))
  /\ stops_consistent (set_stops (@__init__ Z) (stops loop_state)).
Proof.
  assert (H0 : stops_consistent (@__init__ Z)).
  { split; [constructor | intros k stop []]. }
  split; [exact H0|]. split; [reflexivity|].
  apply (stops_stay_consistent Z decimal_of_str (example_stops ++ example_stops)
           __init__ _ H0).
  reflexivity.
Defined.

Lemma stops_rows_effect_witness :
  OrderedDict.get cell_eqb (Some "B")
    (stops (set_stops (@__init__ Z) (stops loop_state)))
  = Some (Stop.mk Z (Some "B") (Some "") 3 4)
  /\ OrderedDict.get cell_eqb (Some "C")
       (stops (set_stops (@__init__ Z) (stops loop_state)))
     = OrderedDict.get cell_eqb (Some "C") (stops (@__init__ Z)).
Proof.
  destruct (stops_rows_effect Z decimal_of_str) as [Hlast Hnone].
  split.
  - apply (Hlast [ [("stop_id", Some "A"); ("stop_lat", Some "1");
                    ("stop_lon", Some "2")] ]
                 [ [("stop_id", Some "B"); ("stop_lat", Some "north");
                    ("stop_lon", Some "4")] ]
                 [("stop_id", Some "B"); ("stop_lat", Some "3");
                  ("stop_lon", Some "4")]
                 __init__ _ (Some "B") "3" "4" 3 4);
      try reflexivity.
    intros r' [<-|[]] _. right. right. left. exists "north".
    split; reflexivity.
  - apply (Hnone (example_stops ++ [textual_lat_row]) __init__ _ (Some "C")).
    + intros r [<-|[<-|[<-|[]]]]; try discriminate.
      intros _. right. right. left. exists "north". split; reflexivity.
    + reflexivity.
Defined.

Lemma trips_rows_never_raise_witness :
  exists self',
    _parse_trips Z [ [("trip_id", Some "T1"); ("route_id", None)];
                     [("trip_id", None); ("route_id", Some "R1");
                      ("shape_id", Some "S")] ] __init__
    = Ok self'
    /\ reading Z (_parse_trips Z)
         [ [("trip_id", Some "T1"); ("route_id", None)];
           [("trip_id", None); ("route_id", Some "R1");
            ("shape_id", Some "S")] ] (Some bad_field) __init__
       = Raise csv_Error
    /\ (trips_consistent (@__init__ Z) -> trips_consistent self')
    /\ stops self' = stops (@__init__ Z)
    /\ routes self' = routes (@__init__ Z)
    /\ _trip_stops self' = _trip_stops (@__init__ Z).
Proof.
  exact (trips_rows_never_raise Z
           [ [("trip_id", Some "T1"); ("route_id", None)];
             [("trip_id", None); ("route_id", Some "R1");
              ("shape_id", Some "S")] ] (Some bad_field) __init__).
Defined.

Lemma stop_times_only_for_known_trips_witness :
  _parse_stop_times Z decimal_of_str loop_stop_times
    (set_trip_stops loop_state [])
  = Ok loop_state
  /\ forall trip_id,
      In trip_id (OrderedDict.keys (_trip_stops loop_state)) ->
      OrderedDict.mem cell_eqb trip_id
        (_trip_to_route (set_trip_stops loop_state [])) = true.
Proof.
  split; [reflexivity|].
  apply (stop_times_only_for_known_trips Z decimal_of_str loop_stop_times
           (set_trip_stops loop_state []) loop_state eq_refl).
  intros trip_id [].
Defined.

Lemma stop_times_in_input_order_witness :
  OrderedDict.get_default cell_eqb (Some "T1") [] (_trip_stops loop_state)
  = OrderedDict.get_default cell_eqb (Some "T1") []
      (_trip_stops (set_trip_stops loop_state []))
    ++ flat_map (fun r =>
                   stop_time_row_entries decimal_of_str
                     (set_trip_stops loop_state []) r (Some "T1"))
         loop_stop_times
  /\ stop_time_row_entries decimal_of_str loop_state
       [("trip_id", Some "T1"); ("stop_id", Some "B"); ("stop_sequence", Some "2")]
       (Some "T1")
     = [(2, Some "B")]
  /\ stop_time_row_entries decimal_of_str loop_state
       [("trip_id", Some "T9"); ("stop_id", Some "B"); ("stop_sequence", None)]
       (Some "T9")
     = [].
Proof.
  destruct (stop_times_in_input_order Z decimal_of_str) as (Horder & Hrow & Hskip).
  split; [|split].
  - apply (Horder loop_stop_times (set_trip_stops loop_state []) loop_state).
    reflexivity.
  - apply (Hrow loop_state _ (Some "T1") (Some "B") "2" 2); reflexivity.
  - apply (Hskip loop_state _ (Some "T9")); reflexivity.
Defined.

Lemma shapes_without_rows_untouched_witness :
  _parse_shapes Z decimal_of_str decimal_of_str unordered_shape_rows
    (set_shapes __init__ [(Some "T", [(7, 7)])])
  = Ok (set_shapes __init__
          [(Some "T", [(7, 7)]); (Some "S", [(0, 0); (5, 5); (10, 10)])])
  /\ OrderedDict.get cell_eqb (Some "T")
       (_shapes (set_shapes (@__init__ Z)
                   [(Some "T", [(7, 7)]); (Some "S", [(0, 0); (5, 5); (10, 10)])]))
     = OrderedDict.get cell_eqb (Some "T")
         (_shapes (set_shapes (@__init__ Z) [(Some "T", [(7, 7)])])).
Proof.
  split; [reflexivity|].
  apply (shapes_without_rows_untouched Z decimal_of_str decimal_of_str
           unordered_shape_rows (set_shapes __init__ [(Some "T", [(7, 7)])])
           _ (Some "T") eq_refl).
  reflexivity.
Defined.

Lemma emitted_routes_have_distinct_ids_witness :
  _build_routes Z two_trip_state = Ok two_trip_built
  /\ exists emitted,
      routes two_trip_built = routes two_trip_state ++ emitted
      /\ NoDup (map Route.id emitted)
      /\ forall r, In r emitted ->
           truthy (Route.id r) = true
           /\ trips_of_route Z two_trip_state (Route.id r) <> [].
Proof.
  split; [reflexivity|].
  apply (emitted_routes_have_distinct_ids Z two_trip_state two_trip_built).
  reflexivity.
Defined.

Lemma emitted_routes_are_typed_witness :
  _build_routes Z loop_state = Ok loop_built
  /\ exists emitted,
      routes loop_built = routes loop_state ++ emitted
      /\ (forall r, In r emitted ->
            match OrderedDict.get cell_eqb (Route.id r) (_route_info loop_state) with
            | Some (name, raw_type) =>
                Route.name r = name
                /\ Route.route_type r = normalize_route_type raw_type
            | None =>
                Route.name r = Some "Unknown" /\ Route.route_type r = 3
            end)
      /\ ((forall id name raw_type,
              In (id, (name, raw_type)) (_route_info loop_state) ->
              0 <= raw_type) ->
          forall r, In r emitted -> 0 <= Route.route_type r <= 7).
Proof.
  split; [reflexivity|].
  apply (emitted_routes_are_typed Z loop_state loop_built). reflexivity.
Defined.

Lemma no_shapes_no_shape_coords_witness :
  (exists emitted,
      routes loop_built = routes loop_state ++ emitted
      /\ forall r, In r emitted -> Route.shape_coords r = [])
  /\ (forall r, In r (routes loop_built) -> Route.shape_coords r = []).
Proof.
  destruct no_shapes_no_shape_coords as [Hbuild Hload].
  split.
  - apply (Hbuild Z loop_state loop_built); reflexivity.
  - apply (Hload Z decimal_of_str decimal_of_str loop_feed loop_built true);
      reflexivity.
Defined.

Lemma complete_archives_load_witness :
  complete_archive loop_feed = true
  /\ (exists self',
         _parse_zip Z decimal_of_str decimal_of_str (ZipFile loop_feed) __init__
         = Ok (self', true))
  /\ (exists self',
         _parse_zip Z decimal_of_str decimal_of_str
           (ZipFile_broken loop_feed stop_times_table bad_member) __init__
         = Ok (self', false)
         /\ routes self' = [])
  /\ _parse_zip Z decimal_of_str decimal_of_str
       (ZipFile_broken loop_feed trips_table bad_field) __init__
     = Raise csv_Error
  /\ _parse_zip Z decimal_of_str decimal_of_str
       (ZipFile_broken loop_feed shapes_table bad_encoding) __init__
     = _parse_zip Z decimal_of_str decimal_of_str (ZipFile loop_feed) __init__.
Proof.
  destruct (complete_archives_load Z decimal_of_str decimal_of_str loop_feed
              eq_refl) as (Hload & Hfail & Habsent).
  split; [reflexivity|]. split; [exact Hload|]. split; [|split].
  - apply (Hfail stop_times_table). discriminate.
  - apply (Hfail trips_table). discriminate.
  - apply Habsent. reflexivity.
Defined.

Lemma parsed_file_holds_the_result_witness :
  In (Write_parsed (stops loop_built) (routes loop_built))
     (fst (load_from_file Z decimal_of_str decimal_of_str (example_fs None)
             __init__))
  /\ parsed_writable (example_fs None) = true
  /\ In Read_archive
       (fst (load_from_file Z decimal_of_str decimal_of_str (example_fs None)
               __init__))
  /\ exists self',
      snd (load_from_file Z decimal_of_str decimal_of_str (example_fs None)
             __init__)
      = Ok (self', true)
      /\ stops loop_built = stops self' /\ routes loop_built = routes self'.
Proof.
  assert (H : In (Write_parsed (stops loop_built) (routes loop_built))
                (fst (load_from_file Z decimal_of_str decimal_of_str
                        (example_fs None) __init__))).
  { right. left. reflexivity. }
  split; [exact H|].
  exact (parsed_file_holds_the_result Z decimal_of_str decimal_of_str
           (example_fs None) __init__ _ _ H).
Defined.

Lemma load_from_file_failures_witness :
  load_from_file Z decimal_of_str decimal_of_str
    (mkFilesystem Z (Some (5%Q, Some BadZipFile)) None true) loop_state
  = ([Read_archive], Ok (loop_state, false))
  /\ load_from_file Z decimal_of_str decimal_of_str
       (mkFilesystem Z None (Some (6%Q, Unpicklable)) true) __init__
     = ([], Raise OSError)
  /\ load_from_file Z decimal_of_str decimal_of_str
       (mkFilesystem Z (Some (5%Q, None))
          (Some (6%Q, Pickled Z (stops loop_built) (routes loop_built))) true)
       __init__
     = ([Read_parsed],
        Ok (set_routes (set_stops __init__ (stops loop_built))
              (routes loop_built), true)).
Proof.
  split; [|split].
  - apply (load_from_file_failures Z decimal_of_str decimal_of_str);
      [reflexivity|]. right. right. exists 5%Q. reflexivity.
  - apply (load_from_file_failures Z decimal_of_str decimal_of_str);
      [reflexivity | discriminate].
  - destruct (load_from_file_failures Z decimal_of_str decimal_of_str
                (mkFilesystem Z (Some (5%Q, None))
                   (Some (6%Q, Pickled Z (stops loop_built) (routes loop_built)))
                   true) __init__) as (_ & _ & Hnewer).
    apply (Hnewer 5%Q 6%Q); reflexivity.
Defined.

Lemma parsed_file_round_trip_witness :
  In (Write_parsed (stops loop_built) (routes loop_built))
     (fst (load_from_file Z decimal_of_str decimal_of_str (example_fs None)
             __init__))
  /\ exists first second,
      snd (load_from_file Z decimal_of_str decimal_of_str (example_fs None)
             __init__)
      = Ok (first, true)
      /\ load_from_file Z decimal_of_str decimal_of_str
           (example_fs
              (Some (6%Q, Pickled Z (stops loop_built) (routes loop_built))))
           __init__
         = ([Read_parsed], Ok (second, true))
      /\ stops second = stops first
      /\ routes second = routes first.
Proof.
  assert (H : In (Write_parsed (stops loop_built) (routes loop_built))
                (fst (load_from_file Z decimal_of_str decimal_of_str
                        (example_fs None) __init__))).
  { right. left. reflexivity. }
  split; [exact H|].
  apply (parsed_file_round_trip Z decimal_of_str decimal_of_str
           (example_fs None)
           (example_fs
              (Some (6%Q, Pickled Z (stops loop_built) (routes loop_built))))
           __init__ _ _ 5%Q 6%Q (Some (ZipFile loop_feed)) H);
    reflexivity.
Defined.

Lemma download_ignores_the_cache_witness :
  In Download
     (fst (load_from_url Z decimal_of_str decimal_of_str example_age
             (example_env 0 None) loop_state false 7))
  /\ (forall ev,
         ~ In (File_io ev)
             (fst (load_from_url Z decimal_of_str decimal_of_str example_age
                     (example_env 0 None) loop_state false 7)))
  /\ snd (load_from_url Z decimal_of_str decimal_of_str example_age
            (example_env 0 None) loop_state false 7)
     = Ok (loop_state, false).
Proof.
  assert (H : In Download
                (fst (load_from_url Z decimal_of_str decimal_of_str example_age
                        (example_env 0 None) loop_state false 7))).
  { left. reflexivity. }
  split; [exact H|].
  exact (download_ignores_the_cache Z decimal_of_str decimal_of_str example_age
           (example_env 0 None) loop_state false 7 H).
Defined.

Lemma fresh_cache_is_loaded_from_file_witness :
  cache_dir_ok (example_env 777600 None) = true
  /\ ~ In Download
         (fst (load_from_url Z decimal_of_str decimal_of_str example_age
                 (example_env 777600 None) __init__ false 7))
  /\ load_from_url Z decimal_of_str decimal_of_str example_age
       (example_env 777600 None) __init__ false 7
     = (map File_io
          (fst (load_from_file Z decimal_of_str decimal_of_str
                  (cache_files (example_env 777600 None)) __init__)),
        snd (load_from_file Z decimal_of_str decimal_of_str
               (cache_files (example_env 777600 None)) __init__)).
Proof.
  assert (H : ~ In Download
                  (fst (load_from_url Z decimal_of_str decimal_of_str
                          example_age (example_env 777600 None) __init__
                          false 7))).
  { intros [H|[H|[]]]; discriminate. }
  split; [reflexivity|]. split; [exact H|].
  exact (fresh_cache_is_loaded_from_file Z decimal_of_str decimal_of_str
           example_age (example_env 777600 None) __init__ false 7 eq_refl H).
Defined.

Lemma geojson_point_describes_stop_witness :
  In (Point (2, 1) (Some "A") (Some "") [0] false)
     (parser_to_geojson Z loop_built)
  /\ (exists stop,
         OrderedDict.get cell_eqb (Some "A") (stops loop_built) = Some stop
         /\ (2, 1) = (Stop.lng stop, Stop.lat stop)
         /\ Some "" = Stop.name stop)
  /\ NoDup [0]
  /\ (forall ty,
         In ty [0]
         <-> exists r,
             In r (routes loop_built)
             /\ (2 <=? List.length (route_coords Z loop_built r))%nat = true
             /\ In (Some "A") (Route.stop_ids r) /\ Route.route_type r = ty)
  /\ (false = true
      <-> exists r1 r2,
          In r1 (routes loop_built)
          /\ (2 <=? List.length (route_coords Z loop_built r1))%nat = true
          /\ In (Some "A") (Route.stop_ids r1)
          /\ In r2 (routes loop_built)
          /\ (2 <=? List.length (route_coords Z loop_built r2))%nat = true
          /\ In (Some "A") (Route.stop_ids r2)
          /\ Route.route_type r1 <> Route.route_type r2).
Proof.
  assert (H : In (Point (2, 1) (Some "A") (Some "") [0] false)
                (parser_to_geojson Z loop_built)).
  { right. left. reflexivity. }
  split; [exact H|].
  exact (geojson_point_describes_stop Z loop_built _ _ _ _ _ H).
Defined.

Lemma geojson_one_point_per_stop_witness :
  (exists c name tys tr,
      In (Point c (Some "B") name tys tr) (parser_to_geojson Z loop_built))
  /\ NoDup (flat_map (fun f => match f with
                               | Point _ id _ _ _ => [id]
                               | LineString _ _ _ _ _ _ => []
                               end)
              (parser_to_geojson Z loop_built)).
Proof.
  destruct (geojson_one_point_per_stop Z loop_built) as [Hpoint Hdistinct].
  split; [|exact Hdistinct].
  apply (Hpoint loop_route (Some "B"));
    [left; reflexivity | reflexivity | right; left; reflexivity | reflexivity].
Defined.

Lemma built_routes_are_drawn_witness :
  routes loop_state = []
  /\ _build_routes Z loop_state = Ok loop_built
  /\ In loop_route (routes loop_built)
  /\ (Route.shape_coords loop_route = [] ->
      List.length (route_coords Z loop_built loop_route)
      = List.length (Route.stop_ids loop_route))
  /\ ((2 <=? List.length (route_coords Z loop_built loop_route))%nat = true
      <-> List.length (Route.shape_coords loop_route) <> 1%nat).
Proof.
  split; [reflexivity|]. split; [reflexivity|].
  split; [left; reflexivity|].
  apply (built_routes_are_drawn Z loop_state loop_built eq_refl eq_refl
           loop_route).
  left. reflexivity.
Defined.
